(** * Event prioritisation and dispatch: a shallow embedding

    The development follows the Python services under [backend/services]:
    the lite scorer ([server_lite_scorer.py]), the candidate store
    ([candidate_store.py]), the scheduler ([scheduler.py]) and the session
    worker ([deep_worker_v2.py]).

    Conventions.
    - Python [float] values are rationals ([Q]): arithmetic is exact and
      there is no NaN or infinity; the mean of a session divides with
      [Py.truediv], which raises on a zero divisor as Python does.  For
      the lite scorer, whose input space is finite once the hash is
      reduced, module [Binary64] evaluates the same formula on IEEE
      binary64 numbers and compares the two, and module [BucketBinary64]
      does the same for the token bucket, where rounding changes an
      answer.
    - Python [str] values are [string] (bytes); [str.lower] is the ASCII
      case mapping.
    - The Redis server is reliable: a command never raises.  Keys are kept
      in one typed map per key prefix ([ev:], [cand:], [expire:], ...).
    - Wall-clock reads ([time.time], [datetime.utcnow]) take their value
      from an explicit argument or from a tick function of the world. *)

From Stdlib Require Import ZArith QArith Qround String Ascii List Bool Lia.
From Stdlib Require Import Sorted Permutation OrdersEx Lqa.
From Corelib Require Import Uint63Axioms PrimFloat SpecFloat FloatOps.
From stdpp Require Import base gmap strings list sorting pretty.

(** * Python built-ins used by the services *)

Module Py.

Definition Qltb (a b : Q) : bool := negb (Qle_bool b a).

(** [min(a, b)]: the first argument unless the second is smaller. *)
Definition min (a b : Q) : Q := if Qltb b a then b else a.

(** [max(a, b)]: the first argument unless the second is larger. *)
Definition max (a b : Q) : Q := if Qltb a b then b else a.

(** [int(x)] on a float: truncation toward zero. *)
Definition int (x : Q) : Z := Z.quot (Qnum x) (Z.pos (Qden x)).

(** [d.get(k, dflt)] *)
Definition get {V} (d : gmap string V) (k : string) (dflt : V) : V :=
  default dflt (d !! k).

(** [c.lower()] and [s.lower()] on ASCII text. *)
Definition lower_ascii (c : ascii) : ascii :=
  let n := nat_of_ascii c in
  if Nat.leb 65 n && Nat.leb n 90 then ascii_of_nat (n + 32) else c.

Fixpoint lower (s : string) : string :=
  match s with
  | EmptyString => EmptyString
  | String c t => String (lower_ascii c) (lower t)
  end.

(** [needle in hay] on strings. *)
Fixpoint contains (needle hay : string) : bool :=
  String.prefix needle hay ||
  match hay with
  | EmptyString => false
  | String _ t => contains needle t
  end.

(** [x in xs] on a list of strings. *)
Definition mem (x : string) (xs : list string) : bool :=
  existsb (String.eqb x) xs.

(** [l[:k]]: a negative bound counts from the end. *)
Definition slice_to {A} (k : Z) (l : list A) : list A :=
  if (0 <=? k)%Z then firstn (Z.to_nat k) l
  else firstn (length l - Z.to_nat (- k)) l.

(** A JSON scalar as [json.loads] returns it. *)
Inductive value :=
| VNone
| VInt (z : Z)
| VFloat (x : Q)
| VStr (s : string).

(** What a Python expression evaluates to: a value, or an exception with
    the text [str(e)] gives. *)
Inductive outcome (A : Type) :=
| Ok (a : A)
| Raise (e : string).
Arguments Ok {A} a.
Arguments Raise {A} e.

(** [v / 1000.0] *)
Definition div_1000 (v : value) : outcome Q :=
  match v with
  | VInt z => Ok (inject_Z z / 1000)%Q
  | VFloat x => Ok (x / 1000)%Q
  | VNone => Raise "unsupported operand type(s) for /: 'NoneType' and 'float'"
  | VStr _ => Raise "unsupported operand type(s) for /: 'str' and 'float'"
  end.

(** [x / y] on floats: a zero divisor raises [ZeroDivisionError]. *)
Definition truediv (x y : Q) : outcome Q :=
  if Qeq_bool y 0 then Raise "float division by zero" else Ok (x / y)%Q.

(** [l[:v]] *)
Definition slice_to_value {A} (v : value) (l : list A) : outcome (list A) :=
  match v with
  | VInt k => Ok (slice_to k l)
  | VNone => Ok l
  | _ => Raise "slice indices must be integers or None or have an __index__ method"
  end.

End Py.

(** * The lite scorer ([server_lite_scorer.py]) *)

Module LiteScorer.

Record Factors := {
  f_base : Q;
  f_pet_factor : Q;
  f_perimeter_factor : Q;
  f_night_factor : Q;
  f_mode_factor : Q
}.

Record ScoreResult := {
  score : Q;
  confidence : Q;
  threshold_met : string;
  mode : string;
  factors : Factors
}.

Definition mode_factors : gmap string Q :=
  list_to_map [("stealth", 70 # 100); ("guardian", 1); ("perimeter", 130 # 100)]%Q.

Definition thresholds : gmap string (Q * Q) :=
  list_to_map [("stealth", (35 # 100, 65 # 100));
               ("guardian", (30 # 100, 60 # 100));
               ("perimeter", (25 # 100, 50 # 100))]%Q.

Definition bit (b : bool) : Q := if b then 1 else 0.

Section WithHash.

(** Python's built-in [hash] on [str].  CPython salts it with a seed
    drawn when the interpreter starts, so each process has its own. *)
Variable hash : string -> Z.

Definition mock_distance (image_name : string) : Q :=
  inject_Z (hash image_name mod 50) / 10.

Definition mock_is_night (image_name : string) : bool :=
  (hash image_name mod 4 =? 0)%Z.

Definition _calculate_exact_score
    (channels : gmap string bool) (image_name : string) (mode : string)
    : ScoreResult :=
  let base :=
    (1 * bit (Py.get channels "person" false)
     + (70 # 100) * bit (Py.get channels "vehicle" false)
     + (15 # 100) * bit (Py.get channels "linger" false))%Q in
  let pet_factor := (1 - (60 # 100) * bit (Py.get channels "pet" false))%Q in
  let perimeter_factor :=
    if Py.Qltb (mock_distance image_name) (15 # 10) then (125 # 100)%Q else 1%Q in
  let night_factor :=
    if mock_is_night image_name then (115 # 100)%Q else 1%Q in
  let mode_factor := Py.get mode_factors mode 1%Q in
  let final_score :=
    (base * pet_factor * perimeter_factor * night_factor * mode_factor)%Q in
  let final_score := Py.max 0 (Py.min 1 final_score) in
  let '(low_thresh, high_thresh) :=
    Py.get thresholds mode (30 # 100, 60 # 100)%Q in
  let threshold_met :=
    if Py.Qltb final_score low_thresh then "low"
    else if Py.Qltb final_score high_thresh then "medium"
    else "high" in
  {| score := final_score;
     confidence := final_score;
     threshold_met := threshold_met;
     mode := mode;
     factors := {| f_base := base;
                   f_pet_factor := pet_factor;
                   f_perimeter_factor := perimeter_factor;
                   f_night_factor := night_factor;
                   f_mode_factor := mode_factor |} |}.

End WithHash.

End LiteScorer.

(** * The scoring contract as the specification words it (section 4.A) *)

Module ScoringContract.

Inductive Mode := stealth | guardian | perimeter.
Inductive Band := low | medium | high.

Definition mode_name (m : Mode) : string :=
  match m with
  | stealth => "stealth" | guardian => "guardian" | perimeter => "perimeter"
  end.

Definition band_name (b : Band) : string :=
  match b with low => "low" | medium => "medium" | high => "high" end.

Definition indicator (b : bool) : Q := if b then 1 else 0.

Definition clamp01 (x : Q) : Q :=
  if Qle_bool x 0 then 0 else if Qle_bool 1 x then 1 else x.

Definition mode_factor (m : Mode) : Q :=
  match m with
  | stealth => 70 # 100 | guardian => 1 | perimeter => 130 # 100
  end.

Definition cutoffs (m : Mode) : Q * Q :=
  match m with
  | stealth => (35 # 100, 65 # 100)
  | guardian => (30 # 100, 60 # 100)
  | perimeter => (25 # 100, 50 # 100)
  end.

Definition contract_score
    (person vehicle pet linger : bool) (m : Mode)
    (distance_to_perimeter_m : Q) (is_night : bool) : Q :=
  let base :=
    (1 * indicator person + (70 # 100) * indicator vehicle
     + (15 # 100) * indicator linger)%Q in
  let pet_factor := (1 - (60 # 100) * indicator pet)%Q in
  let perimeter_factor :=
    if Qle_bool (15 # 10) distance_to_perimeter_m then 1%Q else (125 # 100)%Q in
  let night_factor := if is_night then (115 # 100)%Q else 1%Q in
  clamp01 (base * pet_factor * perimeter_factor * night_factor * mode_factor m).

Definition contract_band (m : Mode) (s : Q) : Band :=
  let '(low_cutoff, high_cutoff) := cutoffs m in
  if negb (Qle_bool low_cutoff s) then low
  else if negb (Qle_bool high_cutoff s) then medium
  else high.

End ScoringContract.

(** * The lite scorer on IEEE binary64 numbers

    The same function with every [float] a binary64 number and every
    operation the rounded one, to compare with the rational model. *)

Module Binary64.

#[local] Set Warnings "-inexact-float".

Definition bit (b : bool) : float := if b then 1%float else 0%float.

Definition min (a b : float) : float := if (b <? a)%float then b else a.

Definition max (a b : float) : float := if (a <? b)%float then b else a.

(** An [int] below 2^53 as a [float]. *)
Definition of_int (z : Z) : float := of_uint63 (Uint63Axioms.of_Z z).

Definition mode_factors : gmap string float :=
  list_to_map [("stealth", 0.70%float); ("guardian", 1.00%float);
               ("perimeter", 1.30%float)].

Definition thresholds : gmap string (float * float) :=
  list_to_map [("stealth", (0.35, 0.65)%float);
               ("guardian", (0.30, 0.60)%float);
               ("perimeter", (0.25, 0.50)%float)].

(** [_calculate_exact_score], returning the score and the band. *)
Definition _calculate_exact_score (hash : string -> Z)
    (channels : gmap string bool) (image_name : string) (mode : string)
    : float * string :=
  let base :=
    (1.00 * bit (Py.get channels "person" false)
     + 0.70 * bit (Py.get channels "vehicle" false)
     + 0.15 * bit (Py.get channels "linger" false))%float in
  let pet_factor := (1 - 0.60 * bit (Py.get channels "pet" false))%float in
  let mock_distance := (of_int (hash image_name mod 50) / 10.0)%float in
  let perimeter_factor :=
    if (mock_distance <? 1.5)%float then 1.25%float else 1.0%float in
  let is_night := (hash image_name mod 4 =? 0)%Z in
  let night_factor := if is_night then 1.15%float else 1.0%float in
  let mode_factor := Py.get mode_factors mode 1.00%float in
  let final_score :=
    (base * pet_factor * perimeter_factor * night_factor * mode_factor)%float in
  let final_score := max 0.0 (min 1.0 final_score) in
  let '(low_thresh, high_thresh) := Py.get thresholds mode (0.30, 0.60)%float in
  let threshold_met :=
    if (final_score <? low_thresh)%float then "low"
    else if (final_score <? high_thresh)%float then "medium"
    else "high" in
  (final_score, threshold_met).

(** The rational a finite binary64 number stands for. *)
Definition to_Q (f : float) : Q :=
  match Prim2SF f with
  | S754_finite s m e =>
      let v := if (0 <=? e)%Z then inject_Z (Z.pos m * 2 ^ e)
               else (inject_Z (Z.pos m) / inject_Z (2 ^ (- e)))%Q in
      if s then (- v)%Q else v
  | _ => 0%Q
  end.

(** [int(x)] on a finite binary64 number: truncation toward zero. *)
Definition int (f : float) : Z :=
  match Prim2SF f with
  | S754_finite s m e =>
      let v := if (0 <=? e)%Z then (Z.pos m * 2 ^ e)%Z
               else Z.quot (Z.pos m) (2 ^ (- e)) in
      if s then (- v)%Z else v
  | _ => 0%Z
  end.

(** [int(capacity * (1 - 0.4))] as the scheduler computes it. *)
Definition throttled (capacity : Z) : Z :=
  int (of_int capacity * (1 - 0.4))%float.

(** Within 1e-9 of each other. *)
Definition close (x y : Q) : bool :=
  Qle_bool (x - y) (1 # 1000000000) && Qle_bool (y - x) (1 # 1000000000).

(** The binary64 evaluation and the rational one give the same band and
    scores within 1e-9. *)
Definition agrees (hash : string -> Z) (channels : gmap string bool)
    (image_name mode : string) : bool :=
  let r := LiteScorer._calculate_exact_score hash channels image_name mode in
  let r64 := _calculate_exact_score hash channels image_name mode in
  String.eqb (snd r64) (LiteScorer.threshold_met r)
  && close (to_Q (fst r64)) (LiteScorer.score r).

Definition channels_of (person vehicle pet linger : bool) : gmap string bool :=
  list_to_map [("person", person); ("vehicle", vehicle); ("pet", pet);
               ("linger", linger)].

Definition for_bools (f : bool -> bool) : bool := f true && f false.

Definition for_modes (f : ScoringContract.Mode -> bool) : bool :=
  f ScoringContract.stealth && f ScoringContract.guardian
  && f ScoringContract.perimeter.

Definition for_residues (f : Z -> bool) : bool :=
  forallb f (map Z.of_nat (seq 0 100)).

(** The comparison on every combination of channels, mode and residue of
    the hash modulo 100. *)
Definition all_agree : bool :=
  for_residues (fun k =>
  for_bools (fun person => for_bools (fun vehicle =>
  for_bools (fun pet => for_bools (fun linger =>
  for_modes (fun m =>
    agrees (fun _ => k) (channels_of person vehicle pet linger) ""
           (ScoringContract.mode_name m))))))).

End Binary64.

(** * The candidate store ([candidate_store.py]) *)

Module CandidateStore.

Inductive Priority := LOW | NORMAL | HIGH | CRITICAL.

Definition priority_value (p : Priority) : Z :=
  match p with LOW => 1 | NORMAL => 2 | HIGH => 3 | CRITICAL => 4 end.

Inductive ProcessingTier := LITE_ONLY | STANDARD | PREMIUM | ENTERPRISE.

Definition tier_value (t : ProcessingTier) : Z :=
  match t with LITE_ONLY => 1 | STANDARD => 2 | PREMIUM => 3 | ENTERPRISE => 4 end.

#[global] Instance Priority_eq_dec : EqDecision Priority.
Proof. solve_decision. Defined.

#[global] Instance ProcessingTier_eq_dec : EqDecision ProcessingTier.
Proof. solve_decision. Defined.

#[global] Instance ProcessingTier_countable : Countable ProcessingTier.
Proof.
  refine (inj_countable'
    (fun t => match t with
              | LITE_ONLY => 1%positive | STANDARD => 2%positive
              | PREMIUM => 3%positive | ENTERPRISE => 4%positive end)
    (fun p => match p with
              | 1%positive => LITE_ONLY | 2%positive => STANDARD
              | 3%positive => PREMIUM | _ => ENTERPRISE end) _).
  by intros [].
Defined.

(** Times are seconds since the epoch. *)
Record EventCandidate := {
  event_id : string;
  home_id : string;
  user_id : string;
  timestamp : Q;
  priority : Priority;
  processing_tier : ProcessingTier;
  image_url : string;
  location : string;
  mode : string;
  lite_processed : bool;
  lite_channels : option (gmap string bool);
  lite_explainer : option string;
  lite_confidence : option Q;
  person_detected : bool;
  vehicle_detected : bool;
  motion_score : Q;
  time_of_day_factor : Q;
  location_importance : Q
}.

(** [EventCandidate.calculate_score]; [now] is the value of
    [datetime.utcnow()] read inside. *)
Definition calculate_score (c : EventCandidate) (now : Q) : Q :=
  let base_score := (inject_Z (priority_value (priority c)) * 100)%Q in
  let base_score := if person_detected c then (base_score + 50)%Q else base_score in
  let base_score := if vehicle_detected c then (base_score + 30)%Q else base_score in
  let base_score := (base_score + motion_score c * 20)%Q in
  let base_score := (base_score * time_of_day_factor c)%Q in
  let base_score := (base_score * location_importance c)%Q in
  let age_minutes := ((now - timestamp c) / 60)%Q in
  let recency_bonus := (Py.max 0 (60 - age_minutes) * 2)%Q in
  let base_score := (base_score + recency_bonus)%Q in
  (base_score * (1 + inject_Z (tier_value (processing_tier c)) * (2 # 10)))%Q.

(** ** Redis sorted sets

    A sorted set is kept as Redis keeps it: the entries in ascending
    score, entries of equal score in ascending byte order of the member. *)

Abbreviation zentry := (string * Q)%type.
Abbreviation zset := (list zentry).

Definition entry_leb (a b : zentry) : bool :=
  Py.Qltb (snd a) (snd b) || (Qeq_bool (snd a) (snd b) && String.leb (fst a) (fst b)).

Fixpoint zinsert (e : zentry) (z : zset) : zset :=
  match z with
  | [] => [e]
  | x :: t => if entry_leb e x then e :: x :: t else x :: zinsert e t
  end.

Definition zdel (members : list string) (z : zset) : zset :=
  List.filter (fun e : zentry => negb (Py.mem (fst e) members)) z.

Definition zadd (member : string) (score : Q) (z : zset) : zset :=
  zinsert (member, score) (zdel [member] z).

(** Inclusive index ranges of ZRANGE and ZREVRANGE: a negative index counts
    from the end, and an index past the end is cut. *)
Definition range {A} (start stop : Z) (l : list A) : list A :=
  let n := Z.of_nat (length l) in
  let start := if (start <? 0)%Z then Z.max 0 (n + start) else start in
  let stop := if (stop <? 0)%Z then (n + stop)%Z else stop in
  let stop := Z.min stop (n - 1) in
  if (stop <? start)%Z then []
  else firstn (Z.to_nat (stop - start + 1)) (skipn (Z.to_nat start) l).

(** ** The key space *)

Inductive RedisKey :=
| K_ev (event_id : string)
| K_cand (home_id : string)
| K_expire (epoch : Z).

#[global] Instance RedisKey_eq_dec : EqDecision RedisKey.
Proof. solve_decision. Defined.

#[global] Instance RedisKey_countable : Countable RedisKey.
Proof.
  refine (inj_countable'
    (fun k => match k with
              | K_ev s => inl s | K_cand s => inr (inl s) | K_expire z => inr (inr z)
              end)
    (fun x => match x with
              | inl s => K_ev s | inr (inl s) => K_cand s | inr (inr z) => K_expire z
              end) _).
  by intros [].
Defined.

Record Redis := {
  ev : gmap string EventCandidate;      (* ev:{event_id}, a hash *)
  cand : gmap string zset;              (* cand:{home_id}, a sorted set *)
  expire_sets : gmap Z (gset string);   (* expire:{epoch}, a set *)
  ttl : gmap RedisKey Z                 (* seconds to live, where set *)
}.

Definition empty_redis : Redis :=
  {| ev := ∅; cand := ∅; expire_sets := ∅; ttl := ∅ |}.

Definition index (home : string) (r : Redis) : zset :=
  default [] (cand r !! home).

Definition EXISTS (k : RedisKey) (r : Redis) : bool :=
  match k with
  | K_ev id => bool_decide (is_Some (ev r !! id))
  | K_cand h => bool_decide (is_Some (cand r !! h))
  | K_expire t => bool_decide (is_Some (expire_sets r !! t))
  end.

Definition EXPIRE (k : RedisKey) (seconds : Z) (r : Redis) : Redis :=
  if EXISTS k r
  then {| ev := ev r; cand := cand r; expire_sets := expire_sets r;
          ttl := <[k := seconds]> (ttl r) |}
  else r.

Definition HSET (id : string) (c : EventCandidate) (r : Redis) : Redis :=
  {| ev := <[id := c]> (ev r); cand := cand r; expire_sets := expire_sets r;
     ttl := ttl r |}.

Definition DEL_ev (id : string) (r : Redis) : Redis :=
  {| ev := delete id (ev r); cand := cand r; expire_sets := expire_sets r;
     ttl := delete (K_ev id) (ttl r) |}.

Definition ZADD (home member : string) (score : Q) (r : Redis) : Redis :=
  {| ev := ev r; cand := <[home := zadd member score (index home r)]> (cand r);
     expire_sets := expire_sets r; ttl := ttl r |}.

(** A sorted set that loses its last member is deleted with its key. *)
Definition ZREM (home : string) (members : list string) (r : Redis) : Redis :=
  match cand r !! home with
  | None => r
  | Some z =>
      match zdel members z with
      | [] => {| ev := ev r; cand := delete home (cand r);
                 expire_sets := expire_sets r; ttl := delete (K_cand home) (ttl r) |}
      | z' => {| ev := ev r; cand := <[home := z']> (cand r);
                 expire_sets := expire_sets r; ttl := ttl r |}
      end
  end.

Definition ZCARD (home : string) (r : Redis) : Z :=
  Z.of_nat (length (index home r)).

Definition ZRANGE (home : string) (start stop : Z) (r : Redis) : list string :=
  map fst (range start stop (index home r)).

Definition ZREVRANGE_withscores (home : string) (start stop : Z) (r : Redis)
    : list zentry :=
  range start stop (rev (index home r)).

Definition SADD (epoch : Z) (member : string) (r : Redis) : Redis :=
  {| ev := ev r; cand := cand r;
     expire_sets := <[epoch := {[member]} ∪ default ∅ (expire_sets r !! epoch)]>
                      (expire_sets r);
     ttl := ttl r |}.

(** ** The store *)

Record CandidateStore := {
  max_candidates_per_home : Z;
  candidate_ttl : Z;
  cleanup_batch_size : Z
}.

(** [CandidateStore.__init__] *)
Definition init : CandidateStore :=
  {| max_candidates_per_home := 2000; candidate_ttl := 86400;
     cleanup_batch_size := 100 |}.

Section Store.
Variable self : CandidateStore.

Definition _cleanup_old_candidates (home : string) (r : Redis) : Redis :=
  let count := ZCARD home r in
  if (max_candidates_per_home self <? count)%Z then
    let to_remove := (count - max_candidates_per_home self)%Z in
    let old_candidates := ZRANGE home 0 (to_remove - 1) r in
    match old_candidates with
    | [] => r
    | _ =>
        let r := ZREM home old_candidates r in
        fold_left (fun r id => DEL_ev id r) old_candidates r
    end
  else r.

(** [now] is the value of [datetime.utcnow()] read by [calculate_score]
    and [unix_now] the value of [int(time.time())]. *)
Definition add_candidate (candidate : EventCandidate) (now : Q) (unix_now : Z)
    (r : Redis) : bool * Redis :=
  let event_key := K_ev (event_id candidate) in
  let exists_ := EXISTS event_key r in
  let score := calculate_score candidate now in
  let candidate_key := K_cand (home_id candidate) in
  if exists_ then
    let r := ZADD (home_id candidate) (event_id candidate) score r in
    let r := EXPIRE candidate_key (candidate_ttl self) r in
    (true, r)
  else
    let r := HSET (event_id candidate) candidate r in
    let r := EXPIRE event_key (candidate_ttl self) r in
    let r := ZADD (home_id candidate) (event_id candidate) score r in
    let r := EXPIRE candidate_key (candidate_ttl self) r in
    let expire_key := (unix_now + candidate_ttl self)%Z in
    let r := SADD expire_key (home_id candidate ++ ":" ++ event_id candidate) r in
    let r := EXPIRE (K_expire expire_key) (candidate_ttl self + 3600) r in
    let r := _cleanup_old_candidates (home_id candidate) r in
    (true, r).

(** What [get_candidate] rebuilds from the hash: text fields come back
    as stored, an absent confidence is read as [0.0], and an explainer
    that spells [None] is read as absent.  The priority and the tier are
    written with [str] and read back with [int], which gives the member
    back where [str] of an [IntEnum] member is its number (Python 3.11
    and later). *)
Definition decode (c : EventCandidate) : EventCandidate :=
  {| event_id := event_id c; home_id := home_id c; user_id := user_id c;
     timestamp := timestamp c; priority := priority c;
     processing_tier := processing_tier c; image_url := image_url c;
     location := location c; mode := mode c;
     lite_processed := lite_processed c; lite_channels := lite_channels c;
     lite_explainer :=
       match lite_explainer c with
       | Some s => if String.eqb s "None" then None else Some s
       | None => None
       end;
     lite_confidence := Some (default 0%Q (lite_confidence c));
     person_detected := person_detected c;
     vehicle_detected := vehicle_detected c;
     motion_score := motion_score c;
     time_of_day_factor := time_of_day_factor c;
     location_importance := location_importance c |}.

Definition get_candidate (id : string) (r : Redis) : option EventCandidate :=
  decode <$> ev r !! id.

Definition get_top_candidates (home : string) (limit : Z) (r : Redis)
    : list EventCandidate :=
  let results := ZREVRANGE_withscores home 0 (limit - 1) r in
  omap (fun e : zentry => get_candidate (fst e) r) results.

Definition update_candidate_score (id home : string) (now : Q) (r : Redis)
    : bool * Redis :=
  match get_candidate id r with
  | None => (false, r)
  | Some candidate => (true, ZADD home id (calculate_score candidate now) r)
  end.

Definition remove_candidate (id home : string) (r : Redis) : bool * Redis :=
  let r := ZREM home [id] r in
  let r := DEL_ev id r in
  (true, r).

(** [list.sort(key=..., reverse=True)]: descending and stable.  The
    keys are computed once, before the elements are compared. *)
Fixpoint insert_desc {A} (x : A * Q) (l : list (A * Q)) : list (A * Q) :=
  match l with
  | [] => [x]
  | y :: t => if Py.Qltb (snd x) (snd y) then y :: insert_desc x t else x :: y :: t
  end.

Definition sort_desc {A} (l : list (A * Q)) : list (A * Q) :=
  foldr insert_desc [] l.

(** [get_candidates_by_tier], with the number [c.calculate_score()]
    returns as an argument: [score c now] is the sort key of [c] when the
    clock reads [now].  [keys] is the answer of [KEYS cand:*], in the
    order the server gives it, and [clock i] the value of
    [datetime.utcnow()] when the sort computes the key of its i-th
    element. *)
Definition get_candidates_by_tier_with (score : EventCandidate -> Q -> Q)
    (tier : ProcessingTier) (limit : Z)
    (keys : list string) (clock : nat -> Q) (r : Redis) : list EventCandidate :=
  let all_candidates :=
    flat_map (fun home =>
                List.filter (fun c => bool_decide (processing_tier c = tier))
                       (get_top_candidates home limit r)) keys in
  let keyed := imap (fun i c => (c, score c (clock i))) all_candidates in
  Py.slice_to limit (map fst (sort_desc keyed)).

(** [get_candidates_by_tier] with the scores in exact arithmetic. *)
Definition get_candidates_by_tier (tier : ProcessingTier) (limit : Z)
    (keys : list string) (clock : nat -> Q) (r : Redis) : list EventCandidate :=
  get_candidates_by_tier_with calculate_score tier limit keys clock r.

End Store.

End CandidateStore.

(** * Queue messages (the session schema) *)

Module Queue.

(** The JSON object a session travels as.  [K] and [deadline_ms] keep the
    JSON value: [ProcessingSession.from_json] takes them as they come. *)
Record Session := {
  session_id : string;
  home_id : string;
  event_ids : list string;
  tier : string;
  K : Py.value;
  deadline_ms : Py.value;
  priority : string;
  enqueued_at : Q;
  bypass_reason : option string
}.

End Queue.

(** * The scheduler ([scheduler.py]) *)

Module Scheduler.
Import CandidateStore.

Record TokenBucket := {
  capacity : Z;
  tokens : Q;
  refill_rate : Q;
  last_refill : Q
}.

(** [TokenBucket.consume]; [now] is the value of [time.time()]. *)
Definition consume (tokens_needed : Z) (now : Q) (b : TokenBucket)
    : bool * TokenBucket :=
  let time_passed := (now - last_refill b)%Q in
  let tokens' :=
    Py.min (inject_Z (capacity b)) (tokens b + time_passed * refill_rate b)%Q in
  if negb (Py.Qltb tokens' (inject_Z tokens_needed)) then
    (true, {| capacity := capacity b; tokens := (tokens' - inject_Z tokens_needed)%Q;
              refill_rate := refill_rate b; last_refill := now |})
  else
    (false, {| capacity := capacity b; tokens := tokens';
               refill_rate := refill_rate b; last_refill := now |}).

(** [TokenBucket.time_until_tokens] *)
Definition time_until_tokens (tokens_needed : Z) (b : TokenBucket) : Q :=
  if negb (Py.Qltb (tokens b) (inject_Z tokens_needed)) then 0%Q
  else ((inject_Z tokens_needed - tokens b) / refill_rate b)%Q.

Record ProcessingScheduler := {
  candidate_store : CandidateStore;
  tier_limits : list (ProcessingTier * Z);
  num_gpus : Z;
  autothrottle_threshold : Z;
  throttle_reduction : Q;
  min_best_effort_k : Z;
  token_buckets : gmap ProcessingTier TokenBucket;
  processing_jobs : gset string;
  queues : gmap string (list Queue.Session);   (* the Redis lists *)
  redis : Redis                                (* the store's key space *)
}.

(** [_initialize_token_buckets] *)
Definition _initialize_token_buckets (limits : list (ProcessingTier * Z)) (now : Q)
    : gmap ProcessingTier TokenBucket :=
  fold_left
    (fun buckets '(tier, limit_per_minute) =>
       if (0 <? limit_per_minute)%Z then
         <[tier := {| capacity := limit_per_minute;
                      tokens := inject_Z limit_per_minute;
                      refill_rate := (inject_Z limit_per_minute / 60)%Q;
                      last_refill := now |}]> buckets
       else buckets)
    limits ∅.

(** [ProcessingScheduler.__init__] on an empty Redis *)
Definition init (now : Q) : ProcessingScheduler :=
  let limits := [(LITE_ONLY, 0); (STANDARD, 2); (PREMIUM, 7); (ENTERPRISE, 32)]%Z in
  {| candidate_store := CandidateStore.init;
     tier_limits := limits;
     num_gpus := 1;
     autothrottle_threshold := 150 * 1;
     throttle_reduction := 4 # 10;
     min_best_effort_k := 5;
     token_buckets := _initialize_token_buckets limits now;
     processing_jobs := ∅;
     queues := ∅;
     redis := empty_redis |}.

Definition with_buckets (buckets : gmap ProcessingTier TokenBucket)
    (self : ProcessingScheduler) : ProcessingScheduler :=
  {| candidate_store := candidate_store self; tier_limits := tier_limits self;
     num_gpus := num_gpus self; autothrottle_threshold := autothrottle_threshold self;
     throttle_reduction := throttle_reduction self;
     min_best_effort_k := min_best_effort_k self;
     token_buckets := buckets;
     processing_jobs := processing_jobs self; queues := queues self;
     redis := redis self |}.

(** The body of the loop of [_apply_autothrottle], for one bucket. *)
Definition throttle_bucket (self : ProcessingScheduler) (bucket : TokenBucket)
    : TokenBucket :=
  let original_capacity := capacity bucket in
  let new_capacity :=
    Z.max (min_best_effort_k self)
          (Py.int (inject_Z original_capacity * (1 - throttle_reduction self))) in
  if (new_capacity <? original_capacity)%Z then
    {| capacity := new_capacity;
       tokens := Py.min (tokens bucket) (inject_Z new_capacity);
       refill_rate := refill_rate bucket;
       last_refill := last_refill bucket |}
  else bucket.

Definition _apply_autothrottle (self : ProcessingScheduler) : ProcessingScheduler :=
  with_buckets (throttle_bucket self <$> token_buckets self) self.

Definition life_safety_indicators : list string :=
  ["glassbreak"; "smoke"; "co"; "carbon_monoxide";
   "forced_entry"; "emergency"; "alarm"; "break_in"].

Definition _is_life_safety_event (candidate : EventCandidate) : bool :=
  if match lite_explainer candidate with
     | Some explainer =>
         if String.eqb explainer "" then false
         else
           let explainer_lower := Py.lower explainer in
           existsb (fun indicator => Py.contains indicator explainer_lower)
                   life_safety_indicators
     | None => false
     end
  then true
  else if Py.mem (location candidate) ["front_door"; "back_door"]
          && (priority_value CRITICAL <=? priority_value (priority candidate))%Z
  then true
  else if Py.mem (mode candidate) ["emergency"; "alarm"] then true
  else false.

(** [LPUSH]: the new element becomes the head of the list. *)
Definition LPUSH (queue : string) (msg : Queue.Session)
    (qs : gmap string (list Queue.Session)) : gmap string (list Queue.Session) :=
  <[queue := msg :: default [] (qs !! queue)]> qs.

(** [now] is the value of [datetime.utcnow()] written to [enqueued_at]. *)
Definition schedule_life_safety_event (candidate : EventCandidate) (now : Q)
    (self : ProcessingScheduler) : bool * ProcessingScheduler :=
  if negb (_is_life_safety_event candidate) then (false, self)
  else
    let job_data :=
      {| Queue.session_id := "life_safety_" ++ event_id candidate;
         Queue.home_id := home_id candidate;
         Queue.event_ids := [event_id candidate];
         Queue.tier := "emergency";
         Queue.K := Py.VInt 12;
         Queue.deadline_ms := Py.VInt 2000;
         Queue.priority := "LIFE_SAFETY";
         Queue.enqueued_at := now;
         Queue.bypass_reason := Some "life_safety_event" |} in
    let queues' := LPUSH "deep_processing_emergency" job_data (queues self) in
    let jobs' := {[event_id candidate]} ∪ processing_jobs self in
    let '(_, redis') :=
      remove_candidate (event_id candidate) (home_id candidate) (redis self) in
    (true,
     {| candidate_store := candidate_store self; tier_limits := tier_limits self;
        num_gpus := num_gpus self;
        autothrottle_threshold := autothrottle_threshold self;
        throttle_reduction := throttle_reduction self;
        min_best_effort_k := min_best_effort_k self;
        token_buckets := token_buckets self;
        processing_jobs := jobs'; queues := queues'; redis := redis' |}).

End Scheduler.

(** * The session worker ([deep_worker_v2.py]) *)

Module DeepWorker.
Import Py.

Abbreviation ProcessingSession := Queue.Session.

Record Detection := {
  d_class : string;          (* [detection.get("class", "")] *)
  d_confidence : Q           (* [detection.get("confidence", 0.0)] *)
}.

(** An entry of [findings["events_processed"]]; a key the dictionary does
    not have is [None]. *)
Record EventResult := {
  r_event_id : string;
  r_success : bool;
  r_detections : option (list Detection);
  r_confidence : option Q;
  r_risk_score : option Q;
  r_error : option string
}.

Record ThreatIndicator := {
  t_type : string;
  t_confidence : Q;
  t_event_id : string
}.

Record ProcessingStats := {
  total_events : nat;
  stats_deadline_ms : Py.value;
  stats_tier : string
}.

Record Findings := {
  f_session_id : string;
  events_processed : list EventResult;
  summary : string;
  risk_score : Q;
  threat_indicators : list ThreatIndicator;
  processing_stats : ProcessingStats
}.

(** [findings] is [None] for the empty dictionary of a failed session. *)
Record SessionResult := {
  res_session_id : string;
  success : bool;
  processing_duration_ms : Z;
  res_timestamp : Q;
  findings : option Findings;
  error_message : option string
}.

Record Completion := {
  c_event_id : string;
  c_worker_id : string;
  c_success : bool;
  c_completed_at : Q
}.

Record Digest := {
  g_session_id : string;
  g_home_id : string;
  g_tier : string;
  g_findings : option Findings;
  g_processing_duration_ms : Z;
  g_completed_at : Q
}.

(** What the worker can change: its Redis keys and lists, its counter of
    sessions, and the number of times it has read the clock. *)
Record World := {
  session_results : gmap string (SessionResult * Z);  (* session_result:{id}, with its TTL *)
  scheduler_completions : list Completion;
  digest_queue : list Digest;
  total_sessions_processed : nat;
  reads : nat
}.

(** ** A state and exception monad for the worker's coroutines *)

Definition M (A : Type) : Type := World -> outcome A * World.

Definition ret {A} (a : A) : M A := fun w => (Ok a, w).

Definition bind {A B} (m : M A) (k : A -> M B) : M B :=
  fun w =>
    match m w with
    | (Ok a, w') => k a w'
    | (Raise e, w') => (Raise e, w')
    end.

Definition lift {A} (o : outcome A) : M A := fun w => (o, w).

(** [try: m except Exception as e: handler(str(e))] *)
Definition try_except {A} (m : M A) (handler : string -> M A) : M A :=
  fun w =>
    match m w with
    | (Ok a, w') => (Ok a, w')
    | (Raise e, w') => handler e w'
    end.

Notation "x <- m ;; k" := (bind m (fun x => k))
  (at level 100, m at next level, right associativity).
Notation "m ;;; k" := (bind m (fun _ => k))
  (at level 100, right associativity).

Fixpoint for_each {A} (l : list A) (body : A -> M unit) : M unit :=
  match l with
  | [] => ret tt
  | x :: t => body x ;;; for_each t body
  end.

Definition SETEX (key : string) (seconds : Z) (v : SessionResult) : M unit :=
  fun w =>
    (Ok tt,
     {| session_results := <[key := (v, seconds)]> (session_results w);
        scheduler_completions := scheduler_completions w;
        digest_queue := digest_queue w;
        total_sessions_processed := total_sessions_processed w;
        reads := reads w |}).

Definition LPUSH_completion (c : Completion) : M unit :=
  fun w =>
    (Ok tt,
     {| session_results := session_results w;
        scheduler_completions := c :: scheduler_completions w;
        digest_queue := digest_queue w;
        total_sessions_processed := total_sessions_processed w;
        reads := reads w |}).

Definition LPUSH_digest (d : Digest) : M unit :=
  fun w =>
    (Ok tt,
     {| session_results := session_results w;
        scheduler_completions := scheduler_completions w;
        digest_queue := d :: digest_queue w;
        total_sessions_processed := total_sessions_processed w;
        reads := reads w |}).

Definition count_session : M unit :=
  fun w =>
    (Ok tt,
     {| session_results := session_results w;
        scheduler_completions := scheduler_completions w;
        digest_queue := digest_queue w;
        total_sessions_processed := S (total_sessions_processed w);
        reads := reads w |}).

Section Worker.

(** The wall clock: [ticks n] is what the worker's n-th read of it returns
    ([time.time()] and [datetime.utcnow()], in seconds). *)
Variable ticks : nat -> Q.

(** [self.worker_id] *)
Variable worker_id : string.

(** [_process_session_event]: fetching the record, downloading the image
    and running the inference are the work of collaborators; what comes
    back for an event may depend on when it is asked. *)
Variable session_event : nat -> string -> ProcessingSession -> outcome EventResult.

Definition read_clock : M Q :=
  fun w =>
    (Ok (ticks (reads w)),
     {| session_results := session_results w;
        scheduler_completions := scheduler_completions w;
        digest_queue := digest_queue w;
        total_sessions_processed := total_sessions_processed w;
        reads := S (reads w) |}).

Definition _process_session_event (event_id : string) (session : ProcessingSession)
    : M EventResult :=
  fun w => (session_event (reads w) event_id session, w).

Definition _notify_scheduler_completion (event_id : string) (ok : bool) : M unit :=
  try_except
    (completed_at <- read_clock ;;
     LPUSH_completion {| c_event_id := event_id; c_worker_id := worker_id;
                         c_success := ok; c_completed_at := completed_at |})
    (fun _ => ret tt).

Definition _handle_session_success (session : ProcessingSession)
    (result : SessionResult) : M unit :=
  try_except
    (SETEX (Queue.session_id session) 86400 result ;;;
     for_each (Queue.event_ids session)
              (fun event_id => _notify_scheduler_completion event_id true) ;;;
     completed_at <- read_clock ;;
     LPUSH_digest {| g_session_id := Queue.session_id session;
                     g_home_id := Queue.home_id session;
                     g_tier := Queue.tier session;
                     g_findings := findings result;
                     g_processing_duration_ms := processing_duration_ms result;
                     g_completed_at := completed_at |})
    (fun _ => ret tt).

Definition _handle_session_failure (session : ProcessingSession)
    (result : SessionResult) : M unit :=
  try_except
    (SETEX (Queue.session_id session) 86400 result ;;;
     for_each (Queue.event_ids session)
              (fun event_id => _notify_scheduler_completion event_id false))
    (fun _ => ret tt).

Definition _generate_session_summary (f : Findings) (session : ProcessingSession)
    : string :=
  let processed_count := length (events_processed f) in
  let successful := length (List.filter (fun e => r_success e) (events_processed f)) in
  let threat_count := length (threat_indicators f) in
  let summary : string :=
    ("Processed " ++ pretty successful ++ "/" ++ pretty processed_count
     ++ " events from session " ++ Queue.session_id session)%string in
  let summary : string :=
    if Nat.ltb 0 threat_count then
      let threat_types := remove_dups (map t_type (threat_indicators f)) in
      (summary ++ ", detected " ++ pretty threat_count ++ " threats: "
       ++ String.concat ", " threat_types)%string
    else summary in
  if Qltb (7 # 10) (risk_score f) then (summary ++ " (HIGH RISK)")%string
  else if Qltb (4 # 10) (risk_score f) then (summary ++ " (MODERATE RISK)")%string
  else (summary ++ " (LOW RISK)")%string.

(** The local variables the loop of [_process_session] updates. *)
Record Progress := {
  p_events : list EventResult;
  p_total_risk : Q;
  p_threats : list ThreatIndicator
}.

Definition threat_classes : list string := ["person"; "vehicle"; "weapon"; "package"].

Definition record_event (event_id : string) (event_result : EventResult)
    (p : Progress) : Progress :=
  {| p_events := p_events p ++ [event_result];
     p_total_risk := (p_total_risk p + default 0 (r_risk_score event_result))%Q;
     p_threats :=
       p_threats p ++
       map (fun d => {| t_type := d_class d; t_confidence := d_confidence d;
                        t_event_id := event_id |})
           (List.filter (fun d => Py.mem (d_class d) threat_classes)
                   (default [] (r_detections event_result))) |}.

Definition record_failure (event_id : string) (e : string) (p : Progress) : Progress :=
  {| p_events := p_events p ++
                 [{| r_event_id := event_id; r_success := false;
                     r_detections := None; r_confidence := None;
                     r_risk_score := None; r_error := Some e |}];
     p_total_risk := p_total_risk p;
     p_threats := p_threats p |}.

(** The [for event_id in events_to_process] loop; returning early is its
    [break]. *)
Fixpoint process_events (session : ProcessingSession)
    (start_time deadline_seconds : Q) (events_to_process : list string)
    (p : Progress) : M Progress :=
  match events_to_process with
  | [] => ret p
  | event_id :: rest =>
      now <- read_clock ;;
      let elapsed_ms := ((now - start_time) * 1000)%Q in
      if Qltb (deadline_seconds * 1000 * (8 # 10)) elapsed_ms then ret p
      else
        p' <- try_except
                (event_result <- _process_session_event event_id session ;;
                 ret (record_event event_id event_result p))
                (fun e => ret (record_failure event_id e p)) ;;
        process_events session start_time deadline_seconds rest p'
  end.

(** The [try] block of [_process_session]. *)
Definition process_session_body (session : ProcessingSession) (start_time : Q)
    : M SessionResult :=
  deadline_seconds <- lift (div_1000 (Queue.deadline_ms session)) ;;
  events_to_process <- lift (slice_to_value (Queue.K session) (Queue.event_ids session)) ;;
  p <- process_events session start_time deadline_seconds events_to_process
         {| p_events := []; p_total_risk := 0; p_threats := [] |} ;;
  let processed_count := length (p_events p) in
  mean_risk <- lift (truediv (p_total_risk p)
                             (inject_Z (Z.max 1 (Z.of_nat processed_count)))) ;;
  let findings0 :=
    {| f_session_id := Queue.session_id session;
       events_processed := p_events p;
       summary := "";
       risk_score := mean_risk;
       threat_indicators := p_threats p;
       processing_stats :=
         {| total_events := length events_to_process;
            stats_deadline_ms := Queue.deadline_ms session;
            stats_tier := Queue.tier session |} |} in
  let findings1 :=
    {| f_session_id := f_session_id findings0;
       events_processed := events_processed findings0;
       summary := _generate_session_summary findings0 session;
       risk_score := risk_score findings0;
       threat_indicators := threat_indicators findings0;
       processing_stats := processing_stats findings0 |} in
  end_time <- read_clock ;;
  let processing_duration := Py.int ((end_time - start_time) * 1000) in
  timestamp <- read_clock ;;
  let result :=
    {| res_session_id := Queue.session_id session;
       success := true;
       processing_duration_ms := processing_duration;
       res_timestamp := timestamp;
       findings := Some findings1;
       error_message := None |} in
  _handle_session_success session result ;;;
  count_session ;;;
  ret result.

(** The [except Exception as e] block of [_process_session]. *)
Definition process_session_handler (session : ProcessingSession) (start_time : Q)
    (e : string) : M SessionResult :=
  end_time <- read_clock ;;
  let processing_duration := Py.int ((end_time - start_time) * 1000) in
  timestamp <- read_clock ;;
  let result :=
    {| res_session_id := Queue.session_id session;
       success := false;
       processing_duration_ms := processing_duration;
       res_timestamp := timestamp;
       findings := None;
       error_message := Some e |} in
  _handle_session_failure session result ;;;
  ret result.

Definition _process_session (session : ProcessingSession) : M SessionResult :=
  start_time <- read_clock ;;
  try_except (process_session_body session start_time)
             (process_session_handler session start_time).

(** The number of events the loop starts when [m] are left and its next
    read of the clock is the read number [next]: it stops at the first
    check that finds the elapsed time over the threshold. *)
Fixpoint started (start_time threshold_ms : Q) (next m : nat) : nat :=
  match m with
  | 0 => 0
  | S m' =>
      if Qltb threshold_ms ((ticks next - start_time) * 1000) then 0
      else S (started start_time threshold_ms (S next) m')
  end.

End Worker.

(** The fields of a completion record other than its time stamp. *)
Definition completion_key (c : Completion) : string * string * bool :=
  (c_event_id c, c_worker_id c, c_success c).

End DeepWorker.

(** * Well-formed sorted sets *)

Module Invariants.
Import CandidateStore.

(** [a] stands strictly before [b]: at or below it in (score, member)
    order, and a different member. *)
Definition entry_ltb (a b : zentry) : bool :=
  entry_leb a b && negb (String.eqb (fst a) (fst b)).

(** Ascending order, no member twice. *)
Fixpoint zset_okb (z : zset) : bool :=
  match z with
  | [] => true
  | a :: t => forallb (entry_ltb a) t && zset_okb t
  end.

Definition zset_ok (z : zset) : Prop := zset_okb z = true.

Definition members (z : zset) : list string := map fst z.

(** Every index of the store is a well-formed sorted set. *)
Definition store_ok (r : Redis) : Prop := forall home, zset_ok (index home r).

End Invariants.

(** * Concrete inputs used below *)

Module Scenarios.
Import CandidateStore.

(** Two interpreter processes: the salted hash of the same image name
    falls on 0 in one and on 21 in the other. *)
Definition hash_in_process_a : string -> Z := fun _ => 0%Z.
Definition hash_in_process_b : string -> Z := fun _ => 21%Z.

Definition vehicle_with_pet : gmap string bool :=
  list_to_map [("person", false); ("vehicle", true); ("pet", true); ("linger", false)].

Definition candidate (id home : string) (p : Priority) (loc md : string)
    (explainer : option string) : EventCandidate :=
  {| event_id := id; home_id := home; user_id := "user_456"; timestamp := 0;
     priority := p; processing_tier := STANDARD;
     image_url := "https://example.com/test.jpg"; location := loc; mode := md;
     lite_processed := bool_decide (is_Some explainer); lite_channels := None;
     lite_explainer := explainer; lite_confidence := None;
     person_detected := false; vehicle_detected := false; motion_score := 1 # 2;
     time_of_day_factor := 1; location_importance := 1 |}.

(** An explainer in capitals, nothing else pointing at life safety. *)
Definition smoke_in_capitals : EventCandidate :=
  candidate "ev_smoke" "home_abc" NORMAL "garage" "guardian" (Some "SMOKE detected").

Definition emergency_event : EventCandidate :=
  candidate "ev_911" "home_abc" NORMAL "garage" "emergency" None.

(** Two events of one home with the same priority score. *)
Definition tied_a : EventCandidate :=
  candidate "evt_a" "home_abc" NORMAL "garage" "guardian" None.

(** One event reported for two homes. *)
Definition first_report : EventCandidate :=
  candidate "evt_x" "home_abc" NORMAL "garage" "guardian" None.
Definition second_report : EventCandidate :=
  candidate "evt_x" "home_full" HIGH "garage" "guardian" None.
Definition one_event : Redis := snd (add_candidate init first_report 0 0 empty_redis).

(** A home at the cap: 2000 events [evt_0] ... [evt_1999] in ascending
    score, each with its record, beside the event of [home_abc]. *)
Definition crowd : list EventCandidate :=
  map (fun k =>
         {| event_id := "evt_" ++ pretty k; home_id := "home_full"; user_id := "user_456";
            timestamp := 0; priority := NORMAL; processing_tier := STANDARD;
            image_url := "https://example.com/test.jpg"; location := "garage";
            mode := "guardian"; lite_processed := false; lite_channels := None;
            lite_explainer := None; lite_confidence := None;
            person_detected := false; vehicle_detected := false;
            motion_score := inject_Z (Z.of_nat k) / 2000;
            time_of_day_factor := 1; location_importance := 1 |})
      (seq 0 2000).

Definition crowded : Redis :=
  {| ev := list_to_map (map (fun c => (event_id c, c)) crowd) ∪ ev one_event;
     cand := <["home_full" := map (fun c => (event_id c, calculate_score c 0)) crowd]>
               (cand one_event);
     expire_sets := expire_sets one_event;
     ttl := ttl one_event |}.

(** A session of one event with a deadline of 1000 ms, and a worker whose
    clock stands at 0.9 s (or at 0.8 s) from its second read on. *)
Definition one_event_session (k deadline : Py.value) : Queue.Session :=
  {| Queue.session_id := "session_1"; Queue.home_id := "home_abc";
     Queue.event_ids := ["evt_1"]; Queue.tier := "premium";
     Queue.K := k; Queue.deadline_ms := deadline;
     Queue.priority := "HIGH"; Queue.enqueued_at := 0;
     Queue.bypass_reason := None |}.

Definition late_clock (n : nat) : Q := if Nat.eqb n 0 then 0 else 9 # 10.
Definition boundary_clock (n : nat) : Q := if Nat.eqb n 0 then 0 else 8 # 10.

Definition person_seen (n : nat) (id : string) (s : Queue.Session)
    : Py.outcome DeepWorker.EventResult :=
  Py.Ok {| DeepWorker.r_event_id := id; DeepWorker.r_success := true;
           DeepWorker.r_detections :=
             Some [{| DeepWorker.d_class := "person";
                      DeepWorker.d_confidence := 8 # 10 |}];
           DeepWorker.r_confidence := Some (75 # 100);
           DeepWorker.r_risk_score := Some (1 # 2);
           DeepWorker.r_error := None |}.

Definition fresh_world : DeepWorker.World :=
  {| DeepWorker.session_results := ∅; DeepWorker.scheduler_completions := [];
     DeepWorker.digest_queue := []; DeepWorker.total_sessions_processed := 0;
     DeepWorker.reads := 0 |}.

End Scenarios.

(** * The candidate store, continued: listing and the API helpers *)

Module CandidateApi.
Import CandidateStore.

(** [get_pending_candidates]; [homes] are the home ids the loop takes from
    the answer of [KEYS cand:*], and [clock i] the value of
    [datetime.utcnow()] when the sort computes the key of its i-th
    element. *)
Definition get_pending_candidates (limit : Z) (homes : list string)
    (clock : nat -> Q) (r : Redis) : list EventCandidate :=
  let all_candidates :=
    flat_map (fun home =>
                List.filter (fun c => negb (lite_processed c))
                       (get_top_candidates home limit r)) homes in
  let keyed := imap (fun i c => (c, calculate_score c (clock i))) all_candidates in
  Py.slice_to limit (map fst (sort_desc keyed)).

(** [calculate_time_factor]; [hour] is [timestamp.hour]. *)
Definition calculate_time_factor (hour : Z) : Q :=
  if (8 <=? hour)%Z && (hour <=? 18)%Z then 12 # 10
  else if (22 <=? hour)%Z || (hour <=? 6)%Z then 15 # 10
  else 1.

Definition importance_map : gmap string Q :=
  list_to_map [("front_door", 15 # 10); ("back_door", 14 # 10);
               ("driveway", 13 # 10); ("garage", 12 # 10);
               ("backyard", 11 # 10); ("living_room", 1);
               ("bedroom", 8 # 10); ("unknown", 1)]%Q.

(** [get_location_importance] *)
Definition get_location_importance (location : string) : Q :=
  Py.get importance_map (Py.lower location) 1%Q.

(** The value under [timestamp] in the event data: text, or a
    [datetime] object (its seconds since the epoch and its hour). *)
Inductive TimestampValue :=
| Text (s : string)
| DateTime (epoch : Q) (hour : Z).

(** The keys of [event_data] the function reads; [None] is a missing
    key. *)
Record EventData := {
  ed_event_id : option string;
  ed_user_id : option string;
  ed_home_id : option string;
  ed_timestamp : option TimestampValue;
  ed_image_url : option string;
  ed_location : option string;
  ed_mode : option string;
  ed_priority : option Z;
  ed_motion_score : option Q
}.

(** The keys of [lite_results] the callers read. *)
Record LiteResults := {
  lr_channels : option (gmap string bool);
  lr_explainer : option string;
  lr_confidence : option Q
}.

(** [d[key]]: a missing key raises [KeyError], whose text is the key in
    quotes. *)
Definition getitem {A} (key : string) (v : option A) : Py.outcome A :=
  match v with
  | Some a => Py.Ok a
  | None => Py.Raise ("'" ++ key ++ "'")
  end.

Definition and_then {A B} (o : Py.outcome A) (k : A -> Py.outcome B) : Py.outcome B :=
  match o with
  | Py.Ok a => k a
  | Py.Raise e => Py.Raise e
  end.

Notation "x <~ o ;; k" := (and_then o (fun x => k))
  (at level 100, o at next level, right associativity).

Section Api.

(** [hashlib.md5(s.encode()).hexdigest()] *)
Variable md5_hexdigest : string -> string.

(** [datetime.fromisoformat], giving the seconds since the epoch. *)
Variable fromisoformat : string -> Py.outcome Q.

(** [create_event_candidate_from_api].  The default of
    [event_data.get('home_id', ...)] is evaluated before the lookup, and
    the keyword arguments of [EventCandidate(...)] in the order they are
    written. *)
Definition create_event_candidate_from_api (event_data : EventData)
    (lite_results : option LiteResults) : Py.outcome EventCandidate :=
  user <~ getitem "user_id" (ed_user_id event_data) ;;
  let home_id :=
    default ("home_" ++ String.substring 0 8 (md5_hexdigest user))%string
            (ed_home_id event_data) in
  let lite_processed := bool_decide (is_Some lite_results) in
  let lite_channels : gmap string bool :=
    match lite_results with
    | Some l => default ∅ (lr_channels l)
    | None => ∅
    end in
  let priority := NORMAL in
  let priority := if Py.get lite_channels "person" false then HIGH else priority in
  let priority :=
    if (3 <=? default 1 (ed_priority event_data))%Z then CRITICAL else priority in
  let processing_tier := STANDARD in
  event_id <~ getitem "event_id" (ed_event_id event_data) ;;
  user_id <~ getitem "user_id" (ed_user_id event_data) ;;
  ts <~ getitem "timestamp" (ed_timestamp event_data) ;;
  timestamp <~ match ts with
               | Text s => fromisoformat s
               | DateTime epoch _ => Py.Ok epoch
               end ;;
  image_url <~ getitem "image_url" (ed_image_url event_data) ;;
  ts <~ getitem "timestamp" (ed_timestamp event_data) ;;
  time_of_day_factor <~ match ts with
                        | Text _ => Py.Raise "'str' object has no attribute 'hour'"
                        | DateTime _ hour => Py.Ok (calculate_time_factor hour)
                        end ;;
  Py.Ok
    {| event_id := event_id;
       home_id := home_id;
       user_id := user_id;
       timestamp := timestamp;
       priority := priority;
       processing_tier := processing_tier;
       image_url := image_url;
       location := default "unknown" (ed_location event_data);
       mode := default "security" (ed_mode event_data);
       lite_processed := lite_processed;
       lite_channels := Some lite_channels;
       lite_explainer := lite_results ≫= lr_explainer;
       lite_confidence := lite_results ≫= lr_confidence;
       person_detected := Py.get lite_channels "person" false;
       vehicle_detected := Py.get lite_channels "vehicle" false;
       motion_score := default (1 # 2) (ed_motion_score event_data);
       time_of_day_factor := time_of_day_factor;
       location_importance :=
         get_location_importance (default "unknown" (ed_location event_data)) |}.

End Api.

End CandidateApi.

(** * The hooks of the mobile API ([integrate_with_mobile_api]) *)

Module Integration.
Import CandidateStore CandidateApi.

Section Hooks.
Variable candidate_store : CandidateStore.
Variable md5_hexdigest : string -> string.
Variable fromisoformat : string -> Py.outcome Q.

(** [on_new_event]; [now] and [unix_now] are the clock values
    [add_candidate] reads. *)
Definition on_new_event (event_data : EventData) (now : Q) (unix_now : Z)
    (r : Redis) : Py.outcome Redis :=
  candidate <~ create_event_candidate_from_api md5_hexdigest fromisoformat
                 event_data None ;;
  Py.Ok (snd (add_candidate candidate_store candidate now unix_now r)).

(** [on_lite_results] *)
Definition on_lite_results (id : string) (lite_results : LiteResults)
    (now : Q) (unix_now : Z) (r : Redis) : Redis :=
  match get_candidate id r with
  | None => r
  | Some candidate =>
      let channels : gmap string bool := default ∅ (lr_channels lite_results) in
      let candidate :=
        {| event_id := event_id candidate;
           home_id := home_id candidate;
           user_id := user_id candidate;
           timestamp := timestamp candidate;
           priority := priority candidate;
           processing_tier := processing_tier candidate;
           image_url := image_url candidate;
           location := location candidate;
           mode := mode candidate;
           lite_processed := true;
           lite_channels := Some channels;
           lite_explainer := lr_explainer lite_results;
           lite_confidence := lr_confidence lite_results;
           person_detected := Py.get channels "person" false;
           vehicle_detected := Py.get channels "vehicle" false;
           motion_score := motion_score candidate;
           time_of_day_factor := time_of_day_factor candidate;
           location_importance := location_importance candidate |} in
      snd (add_candidate candidate_store candidate now unix_now r)
  end.

End Hooks.

End Integration.

(** * The scheduler, continued: the scheduling round *)

Module Rounds.
Import CandidateStore Scheduler.

(** [SchedulingPolicy]'s defaults *)
Definition max_batch_size : nat := 10.
Definition top_k_limit : Z := 50.
Definition processing_timeout : Z := 300.

Record JobLiteResults := {
  jl_channels : option (gmap string bool);
  jl_explainer : option string;
  jl_confidence : option Q
}.

(** The job message [_enqueue_for_processing] writes (the legacy
    schema). *)
Record Job := {
  j_event_id : string;
  j_home_id : string;
  j_user_id : string;
  j_image_url : string;
  j_location : string;
  j_mode : string;
  j_processing_tier : Z;
  j_priority : Z;
  j_enqueued_at : Q;
  j_lite_results : option JobLiteResults
}.

(** The scheduler with the Redis keys the round uses besides the
    store's: the lists of job messages and the [processing:{event_id}]
    markers (value and seconds to live). *)
Record State := {
  scheduler : ProcessingScheduler;
  job_queues : gmap string (list Job);
  processing : gmap string (string * Z)
}.

Definition with_scheduler (p : ProcessingScheduler) (s : State) : State :=
  {| scheduler := p; job_queues := job_queues s; processing := processing s |}.

(** A candidate object as Python holds it.  The dataclass does not
    convert its fields: an object built with [Priority] and
    [ProcessingTier] members keeps them, and an object [get_candidate]
    rebuilds holds the [int] values it parsed. *)
Inductive CandidateObject :=
| Constructed (c : EventCandidate)
| Parsed (c : EventCandidate).

Definition fields (o : CandidateObject) : EventCandidate :=
  match o with Constructed c => c | Parsed c => c end.

(** [candidate.priority.value]: an [int] has no such attribute. *)
Definition priority_dot_value (o : CandidateObject) : Py.outcome Z :=
  match o with
  | Constructed c => Py.Ok (priority_value (priority c))
  | Parsed _ => Py.Raise "'int' object has no attribute 'value'"
  end.

(** [tier.name] *)
Definition tier_name (t : ProcessingTier) : string :=
  match t with
  | LITE_ONLY => "LITE_ONLY" | STANDARD => "STANDARD"
  | PREMIUM => "PREMIUM" | ENTERPRISE => "ENTERPRISE"
  end.

Definition queue_name (t : ProcessingTier) : string :=
  ("deep_processing_" ++ Py.lower (tier_name t))%string.

(** [LLEN]: a list holds the session messages and the job messages
    pushed under its name. *)
Definition LLEN (queue : string) (s : State) : Z :=
  Z.of_nat (length (default [] (queues (scheduler s) !! queue))
            + length (default [] (job_queues s !! queue))).

(** [_enqueue_for_processing]; [utcnow] is the value of
    [datetime.utcnow()] written to [enqueued_at].  The message is built
    before any command is sent, so an exception while building it leaves
    Redis as it was. *)
Definition _enqueue_for_processing (candidate : CandidateObject)
    (tier : ProcessingTier) (utcnow : Q) (s : State) : bool * State :=
  let c := fields candidate in
  match priority_dot_value candidate with
  | Py.Raise _ => (false, s)
  | Py.Ok p =>
      let job_data :=
        {| j_event_id := event_id c;
           j_home_id := home_id c;
           j_user_id := user_id c;
           j_image_url := image_url c;
           j_location := location c;
           j_mode := mode c;
           j_processing_tier := tier_value tier;
           j_priority := p;
           j_enqueued_at := utcnow;
           j_lite_results :=
             if lite_processed c
             then Some {| jl_channels := lite_channels c;
                          jl_explainer := lite_explainer c;
                          jl_confidence := lite_confidence c |}
             else None |} in
      (true,
       {| scheduler := scheduler s;
          job_queues :=
            <[queue_name tier := job_data :: default [] (job_queues s !! queue_name tier)]>
              (job_queues s);
          processing :=
            <[event_id c := ("scheduled", processing_timeout)]> (processing s) |})
  end.

Definition set_bucket (tier : ProcessingTier) (b : TokenBucket) (s : State) : State :=
  with_scheduler
    (with_buckets (<[tier := b]> (token_buckets (scheduler s))) (scheduler s)) s.

(** The scheduler after [self.processing_jobs.add(id)] and
    [candidate_store.remove_candidate(id, home)]. *)
Definition mark_scheduled (id home : string) (s : State) : State :=
  let p := scheduler s in
  with_scheduler
    {| candidate_store := candidate_store p; tier_limits := tier_limits p;
       num_gpus := num_gpus p;
       autothrottle_threshold := autothrottle_threshold p;
       throttle_reduction := throttle_reduction p;
       min_best_effort_k := min_best_effort_k p;
       token_buckets := token_buckets p;
       processing_jobs := {[id]} ∪ processing_jobs p;
       queues := queues p;
       redis := snd (remove_candidate id home (redis p)) |} s.

(** The local variables of the loop of [_schedule_tier]; [l_bucket] is
    the bucket object, which the dictionary of buckets shares. *)
Record Loop := {
  l_state : State;
  l_bucket : TokenBucket;
  l_scheduled : nat;
  l_rate_limited : nat;
  l_reads : nat
}.

(** The [for candidate in candidates] loop; [time_time i] is the value
    of [time.time()] at the i-th call of [consume] and [utcnow i] the
    value of [datetime.utcnow()] at the enqueue that follows it. *)
Fixpoint schedule_candidates (tier : ProcessingTier) (time_time utcnow : nat -> Q)
    (candidates : list EventCandidate) (l : Loop) : Loop :=
  match candidates with
  | [] => l
  | candidate :: rest =>
      if bool_decide (event_id candidate ∈ processing_jobs (scheduler (l_state l)))
      then schedule_candidates tier time_time utcnow rest l
      else
        let '(ok, bucket) := consume 1 (time_time (l_reads l)) (l_bucket l) in
        let s := set_bucket tier bucket (l_state l) in
        if negb ok then
          schedule_candidates tier time_time utcnow rest
            {| l_state := s; l_bucket := bucket; l_scheduled := l_scheduled l;
               l_rate_limited := S (l_rate_limited l); l_reads := S (l_reads l) |}
        else
          let '(success, s) :=
            _enqueue_for_processing (Parsed candidate) tier (utcnow (l_reads l)) s in
          let l' :=
            if success then
              {| l_state := mark_scheduled (event_id candidate) (home_id candidate) s;
                 l_bucket := bucket; l_scheduled := S (l_scheduled l);
                 l_rate_limited := l_rate_limited l; l_reads := S (l_reads l) |}
            else
              {| l_state := s; l_bucket := bucket; l_scheduled := l_scheduled l;
                 l_rate_limited := l_rate_limited l; l_reads := S (l_reads l) |} in
          if Nat.leb max_batch_size (l_scheduled l') then l'
          else schedule_candidates tier time_time utcnow rest l'
  end.

(** The entry of [stats["tier_breakdown"]] for a tier, with the wait the
    round reports when it was rate limited. *)
Record TierStats := {
  candidates_found : nat;
  scheduled : nat;
  rate_limited : nat;
  next_available_seconds : option Q
}.

Definition no_stats : TierStats :=
  {| candidates_found := 0; scheduled := 0; rate_limited := 0;
     next_available_seconds := None |}.

(** [_schedule_tier]; [homes] and [sort_clock] are what
    [get_candidates_by_tier] takes from the server and from the clock. *)
Definition _schedule_tier (tier : ProcessingTier) (homes : list string)
    (sort_clock time_time utcnow : nat -> Q) (s : State) : TierStats * State :=
  match token_buckets (scheduler s) !! tier with
  | None => (no_stats, s)
  | Some bucket =>
      let candidates :=
        get_candidates_by_tier tier top_k_limit homes sort_clock
                               (redis (scheduler s)) in
      match candidates with
      | [] => (no_stats, s)
      | _ =>
          let l :=
            schedule_candidates tier time_time utcnow candidates
              {| l_state := s; l_bucket := bucket; l_scheduled := 0;
                 l_rate_limited := 0; l_reads := 0 |} in
          ({| candidates_found := length candidates;
              scheduled := l_scheduled l;
              rate_limited := l_rate_limited l;
              next_available_seconds :=
                if Nat.ltb 0 (l_rate_limited l)
                then Some (time_until_tokens 1 (l_bucket l)) else None |},
           l_state l)
      end
  end.

(** The members of [ProcessingTier] in the order the loops visit them,
    [LITE_ONLY] skipped. *)
Definition deep_tiers : list ProcessingTier :=
  List.filter (fun tier => negb (bool_decide (tier = LITE_ONLY)))
         [LITE_ONLY; STANDARD; PREMIUM; ENTERPRISE].

(** [_get_deep_processing_backlog] *)
Definition _get_deep_processing_backlog (s : State) : Z :=
  let total_backlog :=
    fold_left (fun total tier => (total + LLEN (queue_name tier) s)%Z) deep_tiers 0%Z in
  (total_backlog + Z.of_nat (size (processing_jobs (scheduler s))))%Z.

Record RoundStats := {
  scheduled_events : nat;
  tier_breakdown : list (string * TierStats);
  processing_load : nat;
  autothrottled : bool;
  backlog_size : Z
}.

Section Round.

(** What the server and the clocks answer during the pass over a tier. *)
Variable homes : ProcessingTier -> list string.
Variable sort_clock time_time utcnow : ProcessingTier -> nat -> Q.

(** [schedule_round] *)
Definition schedule_round (s : State) : RoundStats * State :=
  let processing_load := size (processing_jobs (scheduler s)) in
  let deep_backlog := _get_deep_processing_backlog s in
  let throttle := (autothrottle_threshold (scheduler s) <? deep_backlog)%Z in
  let s := if throttle then with_scheduler (_apply_autothrottle (scheduler s)) s else s in
  let '(breakdown, total, s) :=
    fold_left
      (fun '(breakdown, total, s) tier =>
         let '(stats, s) :=
           _schedule_tier tier (homes tier) (sort_clock tier) (time_time tier)
                          (utcnow tier) s in
         (breakdown ++ [(tier_name tier, stats)], (total + scheduled stats)%nat, s))
      deep_tiers ([], 0%nat, s) in
  ({| scheduled_events := total;
      tier_breakdown := breakdown;
      processing_load := processing_load;
      autothrottled := throttle;
      backlog_size := deep_backlog |}, s).

End Round.

(** [force_schedule_event] *)
Definition force_schedule_event (id : string) (tier : ProcessingTier) (utcnow : Q)
    (s : State) : bool * State :=
  match get_candidate id (redis (scheduler s)) with
  | None => (false, s)
  | Some candidate =>
      let '(success, s) := _enqueue_for_processing (Parsed candidate) tier utcnow s in
      if success then (true, mark_scheduled id (home_id candidate) s)
      else (false, s)
  end.

(** [handle_processing_completion] *)
Definition handle_processing_completion (id : string) (s : State) : State :=
  let p := scheduler s in
  {| scheduler :=
       {| candidate_store := candidate_store p; tier_limits := tier_limits p;
          num_gpus := num_gpus p;
          autothrottle_threshold := autothrottle_threshold p;
          throttle_reduction := throttle_reduction p;
          min_best_effort_k := min_best_effort_k p;
          token_buckets := token_buckets p;
          processing_jobs := processing_jobs p ∖ {[id]};
          queues := queues p;
          redis := redis p |};
     job_queues := job_queues s;
     processing := delete id (processing s) |}.

(** [s'] is [s] but for the token buckets: the lists, the markers, the
    set of events in flight, the store and the settings are the same. *)
Definition same_but_buckets (s s' : State) : Prop :=
  job_queues s' = job_queues s /\
  processing s' = processing s /\
  with_buckets (token_buckets (scheduler s)) (scheduler s') = scheduler s.

(** Every tier has a bucket in [s'] exactly if it has one in [s], and
    the two are related by [R]. *)
Definition buckets_related (R : TokenBucket -> TokenBucket -> Prop) (s s' : State)
    : Prop :=
  forall tier,
    match token_buckets (scheduler s) !! tier,
          token_buckets (scheduler s') !! tier with
    | Some b, Some b' => R b b'
    | None, None => True
    | _, _ => False
    end.

(** Same capacity and same refill rate. *)
Definition same_limits (b b' : TokenBucket) : Prop :=
  capacity b' = capacity b /\ refill_rate b' = refill_rate b.

(** A capacity that has not grown, and the same refill rate. *)
Definition not_raised (b b' : TokenBucket) : Prop :=
  (capacity b' <= capacity b)%Z /\ refill_rate b' = refill_rate b.

End Rounds.

(** * The session worker, continued: one event of a session *)

Module WorkerEvents.
Import DeepWorker.

(** The result of the detector, as the worker reads it. *)
Record DetectionResults := {
  dr_detections : option (list Detection);   (* [.get("detections", [])] *)
  dr_confidence : option Q                   (* [.get("confidence", 0.0)] *)
}.

(** The keys of the event data the worker reads. *)
Record EventJson := {
  e_image_url : option string;
  e_location : option string
}.

(** What [GET event:{event_id}] and [json.loads] give: no value, a value
    the worker cannot use (the text of the exception), or an object. *)
Inductive StoredEvent :=
| Absent
| Unusable (e : string)
| Object (o : EventJson).

(** [_calculate_event_risk_score] *)
Definition _calculate_event_risk_score (detection_results : DetectionResults)
    (location : string) : Q :=
  let base_score :=
    fold_left
      (fun base_score detection =>
         let obj_class := d_class detection in
         let confidence := d_confidence detection in
         if String.eqb obj_class "person" then (base_score + (4 # 10) * confidence)%Q
         else if Py.mem obj_class ["car"; "truck"; "motorcycle"]
         then (base_score + (2 # 10) * confidence)%Q
         else if Py.mem obj_class ["weapon"; "knife"; "gun"]
         then (base_score + (8 # 10) * confidence)%Q
         else base_score)
      (default [] (dr_detections detection_results)) (1 # 10)%Q in
  let base_score :=
    if Py.mem location ["front_door"; "back_door"] then (base_score + (1 # 10))%Q
    else base_score in
  Py.min 1 base_score.

Section Events.

(** Python's [hash] on [str] *)
Variable hash : string -> Z.

(** [_process_session_event_stub]; [location] is
    [event_data.get("location", "unknown")]. *)
Definition _process_session_event_stub (event_id location : string) : EventResult :=
  let detections :=
    if Py.mem location ["front_door"; "back_door"] then
      [{| d_class := "person";
          d_confidence := ((7 # 10) + inject_Z (hash event_id mod 100) / 500)%Q |}]
    else if Py.mem location ["driveway"; "garage"] then
      [{| d_class := "vehicle";
          d_confidence := ((6 # 10) + inject_Z (hash event_id mod 100) / 400)%Q |}]
    else [] in
  let risk_score :=
    (inject_Z (Z.of_nat (length detections)) * (3 # 10)
     + inject_Z (hash event_id mod 100) / 200)%Q in
  {| r_event_id := event_id; r_success := true;
     r_detections := Some detections; r_confidence := Some (75 # 100)%Q;
     r_risk_score := Some (Py.min 1 risk_score); r_error := None |}.

(** The collaborators of [_process_session_event]. *)
Variable models_initialized : bool.
Variable stored_event : string -> StoredEvent.
Variable _download_image : string -> string -> option string.
Variable run_detection : string -> Py.outcome DetectionResults.

(** A string is true unless it is empty. *)
Definition truthy (s : option string) : bool :=
  match s with
  | Some s => negb (String.eqb s "")
  | None => false
  end.

(** [_process_session_event] *)
Definition _process_session_event (event_id : string) (session : ProcessingSession)
    : EventResult :=
  let failure e :=
    {| r_event_id := event_id; r_success := false; r_detections := None;
       r_confidence := None; r_risk_score := Some 0%Q; r_error := Some e |} in
  let with_data (event_data : EventJson) :=
    let stub :=
      _process_session_event_stub event_id
        (default "unknown" (e_location event_data)) in
    if models_initialized && truthy (e_image_url event_data) then
      let image_path :=
        _download_image (default "" (e_image_url event_data)) event_id in
      if truthy image_path then
        match run_detection (default "" image_path) with
        | Py.Ok detection_results =>
            {| r_event_id := event_id; r_success := true;
               r_detections := Some (default [] (dr_detections detection_results));
               r_confidence := Some (default 0%Q (dr_confidence detection_results));
               r_risk_score :=
                 Some (_calculate_event_risk_score detection_results
                         (default "" (e_location event_data)));
               r_error := None |}
        | Py.Raise _ => stub
        end
      else stub
    else stub in
  match stored_event event_id with
  | Absent =>
      with_data
        {| e_image_url :=
             Some ("https://api.insane.ai/events/" ++ event_id ++ "/image")%string;
           e_location := Some "unknown" |}
  | Unusable e => failure e
  | Object event_data => with_data event_data
  end.

End Events.

(** [_process_session_event] as the event processor of a session.  The
    collaborators may answer differently from one call to the next: they
    take the number of clock reads made so far. *)
Definition processor (hash : string -> Z) (models_initialized : bool)
    (stored_event : nat -> string -> StoredEvent)
    (_download_image : nat -> string -> string -> option string)
    (run_detection : nat -> string -> Py.outcome DetectionResults)
    (n : nat) (event_id : string) (session : ProcessingSession)
    : Py.outcome EventResult :=
  Py.Ok (_process_session_event hash models_initialized (stored_event n)
           (_download_image n) (run_detection n) event_id session).

End WorkerEvents.

(** * What a session accumulates *)

Module SessionTrace.
Import DeepWorker.

(** The risk an entry of [events_processed] brings to the total: its
    [risk_score], and nothing when it has none. *)
Definition risk_of (e : EventResult) : Q := default 0%Q (r_risk_score e).

Definition sum_risk (l : list EventResult) : Q :=
  fold_right (fun e total => (risk_of e + total)%Q) 0%Q l.

(** The threat indicators [record_event] appends for one event. *)
Definition threats_of (event_id : string) (e : EventResult) : list ThreatIndicator :=
  map (fun d => {| t_type := d_class d; t_confidence := d_confidence d;
                   t_event_id := event_id |})
      (List.filter (fun d => Py.mem (d_class d) threat_classes)
              (default [] (r_detections e))).

(** The entry [record_failure] appends. *)
Definition failure_entry (event_id e : string) : EventResult :=
  {| r_event_id := event_id; r_success := false; r_detections := None;
     r_confidence := None; r_risk_score := None; r_error := Some e |}.

(** An entry of the trace of a session: the event the loop was at, and
    what it appended for it, the answer of the event processor or the
    entry of the exception it raised. *)
Definition produced
    (session_event : nat -> string -> ProcessingSession -> Py.outcome EventResult)
    (session : ProcessingSession) (x : string * EventResult) : Prop :=
  (exists n, session_event n (fst x) session = Py.Ok (snd x)) \/
  (exists n e, session_event n (fst x) session = Py.Raise e /\
               snd x = failure_entry (fst x) e).

End SessionTrace.

(** * The lite scorer, continued: the stub classifier *)

Module LiteStub.
Import LiteScorer.

Record Classification := {
  c_channels : list (string * bool);
  c_confidence : Q;
  c_explainer : string;
  c_score : Q;
  c_threshold_met : string;
  c_mode : string
}.

Section WithHash.
Variable hash : string -> Z.

(** [_classify_stub]; [file_name] is [Path(image_path).name].  The
    channels are kept in the order the dictionary lists them. *)
Definition _classify_stub (file_name : string) : Classification :=
  let image_name := Py.lower file_name in
  let channels :=
    [("person", Py.contains "person" image_name || Py.contains "human" image_name);
     ("vehicle", existsb (fun v => Py.contains v image_name)
                         ["car"; "truck"; "vehicle"; "bike"]);
     ("pet", existsb (fun p => Py.contains p image_name)
                     ["dog"; "cat"; "pet"; "animal"]);
     ("linger", Py.contains "linger" image_name || (hash image_name mod 10 <? 2)%Z)] in
  let score_result :=
    _calculate_exact_score hash (list_to_map channels) image_name "guardian" in
  let detected :=
    map fst (List.filter (fun kv : string * bool =>
                            snd kv && negb (String.eqb (fst kv) "linger")) channels) in
  let explainer : string :=
    match detected with
    | [] => "No objects detected"
    | _ => ("Detected: " ++ String.concat ", " detected)%string
    end in
  let explainer : string :=
    if Py.get (list_to_map channels) "linger" false
    then (explainer ++ " (lingering)")%string else explainer in
  {| c_channels := channels;
     c_confidence := confidence score_result;
     c_explainer := explainer;
     c_score := score score_result;
     c_threshold_met := threshold_met score_result;
     c_mode := mode score_result |}.

End WithHash.

End LiteStub.

(** * Every record under its own key *)

Module Keyed.
Import CandidateStore.

(** The record stored under [ev:{id}] names [id] as its event. *)
Definition records_keyed (r : Redis) : Prop :=
  forall id c, ev r !! id = Some c -> event_id c = id.

(** No text field of the candidate is the text [None], which
    [get_candidate] takes for an absent value when it reads a hash. *)
Definition no_None_text (c : EventCandidate) : Prop :=
  Forall (fun s : string => s <> "None")
         [event_id c; home_id c; user_id c; image_url c; location c; mode c].

End Keyed.

(** * The token bucket on IEEE binary64 numbers

    [TokenBucket] with [tokens], [refill_rate] and [last_refill] as the
    binary64 numbers Python holds and every operation the rounded one, to
    compare with the rational model of module [Scheduler]. *)

Module BucketBinary64.
Import Binary64.

#[local] Set Warnings "-inexact-float".

Record TokenBucket := {
  capacity : Z;
  tokens : float;
  refill_rate : float;
  last_refill : float
}.

(** [TokenBucket.consume]; [now] is the value of [time.time()]. *)
Definition consume (tokens_needed : Z) (now : float) (b : TokenBucket)
    : bool * TokenBucket :=
  let time_passed := (now - last_refill b)%float in
  let tokens' :=
    min (of_int (capacity b)) (tokens b + time_passed * refill_rate b)%float in
  if (of_int tokens_needed <=? tokens')%float then
    (true, {| capacity := capacity b;
              tokens := (tokens' - of_int tokens_needed)%float;
              refill_rate := refill_rate b; last_refill := now |})
  else
    (false, {| capacity := capacity b; tokens := tokens';
               refill_rate := refill_rate b; last_refill := now |}).

(** [TokenBucket.time_until_tokens]; a refill rate of zero makes the
    division raise. *)
Definition time_until_tokens (tokens_needed : Z) (b : TokenBucket)
    : Py.outcome float :=
  if (of_int tokens_needed <=? tokens b)%float then Py.Ok 0.0%float
  else
    let tokens_deficit := (of_int tokens_needed - tokens b)%float in
    if (refill_rate b =? 0)%float then Py.Raise "float division by zero"
    else Py.Ok (tokens_deficit / refill_rate b)%float.

(** The bucket [_initialize_token_buckets] creates for a limit per
    minute, at time [now]. *)
Definition new_bucket (limit_per_minute : Z) (now : float) : TokenBucket :=
  {| capacity := limit_per_minute;
     tokens := of_int limit_per_minute;
     refill_rate := (of_int limit_per_minute / 60.0)%float;
     last_refill := now |}.

(** That bucket after a [consume] that takes all its tokens at time 0. *)
Definition emptied (limit_per_minute : Z) : TokenBucket :=
  snd (consume limit_per_minute 0 (new_bucket limit_per_minute 0)).

(** The same bucket in exact arithmetic. *)
Definition emptied_exact (limit_per_minute : Z) : Scheduler.TokenBucket :=
  snd (Scheduler.consume limit_per_minute 0
         {| Scheduler.capacity := limit_per_minute;
            Scheduler.tokens := inject_Z limit_per_minute;
            Scheduler.refill_rate := (inject_Z limit_per_minute / 60)%Q;
            Scheduler.last_refill := 0 |}).

(** The limits per minute up to 120 for which the refill over the
    reported wait rounds below one token. *)
Definition short_limits : list Z :=
  [17; 34; 53; 57; 59; 68; 91; 106; 111; 114; 118]%Z.

(** For one limit: the emptied bucket refuses a token at once, reports a
    positive wait, refuses the token after exactly that wait if and only
    if the limit is one of [short_limits], and in exact arithmetic grants
    it. *)
Definition wait_checked (limit_per_minute : Z) : bool :=
  let b := emptied limit_per_minute in
  let exact := emptied_exact limit_per_minute in
  match time_until_tokens 1 b with
  | Py.Ok wait =>
      negb (fst (consume 1 0 b))
      && (0 <? wait)%float
      && Bool.eqb (negb (fst (consume 1 wait b)))
                  (existsb (Z.eqb limit_per_minute) short_limits)
      && fst (Scheduler.consume 1 (0 + Scheduler.time_until_tokens 1 exact) exact)
  | Py.Raise _ => false
  end.

End BucketBinary64.

(** * Further concrete inputs *)

Module Examples.
Import CandidateStore CandidateApi Scenarios.

(** A store whose homes are capped at one candidate. *)
Definition small_store : CandidateStore :=
  {| max_candidates_per_home := 1; candidate_ttl := 86400; cleanup_batch_size := 100 |}.

(** A second event of [home_abc], of higher priority than [evt_x]. *)
Definition urgent_a : EventCandidate :=
  candidate "evt_a" "home_abc" HIGH "garage" "guardian" None.

(** The event data of an API call, with the time stamp as a [datetime]
    object (noon) and as ISO text. *)
Definition api_event (ts : TimestampValue) : EventData :=
  {| ed_event_id := Some "evt_1"; ed_user_id := Some "user_456";
     ed_home_id := None; ed_timestamp := Some ts;
     ed_image_url := Some "https://example.com/test.jpg";
     ed_location := Some "Front_Door"; ed_mode := None;
     ed_priority := None; ed_motion_score := None |}.

Definition md5_stub : string -> string := fun _ => "0123456789abcdef0123456789abcdef".
Definition iso_stub : string -> Py.outcome Q := fun _ => Py.Ok 0%Q.


(** A scheduler at time 0 whose store holds the one event of
    [Scenarios.one_event], with no list and no marker. *)
Definition scheduler_with_one_event : Rounds.State :=
  let p := Scheduler.init 0 in
  {| Rounds.scheduler :=
       {| Scheduler.candidate_store := Scheduler.candidate_store p;
          Scheduler.tier_limits := Scheduler.tier_limits p;
          Scheduler.num_gpus := Scheduler.num_gpus p;
          Scheduler.autothrottle_threshold := Scheduler.autothrottle_threshold p;
          Scheduler.throttle_reduction := Scheduler.throttle_reduction p;
          Scheduler.min_best_effort_k := Scheduler.min_best_effort_k p;
          Scheduler.token_buckets := Scheduler.token_buckets p;
          Scheduler.processing_jobs := Scheduler.processing_jobs p;
          Scheduler.queues := Scheduler.queues p;
          Scheduler.redis := one_event |};
     Rounds.job_queues := ∅;
     Rounds.processing := ∅ |}.

(** A worker with models: no event data is stored, every image
    downloads, and the detector sees a person at confidence 0.8. *)
Definition nothing_stored : nat -> string -> WorkerEvents.StoredEvent :=
  fun _ _ => WorkerEvents.Absent.
Definition every_image : nat -> string -> string -> option string :=
  fun _ _ _ => Some "/tmp/event.jpg".
Definition sees_person : nat -> string -> Py.outcome WorkerEvents.DetectionResults :=
  fun _ _ =>
    Py.Ok {| WorkerEvents.dr_detections :=
               Some [{| DeepWorker.d_class := "person";
                        DeepWorker.d_confidence := 8 # 10 |}];
             WorkerEvents.dr_confidence := Some (9 # 10)%Q |}.

Definition person_result : LiteResults :=
  {| lr_channels := Some (list_to_map [("person", true); ("vehicle", false)]);
     lr_explainer := Some "Detected: person";
     lr_confidence := Some (85 # 100)%Q |}.

End Examples.

(* ================================================================== *)
(** * Properties *)
(* ================================================================== *)

Section LiteScorerFacts.
Import LiteScorer ScoringContract.

(** C2. For every channels mapping and every mode among stealth, guardian
    and perimeter, [_calculate_exact_score] returns the score of the
    contract formula, clamp01(base * pet * perimeter * night * mode), and
    the band the mode's cutoffs give, where the distance to the perimeter
    and the night flag are the ones the function derives from the image
    name. *)
Theorem calculate_exact_score_meets_contract
    (hash : string -> Z) (channels : gmap string bool)
    (image_name : string) (m : Mode) :
  let r := _calculate_exact_score hash channels image_name (mode_name m) in
  let s := contract_score
             (Py.get channels "person" false) (Py.get channels "vehicle" false)
             (Py.get channels "pet" false) (Py.get channels "linger" false)
             m (mock_distance hash image_name) (mock_is_night hash image_name) in
  (score r == s)%Q /\
  threshold_met r = band_name (contract_band m s) /\
  (0 <= score r <= 1)%Q.
Proof.
  cbv zeta. unfold _calculate_exact_score, contract_score, Py.Qltb.
  destruct (Qle_bool (15 # 10) (mock_distance hash image_name));
    destruct (mock_is_night hash image_name);
    destruct (Py.get channels "person" false);
    destruct (Py.get channels "vehicle" false);
    destruct (Py.get channels "pet" false);
    destruct (Py.get channels "linger" false);
    destruct m; vm_compute; repeat split; congruence.
Qed.

(** X29.  Within one process the result is a function of the inputs,
    and the hash enters it only through its residue modulo 100: two hash
    functions that agree modulo 100 on the image name give the same
    score, band and factors. *)
Lemma calculate_exact_score_hash_residue
    (hash1 hash2 : string -> Z) (channels : gmap string bool)
    (image_name mode : string) :
  (hash1 image_name mod 100 = hash2 image_name mod 100)%Z ->
  _calculate_exact_score hash1 channels image_name mode
  = _calculate_exact_score hash2 channels image_name mode.
Proof.
  intros H. unfold _calculate_exact_score, mock_distance, mock_is_night.
  assert (H50 : (hash1 image_name mod 50 = hash2 image_name mod 50)%Z).
  { rewrite <- (Z.mod_mod_divide (hash1 image_name) 100 50) by (by exists 2%Z).
    rewrite <- (Z.mod_mod_divide (hash2 image_name) 100 50) by (by exists 2%Z).
    by rewrite H. }
  assert (H4 : (hash1 image_name mod 4 = hash2 image_name mod 4)%Z).
  { rewrite <- (Z.mod_mod_divide (hash1 image_name) 100 4) by (by exists 25%Z).
    rewrite <- (Z.mod_mod_divide (hash2 image_name) 100 4) by (by exists 25%Z).
    by rewrite H. }
  by rewrite H50, H4.
Qed.

(** C1 at its failing input.  The same channels (a vehicle and a pet), the
    same image name and the same mode give score 0.4025 and band medium in
    a process whose hash of the name is 0 modulo 100, and score 0.28 and
    band low in a process where it is 21: the mock distance and the mock
    night flag are taken from the salted hash of the image name. *)
Theorem calculate_exact_score_differs_between_processes :
  let a := _calculate_exact_score Scenarios.hash_in_process_a
             Scenarios.vehicle_with_pet "driveway_cam.jpg" "guardian" in
  let b := _calculate_exact_score Scenarios.hash_in_process_b
             Scenarios.vehicle_with_pet "driveway_cam.jpg" "guardian" in
  (score a == 161 # 400)%Q /\ threshold_met a = "medium" /\
  (score b == 28 # 100)%Q /\ threshold_met b = "low" /\
  ~ (score a == score b)%Q /\ ~ (confidence a == confidence b)%Q /\
  threshold_met a <> threshold_met b.
Proof. by vm_compute. Qed.

End LiteScorerFacts.

(** ** Rounding does not change the band *)

Section Binary64Facts.
Import ScoringContract Binary64.

Lemma for_bools_spec (f : bool -> bool) :
  for_bools f = true -> forall b, f b = true.
Proof.
  unfold for_bools. intros H b. apply andb_true_iff in H as [H1 H2]. by destruct b.
Qed.

Lemma for_modes_spec (f : Mode -> bool) :
  for_modes f = true -> forall m, f m = true.
Proof.
  unfold for_modes. intros H m.
  apply andb_true_iff in H as [H H3]. apply andb_true_iff in H as [H1 H2].
  by destruct m.
Qed.

Lemma for_residues_spec (f : Z -> bool) :
  for_residues f = true -> forall k, (0 <= k < 100)%Z -> f k = true.
Proof.
  unfold for_residues. intros H k Hk.
  apply (proj1 (forallb_forall _ _) H).
  apply in_map_iff. exists (Z.to_nat k). split; [lia |]. apply in_seq. lia.
Qed.

Lemma get_channels_of (person vehicle pet linger : bool) :
  Py.get (channels_of person vehicle pet linger) "person" false = person /\
  Py.get (channels_of person vehicle pet linger) "vehicle" false = vehicle /\
  Py.get (channels_of person vehicle pet linger) "pet" false = pet /\
  Py.get (channels_of person vehicle pet linger) "linger" false = linger.
Proof. by destruct person, vehicle, pet, linger; vm_compute. Qed.

(** Both evaluations read the channels through four lookups and the hash
    through its residue modulo 100. *)
Lemma agrees_canonical (hash : string -> Z) (channels : gmap string bool)
    (image_name mode : string) :
  agrees hash channels image_name mode
  = agrees (fun _ => hash image_name mod 100)%Z
           (channels_of (Py.get channels "person" false)
                        (Py.get channels "vehicle" false)
                        (Py.get channels "pet" false)
                        (Py.get channels "linger" false))
           "" mode.
Proof.
  unfold agrees, Binary64._calculate_exact_score, LiteScorer._calculate_exact_score,
    LiteScorer.mock_distance, LiteScorer.mock_is_night.
  destruct (get_channels_of (Py.get channels "person" false)
              (Py.get channels "vehicle" false) (Py.get channels "pet" false)
              (Py.get channels "linger" false)) as (-> & -> & -> & ->).
  rewrite (Z.mod_mod_divide (hash image_name) 100 50) by (by exists 2%Z).
  rewrite (Z.mod_mod_divide (hash image_name) 100 4) by (by exists 25%Z).
  reflexivity.
Qed.

Lemma all_agree_true : all_agree = true.
Proof. by vm_compute. Qed.

(** X30.  For every channels mapping, image name, hash and mode among
    stealth, guardian and perimeter, evaluating [_calculate_exact_score]
    on binary64 numbers gives the band of the rational model and a score
    within 1e-9 of it: rounding never moves a score across a cut-off. *)
Theorem binary64_agrees_with_rationals (hash : string -> Z)
    (channels : gmap string bool) (image_name : string) (m : Mode) :
  agrees hash channels image_name (mode_name m) = true.
Proof.
  rewrite agrees_canonical.
  pose proof (for_residues_spec _ all_agree_true (hash image_name mod 100)%Z) as H.
  cbv beta in H. specialize (H (Z.mod_pos_bound _ 100 eq_refl)).
  pose proof (for_bools_spec _ H (Py.get channels "person" false)) as H1. cbv beta in H1.
  pose proof (for_bools_spec _ H1 (Py.get channels "vehicle" false)) as H2. cbv beta in H2.
  pose proof (for_bools_spec _ H2 (Py.get channels "pet" false)) as H3. cbv beta in H3.
  pose proof (for_bools_spec _ H3 (Py.get channels "linger" false)) as H4. cbv beta in H4.
  exact (for_modes_spec _ H4 m).
Qed.

End Binary64Facts.

(** ** Python string helpers *)

Section PyFacts.
Import Py.

Lemma prefix_iff_app (needle hay : string) :
  String.prefix needle hay = true <-> exists post, hay = (needle ++ post)%string.
Proof.
  revert hay. induction needle as [|c needle IH]; intros hay.
  - split; [intros _; by exists hay | by destruct hay].
  - destruct hay as [|d hay]; [split; [done | by intros [? ?]] |].
    cbn [String.prefix String.append].
    destruct (Ascii.ascii_dec c d) as [Heq|Hne].
    + rewrite IH. subst d. split; intros [post H]; exists post.
      * by rewrite H.
      * by injection H.
    + split; [done | intros [post Heq]; simpl in Heq; injection Heq as Hcd _; by subst].
Qed.

(** [contains] is the substring test. *)
Lemma contains_iff_substring (needle hay : string) :
  contains needle hay = true <->
  exists pre post, hay = (pre ++ needle ++ post)%string.
Proof.
  induction hay as [|d hay IH]; cbn [contains].
  - rewrite orb_false_r, prefix_iff_app. split.
    + intros [post ->]. by exists ""%string, post.
    + intros [[|? ?] [post Heq]]; [by exists post | done].
  - rewrite orb_true_iff, prefix_iff_app, IH. split.
    + intros [[post ->] | (pre & post & ->)].
      * by exists ""%string, post.
      * by exists (String d pre), post.
    + intros ([|e pre] & post & Heq); simpl in Heq.
      * left. by exists post.
      * right. exists pre, post. by injection Heq.
Qed.

Lemma mem_iff_In (x : string) (xs : list string) :
  mem x xs = true <-> In x xs.
Proof.
  unfold mem. rewrite existsb_exists. split.
  - intros (y & Hy & Heq). apply String.eqb_eq in Heq. by subst.
  - intros H. exists x. split; [done | apply String.eqb_refl].
Qed.

End PyFacts.

(** ** The candidate store *)

Section OrderFacts.
Import CandidateStore.

Lemma string_compare_as_OT (a b : string) :
  String.compare a b = OrdersEx.String_as_OT.compare a b.
Proof.
  revert b. induction a as [|c a IH]; intros [|d b]; simpl; [done | done | done |].
  rewrite IH. unfold Ascii.compare, OrdersEx.Ascii_as_OT.compare.
  by destruct (N.compare _ _).
Qed.

Lemma string_leb_iff (a b : string) :
  String.leb a b = true <-> a = b \/ OrdersEx.String_as_OT.lt a b.
Proof.
  unfold String.leb. rewrite string_compare_as_OT.
  pose proof (@StrictOrder_Irreflexive _ _ OrdersEx.String_as_OT.lt_strorder) as Hirr.
  pose proof (@StrictOrder_Transitive _ _ OrdersEx.String_as_OT.lt_strorder) as Htr.
  destruct (OrdersEx.String_as_OT.compare_spec a b) as [H|H|H].
  - split; [intros _; by left | done].
  - split; [intros _; by right | done].
  - split; [done |]. intros [->|H'].
    + by apply Hirr in H.
    + exfalso. apply (Hirr a). by apply (Htr a b a).
Qed.

Lemma string_leb_refl (a : string) : String.leb a a = true.
Proof. apply string_leb_iff. by left. Qed.

Lemma string_leb_trans (a b c : string) :
  String.leb a b = true -> String.leb b c = true -> String.leb a c = true.
Proof.
  rewrite !string_leb_iff. intros [->|H1] [->|H2]; auto.
  right.
  by apply (@StrictOrder_Transitive _ _ OrdersEx.String_as_OT.lt_strorder a b c).
Qed.

Lemma Qltb_iff (x y : Q) : Py.Qltb x y = true <-> (x < y)%Q.
Proof.
  unfold Py.Qltb. rewrite negb_true_iff, <- not_true_iff_false, Qle_bool_iff.
  split; [apply Qnot_le_lt | apply Qlt_not_le].
Qed.

Lemma entry_leb_iff (a b : zentry) :
  entry_leb a b = true <->
  (snd a < snd b)%Q \/ ((snd a == snd b)%Q /\ String.leb (fst a) (fst b) = true).
Proof.
  unfold entry_leb.
  by rewrite orb_true_iff, andb_true_iff, Qltb_iff, Qeq_bool_iff.
Qed.

Lemma entry_leb_total (a b : zentry) :
  entry_leb a b = true \/ entry_leb b a = true.
Proof.
  rewrite !entry_leb_iff.
  destruct (Q_dec (snd a) (snd b)) as [[H|H]|H]; [tauto | tauto |].
  destruct (String.leb_total (fst a) (fst b)) as [Hs|Hs].
  - left. right. done.
  - right. right. split; [by symmetry | done].
Qed.

Lemma entry_leb_trans (a b c : zentry) :
  entry_leb a b = true -> entry_leb b c = true -> entry_leb a c = true.
Proof.
  rewrite !entry_leb_iff. intros [H1|[H1 S1]] [H2|[H2 S2]].
  - left. by eapply Qlt_trans.
  - left. by rewrite <- H2.
  - left. by rewrite H1.
  - right. split; [by rewrite H1 | by eapply string_leb_trans].
Qed.

(** Two entries each at or below the other have the same member. *)
Lemma entry_leb_antisym (a b : zentry) :
  entry_leb a b = true -> entry_leb b a = true -> fst a = fst b.
Proof.
  rewrite !entry_leb_iff. intros [H1|[H1 S1]] [H2|[H2 S2]].
  - exfalso. eapply Qlt_irrefl. by eapply Qlt_trans.
  - exfalso. rewrite H2 in H1. by eapply Qlt_irrefl.
  - exfalso. rewrite H1 in H2. by eapply Qlt_irrefl.
  - by apply String.leb_antisym.
Qed.

End OrderFacts.

Section ZsetFacts.
Import CandidateStore Invariants.

Lemma entry_ltb_iff (a b : zentry) :
  entry_ltb a b = true <-> entry_leb a b = true /\ fst a <> fst b.
Proof.
  unfold entry_ltb. rewrite andb_true_iff, negb_true_iff, String.eqb_neq. done.
Qed.

Lemma zset_ok_cons (a : zentry) (z : zset) :
  zset_ok (a :: z) <-> Forall (fun b => entry_ltb a b = true) z /\ zset_ok z.
Proof.
  unfold zset_ok. simpl. by rewrite andb_true_iff, forallb_forall, List.Forall_forall.
Qed.

Lemma zset_ok_sorted (z : zset) :
  zset_ok z <-> StronglySorted (fun a b => entry_ltb a b = true) z.
Proof.
  induction z as [|a z IH].
  - split; [constructor | done].
  - rewrite zset_ok_cons, IH. split.
    + intros [H1 H2]. by constructor.
    + intros H. by inversion H.
Qed.

Lemma zset_ok_members_NoDup (z : zset) : zset_ok z -> NoDup (members z).
Proof.
  induction z as [|a z IH]; [constructor |].
  rewrite zset_ok_cons. intros [Ha Hz]. simpl. apply NoDup_cons. split; [| by apply IH].
  intros Hin. apply list_elem_of_In, in_map_iff in Hin as (b & Heq & Hb).
  rewrite List.Forall_forall in Ha. apply Ha, entry_ltb_iff in Hb as [_ Hne]. congruence.
Qed.

Lemma zdel_In (ms : list string) (z : zset) (e : zentry) :
  In e (zdel ms z) <-> In e z /\ ~ In (fst e) ms.
Proof.
  unfold zdel. rewrite filter_In, negb_true_iff, <- not_true_iff_false, mem_iff_In. done.
Qed.

Lemma zdel_not_member (ms : list string) (z : zset) (m : string) :
  In m ms -> ~ In m (members (zdel ms z)).
Proof.
  intros Hm Hin. apply in_map_iff in Hin as (e & Heq & Hin).
  apply zdel_In in Hin as [_ Hn]. congruence.
Qed.

Lemma zdel_ok (ms : list string) (z : zset) : zset_ok z -> zset_ok (zdel ms z).
Proof.
  induction z as [|a z IH]; [done |].
  rewrite zset_ok_cons. intros [Ha Hz]. unfold zdel. simpl.
  destruct (negb _).
  - apply zset_ok_cons. split; [| by apply IH].
    rewrite List.Forall_forall in *. intros b Hb. apply Ha.
    by apply (proj1 (zdel_In ms z b)).
  - by apply IH.
Qed.

Lemma zdel_length (ms : list string) (z : zset) :
  (length (zdel ms z) <= length z)%nat.
Proof. apply List.filter_length_le. Qed.

Lemma zdel_one_cons (m : string) (a : zentry) (z : zset) :
  zdel [m] (a :: z) = if String.eqb (fst a) m then zdel [m] z else a :: zdel [m] z.
Proof.
  unfold zdel. simpl. rewrite orb_false_r. by destruct (String.eqb (fst a) m).
Qed.

(** Deleting a member that is not there changes nothing. *)
Lemma zdel_absent (m : string) (z : zset) :
  ~ In m (members z) -> zdel [m] z = z.
Proof.
  induction z as [|a z IH]; [done |]. intros Hn.
  rewrite zdel_one_cons. simpl in Hn.
  destruct (String.eqb (fst a) m) eqn:E.
  - apply String.eqb_eq in E. tauto.
  - f_equal. apply IH. tauto.
Qed.

(** Deleting a member of a well-formed set removes exactly one entry. *)
Lemma zdel_present_length (m : string) (z : zset) :
  zset_ok z -> In m (members z) -> S (length (zdel [m] z)) = length z.
Proof.
  induction z as [|a z IH]; [done |].
  intros Hok Hin. pose proof (zset_ok_members_NoDup _ Hok) as Hnd.
  apply zset_ok_cons in Hok as [Ha Hz]. simpl in Hnd. apply NoDup_cons in Hnd as [Hna _].
  rewrite zdel_one_cons.
  destruct (String.eqb (fst a) m) eqn:E; simpl.
  - apply String.eqb_eq in E. subst m. f_equal.
    rewrite zdel_absent; [done |].
    intros H. apply Hna. by apply list_elem_of_In.
  - f_equal. apply IH; [done |]. destruct Hin as [Heq|Hin]; [| done].
    apply String.eqb_neq in E. congruence.
Qed.

Lemma zinsert_In (e x : zentry) (z : zset) :
  In x (zinsert e z) <-> x = e \/ In x z.
Proof.
  induction z as [|a z IH]; simpl; [intuition congruence |].
  destruct (entry_leb e a); simpl; [intuition congruence |].
  rewrite IH. intuition congruence.
Qed.

Lemma zinsert_length (e : zentry) (z : zset) :
  length (zinsert e z) = S (length z).
Proof.
  induction z as [|a z IH]; simpl; [done |].
  destruct (entry_leb e a); simpl; by rewrite ?IH.
Qed.

Lemma zinsert_ok (e : zentry) (z : zset) :
  zset_ok z -> ~ In (fst e) (members z) -> zset_ok (zinsert e z).
Proof.
  induction z as [|a z IH]; [done |].
  intros Hok Hn. pose proof Hok as Hok'.
  apply zset_ok_cons in Hok as [Ha Hz]. simpl in Hn.
  simpl. destruct (entry_leb e a) eqn:E.
  - apply zset_ok_cons. split; [| done].
    constructor.
    + apply entry_ltb_iff. split; [done |]. intros Heq. apply Hn. by left.
    + rewrite List.Forall_forall in *. intros b Hb.
      apply entry_ltb_iff. split.
      * apply Ha, entry_ltb_iff in Hb as [Hab _]. by eapply entry_leb_trans.
      * intros Heq. apply Hn. right. apply in_map_iff. by exists b.
  - apply zset_ok_cons. split; [| apply IH; tauto].
    rewrite List.Forall_forall in *. intros b Hb.
    apply zinsert_In in Hb as [->|Hb]; [| by apply Ha].
    apply entry_ltb_iff. split.
    + destruct (entry_leb_total a e) as [H|H]; [done | congruence].
    + intros Heq. apply Hn. by left.
Qed.

Lemma zadd_ok (m : string) (s : Q) (z : zset) : zset_ok z -> zset_ok (zadd m s z).
Proof.
  intros Hok. unfold zadd. apply zinsert_ok; [by apply zdel_ok |].
  apply zdel_not_member. by left.
Qed.

Lemma zadd_In (m : string) (s : Q) (z : zset) (x : zentry) :
  In x (zadd m s z) <-> x = (m, s) \/ (In x z /\ fst x <> m).
Proof.
  unfold zadd. rewrite zinsert_In, zdel_In. simpl. intuition congruence.
Qed.

Lemma zadd_length_present (m : string) (s : Q) (z : zset) :
  zset_ok z -> In m (members z) -> length (zadd m s z) = length z.
Proof.
  intros Hok Hin. unfold zadd. rewrite zinsert_length. by apply zdel_present_length.
Qed.

Lemma zadd_length_absent (m : string) (s : Q) (z : zset) :
  ~ In m (members z) -> length (zadd m s z) = S (length z).
Proof.
  intros Hn. unfold zadd. by rewrite zinsert_length, zdel_absent.
Qed.

Lemma zadd_length_le (m : string) (s : Q) (z : zset) :
  (length (zadd m s z) <= S (length z))%nat.
Proof.
  unfold zadd. rewrite zinsert_length. pose proof (zdel_length [m] z). lia.
Qed.

End ZsetFacts.

Section RangeFacts.
Import CandidateStore Invariants.

Lemma range_segment {A} (start stop : Z) (l : list A) :
  exists n k, range start stop l = firstn n (skipn k l).
Proof.
  unfold range. destruct (_ <? _)%Z; [by exists 0%nat, 0%nat | eauto].
Qed.

(** The first [k] elements, for a [k] that is at least one. *)
Lemma range_prefix {A} (k : Z) (l : list A) :
  (1 <= k)%Z -> range 0 (k - 1) l = firstn (Z.to_nat k) l.
Proof.
  intros Hk. unfold range.
  replace (0 <? 0)%Z with false by done.
  replace (k - 1 <? 0)%Z with false by lia.
  destruct (Z.ltb_spec (Z.min (k - 1) (Z.of_nat (length l) - 1)) 0) as [Hlt|Hge].
  - assert (length l = 0%nat) as Hl by lia.
    destruct l; [by rewrite firstn_nil | done].
  - change (Z.to_nat 0) with 0%nat. rewrite drop_0.
    destruct (Z.le_ge_cases (k - 1) (Z.of_nat (length l) - 1)) as [H|H].
    + rewrite Z.min_l by done. f_equal. lia.
    + rewrite Z.min_r by done.
      rewrite !firstn_all2; [done | lia | lia].
Qed.


Lemma StronglySorted_skipn {A} (R : A -> A -> Prop) (n : nat) (l : list A) :
  StronglySorted R l -> StronglySorted R (skipn n l).
Proof.
  intros H. rewrite <- (firstn_skipn n l) in H. by apply StronglySorted_app_1_r in H.
Qed.



Lemma range_In {A} (start stop : Z) (l : list A) (x : A) :
  In x (range start stop l) -> In x l.
Proof.
  destruct (range_segment start stop l) as (n & k & ->).
  intros H. apply list_elem_of_In in H. apply list_elem_of_In.
  by apply (subseteq_drop k l), (subseteq_take n).
Qed.


End RangeFacts.

Section RedisFacts.
Import CandidateStore Invariants.

Lemma index_ZADD (home h m : string) (s : Q) (r : Redis) :
  index h (ZADD home m s r) = if decide (home = h) then zadd m s (index h r) else index h r.
Proof.
  unfold index, ZADD. cbn [cand]. rewrite lookup_insert.
  destruct (decide (home = h)) as [->|]; done.
Qed.

Lemma index_ZREM (home h : string) (ms : list string) (r : Redis) :
  index h (ZREM home ms r) = if decide (home = h) then zdel ms (index h r) else index h r.
Proof.
  unfold index, ZREM. destruct (cand r !! home) as [z|] eqn:E.
  - destruct (zdel ms z) as [|e z'] eqn:Ez; cbn [cand].
    + rewrite lookup_delete. destruct (decide (home = h)) as [->|]; [| done].
      rewrite E. simpl. by rewrite Ez.
    + rewrite lookup_insert. destruct (decide (home = h)) as [->|]; [| done].
      rewrite E. simpl. by rewrite Ez.
  - destruct (decide (home = h)) as [->|]; [| done]. by rewrite E.
Qed.

Lemma index_EXPIRE (k : RedisKey) (t : Z) (h : string) (r : Redis) :
  index h (EXPIRE k t r) = index h r.
Proof. unfold EXPIRE. by destruct (EXISTS k r). Qed.

Lemma ev_EXPIRE (k : RedisKey) (t : Z) (r : Redis) : ev (EXPIRE k t r) = ev r.
Proof. unfold EXPIRE. by destruct (EXISTS k r). Qed.

Lemma ev_ZREM (home : string) (ms : list string) (r : Redis) : ev (ZREM home ms r) = ev r.
Proof. unfold ZREM. destruct (cand r !! home); [destruct (zdel ms _) |]; done. Qed.

Lemma index_fold_DEL (ids : list string) (h : string) (r : Redis) :
  index h (fold_left (fun r id => DEL_ev id r) ids r) = index h r.
Proof. revert r. induction ids as [|i ids IH]; intros r; simpl; [done | by rewrite IH]. Qed.

Lemma ev_fold_DEL (ids : list string) (r : Redis) (id : string) :
  ev (fold_left (fun r id => DEL_ev id r) ids r) !! id
  = if Py.mem id ids then None else ev r !! id.
Proof.
  revert r. induction ids as [|i ids IH]; intros r; simpl; [done |].
  rewrite IH. cbn [DEL_ev ev]. rewrite lookup_delete.
  destruct (String.eqb id i) eqn:E; simpl.
  - apply String.eqb_eq in E. subst i.
    destruct (decide (id = id)); [| done]. by destruct (Py.mem id ids).
  - apply String.eqb_neq in E. destruct (decide (i = id)); [congruence | done].
Qed.

Lemma remove_candidate_removes (id home : string) (r : Redis) :
  let r' := snd (remove_candidate id home r) in
  ev r' !! id = None /\ ~ In id (members (index home r')).
Proof.
  unfold remove_candidate. cbn [snd]. split.
  - apply lookup_delete_eq.
  - change (index home (DEL_ev id (ZREM home [id] r))) with (index home (ZREM home [id] r)).
    rewrite index_ZREM. destruct (decide (home = home)); [| done].
    apply zdel_not_member. by left.
Qed.

(** Deleting the members of a prefix of a well-formed set leaves the rest. *)
Lemma zdel_prefix (n : nat) (z : zset) :
  zset_ok z -> zdel (members (firstn n z)) z = skipn n z.
Proof.
  revert n. induction z as [|a z IH]; intros n Hok.
  - by destruct n.
  - destruct n as [|n]; simpl.
    + unfold zdel. simpl. f_equal. apply forallb_filter_id.
      by apply forallb_forall.
    + pose proof (zset_ok_members_NoDup _ Hok) as Hnd.
      apply zset_ok_cons in Hok as [Ha Hz]. simpl in Hnd.
      apply NoDup_cons in Hnd as [Hna _].
      unfold zdel. simpl. rewrite String.eqb_refl. simpl.
      rewrite <- (IH n Hz). unfold zdel. apply filter_ext_in.
      intros b Hb. simpl.
      destruct (String.eqb (fst b) (fst a)) eqn:E; [| done].
      apply String.eqb_eq in E. exfalso. apply Hna. rewrite <- E.
      apply list_elem_of_In, in_map_iff. by exists b.
Qed.

End RedisFacts.

Section StoreFacts.
Import CandidateStore Invariants Scenarios.

Variable self : CandidateStore.

Lemma cleanup_index (home h : string) (r : Redis) :
  zset_ok (index home r) -> (0 <= max_candidates_per_home self)%Z ->
  index h (_cleanup_old_candidates self home r) =
  if decide (home = h)
  then skipn (length (index h r) - Z.to_nat (max_candidates_per_home self)) (index h r)
  else index h r.
Proof.
  intros Hok Hcap. unfold _cleanup_old_candidates, ZCARD, ZRANGE.
  set (z := index home r) in *. set (cap := max_candidates_per_home self) in *.
  destruct (Z.ltb_spec cap (Z.of_nat (length z))) as [Hlt|Hge].
  - rewrite range_prefix by lia.
    replace (Z.to_nat (Z.of_nat (length z) - cap)) with (length z - Z.to_nat cap)%nat by lia.
    set (k := (length z - Z.to_nat cap)%nat).
    destruct (map fst (firstn k z)) as [|m ms] eqn:Eold.
    + destruct (decide (home = h)) as [<-|]; [| done]. fold z.
      apply map_eq_nil in Eold.
      rewrite <- (firstn_skipn k z) at 1. by rewrite Eold.
    + rewrite index_fold_DEL, index_ZREM.
      destruct (decide (home = h)) as [<-|]; [| done]. fold z.
      rewrite <- Eold. by apply zdel_prefix.
  - destruct (decide (home = h)) as [<-|]; [| done]. fold z.
    replace (length z - Z.to_nat cap)%nat with 0%nat by lia. done.
Qed.

Lemma cleanup_ev (home id : string) (r : Redis) :
  (0 <= max_candidates_per_home self)%Z ->
  ev (_cleanup_old_candidates self home r) !! id =
  if Py.mem id (members (firstn (length (index home r)
                                 - Z.to_nat (max_candidates_per_home self))
                                (index home r)))
  then None else ev r !! id.
Proof.
  intros Hcap. unfold _cleanup_old_candidates, ZCARD, ZRANGE, members.
  set (z := index home r) in *. set (cap := max_candidates_per_home self) in *.
  destruct (Z.ltb_spec cap (Z.of_nat (length z))) as [Hlt|Hge].
  - rewrite range_prefix by lia.
    replace (Z.to_nat (Z.of_nat (length z) - cap)) with (length z - Z.to_nat cap)%nat by lia.
    set (k := (length z - Z.to_nat cap)%nat).
    destruct (map fst (firstn k z)) as [|m ms] eqn:Eold; [done |].
    by rewrite ev_fold_DEL, ev_ZREM.
  - replace (length z - Z.to_nat cap)%nat with 0%nat by lia. done.
Qed.

(** The new-record path of [add_candidate]: the record and the score are
    written, then the home is trimmed. *)
Lemma add_candidate_new (c : EventCandidate) (now : Q) (unix_now : Z) (r : Redis) :
  ev r !! event_id c = None ->
  exists r0,
    add_candidate self c now unix_now r
      = (true, _cleanup_old_candidates self (home_id c) r0) /\
    ev r0 = <[event_id c := c]> (ev r) /\
    (forall h, index h r0 =
               if decide (home_id c = h)
               then zadd (event_id c) (calculate_score c now) (index h r)
               else index h r).
Proof.
  intros Hnew. unfold add_candidate.
  replace (EXISTS (K_ev (event_id c)) r) with false.
  2:{ simpl. symmetry. apply bool_decide_eq_false. rewrite Hnew. by intros [? ?]. }
  eexists. split; [reflexivity |]. split.
  - rewrite ev_EXPIRE. change (ev (SADD ?t ?m ?r0)) with (ev r0).
    rewrite ev_EXPIRE. change (ev (ZADD ?h ?m ?s ?r0)) with (ev r0).
    by rewrite ev_EXPIRE.
  - intros h. rewrite index_EXPIRE.
    change (index h (SADD ?t ?m ?r0)) with (index h r0).
    rewrite index_EXPIRE, index_ZADD, index_EXPIRE.
    by change (index h (HSET ?i ?c0 r)) with (index h r).
Qed.

(** What the new-record path of [add_candidate] leaves in the indexes. *)
Lemma add_candidate_new_index (c : EventCandidate) (now : Q) (unix_now : Z)
    (r : Redis) (h : string) :
  ev r !! event_id c = None ->
  zset_ok (index (home_id c) r) -> (0 <= max_candidates_per_home self)%Z ->
  index h (snd (add_candidate self c now unix_now r)) =
  if decide (home_id c = h)
  then let z' := zadd (event_id c) (calculate_score c now) (index h r) in
       skipn (length z' - Z.to_nat (max_candidates_per_home self)) z'
  else index h r.
Proof.
  intros Hnew Hok Hcap.
  destruct (add_candidate_new c now unix_now r Hnew) as (r0 & -> & Hev & Hidx).
  cbn [snd]. rewrite cleanup_index; [| | done].
  - rewrite !Hidx. by destruct (decide (home_id c = h)).
  - rewrite Hidx. destruct (decide (home_id c = home_id c)); [| done]. by apply zadd_ok.
Qed.

(** What the update path of [add_candidate] does: the records stay as
    they are and one score is written in the index of the candidate's
    home. *)
Lemma add_candidate_existing (c : EventCandidate) (now : Q) (unix_now : Z) (r : Redis) :
  is_Some (ev r !! event_id c) ->
  let r' := snd (add_candidate self c now unix_now r) in
  fst (add_candidate self c now unix_now r) = true /\
  ev r' = ev r /\
  (forall h, index h r' =
             if decide (home_id c = h)
             then zadd (event_id c) (calculate_score c now) (index h r)
             else index h r).
Proof.
  intros Hex. unfold add_candidate.
  replace (EXISTS (K_ev (event_id c)) r) with true.
  2:{ simpl. symmetry. by apply bool_decide_eq_true. }
  cbn [fst snd]. split_and!; [done | by rewrite ev_EXPIRE |].
  intros h. by rewrite index_EXPIRE, index_ZADD.
Qed.

(** Re-adding an event that is indexed under the candidate's home keeps
    every index at its size. *)
Lemma add_candidate_existing_same_home (c : EventCandidate) (now : Q) (unix_now : Z)
    (r : Redis) (h : string) :
  is_Some (ev r !! event_id c) ->
  zset_ok (index (home_id c) r) ->
  In (event_id c) (members (index (home_id c) r)) ->
  length (index h (snd (add_candidate self c now unix_now r))) = length (index h r).
Proof.
  intros Hex Hok Hin.
  destruct (add_candidate_existing c now unix_now r Hex) as (_ & _ & Hidx).
  rewrite Hidx. destruct (decide (home_id c = h)) as [<-|]; [| done].
  by apply zadd_length_present.
Qed.

(** Re-adding it under a home whose index does not have it adds an entry
    there, and nothing trims that index. *)
Lemma add_candidate_existing_other_home (c : EventCandidate) (now : Q) (unix_now : Z)
    (r : Redis) :
  is_Some (ev r !! event_id c) ->
  ~ In (event_id c) (members (index (home_id c) r)) ->
  length (index (home_id c) (snd (add_candidate self c now unix_now r)))
  = S (length (index (home_id c) r)).
Proof.
  intros Hex Hn.
  destruct (add_candidate_existing c now unix_now r Hex) as (_ & _ & Hidx).
  rewrite Hidx. destruct (decide (home_id c = home_id c)); [| done].
  by apply zadd_length_absent.
Qed.

(** X8.  Adding an event that has no record keeps every index within the
    cap: an index that held at most [max_candidates_per_home] entries
    before the call holds at most that many after it. *)
Lemma add_candidate_new_within_cap (c : EventCandidate) (now : Q) (unix_now : Z)
    (r : Redis) (h : string) :
  ev r !! event_id c = None ->
  zset_ok (index (home_id c) r) -> (0 <= max_candidates_per_home self)%Z ->
  (Z.of_nat (length (index h r)) <= max_candidates_per_home self)%Z ->
  (Z.of_nat (length (index h (snd (add_candidate self c now unix_now r))))
   <= max_candidates_per_home self)%Z.
Proof.
  intros Hnew Hok Hcap Hlen. rewrite add_candidate_new_index by done.
  destruct (decide (home_id c = h)) as [<-|]; [| done].
  cbv zeta. rewrite length_skipn. lia.
Qed.

(** X9.  At the cap, a new event that scores above the lowest entry
    takes the place of exactly that entry: the index loses it and gains
    the new event, and its record is deleted. *)
Lemma add_candidate_evicts_lowest (c : EventCandidate) (now : Q) (unix_now : Z)
    (r : Redis) (lowest : zentry) (rest : zset) :
  ev r !! event_id c = None ->
  index (home_id c) r = lowest :: rest ->
  zset_ok (lowest :: rest) ->
  Z.of_nat (length (lowest :: rest)) = max_candidates_per_home self ->
  ~ In (event_id c) (members (lowest :: rest)) ->
  (snd lowest < calculate_score c now)%Q ->
  let r' := snd (add_candidate self c now unix_now r) in
  index (home_id c) r' = zinsert (event_id c, calculate_score c now) rest /\
  (forall e, In e (index (home_id c) r') <->
             e = (event_id c, calculate_score c now) \/ In e rest) /\
  ev r' !! fst lowest = None.
Proof.
  intros Hnew Hidx Hok Hlen Hn Hscore r'.
  assert (Hz : index (home_id c) r' = zinsert (event_id c, calculate_score c now) rest).
  { unfold r'. rewrite add_candidate_new_index; [| done | by rewrite Hidx | lia].
    destruct (decide (home_id c = home_id c)); [| done]. cbv zeta.
    rewrite Hidx. unfold zadd. rewrite zdel_absent by done.
    rewrite zinsert_length. simpl length in *.
    replace (S (S (length rest)) - Z.to_nat (max_candidates_per_home self))%nat
      with 1%nat by lia.
    simpl. replace (entry_leb (event_id c, calculate_score c now) lowest) with false.
    - done.
    - symmetry. apply not_true_iff_false. rewrite entry_leb_iff. simpl.
      intros [H|[H _]].
      + eapply Qlt_irrefl. by eapply Qlt_trans.
      + rewrite H in Hscore. by eapply Qlt_irrefl. }
  split_and!; [done | |].
  - intros e. rewrite Hz. apply zinsert_In.
  - unfold r'.
    destruct (add_candidate_new c now unix_now r Hnew) as (r0 & -> & Hev & Hidx0).
    cbn [snd]. rewrite cleanup_ev by lia. rewrite Hidx0.
    destruct (decide (home_id c = home_id c)); [| done].
    rewrite Hidx. unfold zadd. rewrite zdel_absent by done.
    rewrite zinsert_length. simpl length in *.
    replace (S (S (length rest)) - Z.to_nat (max_candidates_per_home self))%nat
      with 1%nat by lia.
    simpl zinsert.
    replace (entry_leb (event_id c, calculate_score c now) lowest) with false.
    + simpl. by rewrite String.eqb_refl.
    + symmetry. apply not_true_iff_false. rewrite entry_leb_iff. simpl.
      intros [H|[H _]].
      * eapply Qlt_irrefl. by eapply Qlt_trans.
      * rewrite H in Hscore. by eapply Qlt_irrefl.
Qed.

(** The operations of the store keep every index well formed. *)
Lemma empty_redis_ok : store_ok empty_redis.
Proof. intros h. done. Qed.

Lemma add_candidate_ok (c : EventCandidate) (now : Q) (unix_now : Z) (r : Redis) :
  (0 <= max_candidates_per_home self)%Z ->
  store_ok r -> store_ok (snd (add_candidate self c now unix_now r)).
Proof.
  intros Hcap Hok h. destruct (ev r !! event_id c) as [c0|] eqn:E.
  - destruct (add_candidate_existing c now unix_now r) as (_ & _ & Hidx); [by eexists |].
    rewrite Hidx. destruct (decide (home_id c = h)); [by apply zadd_ok | done].
  - rewrite add_candidate_new_index by done.
    destruct (decide (home_id c = h)); [| done]. cbv zeta.
    apply zset_ok_sorted, StronglySorted_skipn, zset_ok_sorted. by apply zadd_ok.
Qed.

Lemma remove_candidate_ok (id home : string) (r : Redis) :
  store_ok r -> store_ok (snd (remove_candidate id home r)).
Proof.
  intros Hok h. unfold remove_candidate. cbn [snd].
  change (index h (DEL_ev id (ZREM home [id] r))) with (index h (ZREM home [id] r)).
  rewrite index_ZREM. destruct (decide (home = h)); [by apply zdel_ok | done].
Qed.

Lemma update_candidate_score_ok (id home : string) (now : Q) (r : Redis) :
  store_ok r -> store_ok (snd (update_candidate_score id home now r)).
Proof.
  intros Hok h. unfold update_candidate_score.
  destruct (get_candidate id r); [| done]. cbn [snd].
  rewrite index_ZADD. destruct (decide (home = h)); [by apply zadd_ok | done].
Qed.

End StoreFacts.

Section OrderingOfResults.
Import CandidateStore Invariants Scenarios.

Lemma insert_desc_In {A} (x y : A * Q) (l : list (A * Q)) :
  In y (insert_desc x l) <-> y = x \/ In y l.
Proof.
  induction l as [|a l IH]; simpl; [intuition congruence |].
  destruct (Py.Qltb (snd x) (snd a)); simpl; [| intuition congruence].
  rewrite IH. intuition congruence.
Qed.

Lemma insert_desc_sorted {A} (x : A * Q) (l : list (A * Q)) :
  StronglySorted (fun a b => (snd b <= snd a)%Q) l ->
  StronglySorted (fun a b => (snd b <= snd a)%Q) (insert_desc x l).
Proof.
  induction 1 as [|a l Hl IH Ha]; simpl; [repeat constructor |].
  destruct (Py.Qltb (snd x) (snd a)) eqn:E.
  - constructor; [done |]. apply List.Forall_forall. intros y Hy.
    apply insert_desc_In in Hy as [->|Hy].
    + apply Qltb_iff in E. by apply Qlt_le_weak.
    + by apply (proj1 (List.Forall_forall _ _) Ha).
  - assert (snd a <= snd x)%Q as Hax.
    { unfold Py.Qltb in E. apply negb_false_iff in E. by apply Qle_bool_iff. }
    constructor; [by constructor |]. constructor; [done |].
    apply List.Forall_forall. intros y Hy.
    apply (proj1 (List.Forall_forall _ _) Ha) in Hy. by eapply Qle_trans.
Qed.

(** The sort of [get_candidates_by_tier] puts the keys in descending order. *)
Lemma sort_desc_sorted {A} (l : list (A * Q)) :
  StronglySorted (fun a b => (snd b <= snd a)%Q) (sort_desc l).
Proof.
  induction l as [|x l IH]; simpl; [constructor | by apply insert_desc_sorted].
Qed.


(** The sort only rearranges its list. *)
Lemma sort_desc_Permutation {A} (l : list (A * Q)) : Permutation (sort_desc l) l.
Proof.
  induction l as [|x l IH]; [done |]. cbn [sort_desc foldr].
  change (foldr insert_desc [] l) with (sort_desc l).
  transitivity (x :: sort_desc l); [| by constructor].
  generalize (sort_desc l). clear. intros l.
  induction l as [|y l IH]; simpl; [done |].
  destruct (Py.Qltb (snd x) (snd y)); [| done].
  rewrite IH. apply perm_swap.
Qed.

(** Each sort key is the one computed for its element. *)
Lemma imap_keyed_Forall {A} (f : nat -> A -> Q) (l : list A) :
  Forall (fun p => exists i, snd p = f i (fst p)) (imap (fun i c => (c, f i c)) l).
Proof.
  revert f. induction l as [|a l IH]; intros f; [constructor |].
  cbn [imap]. constructor; [by exists 0%nat |].
  specialize (IH (fun i c => f (S i) c)).
  eapply Forall_impl; [exact IH |]. intros p [i Hi]. by exists (S i).
Qed.





End OrderingOfResults.

Section CapFacts.
Import CandidateStore Invariants Scenarios.

(** C6 at its failing input.  [evt_x] has a record, stored for
    [home_abc]; adding a candidate with that event id and [home_full] as
    home takes the update path: the record is left as it was (it still
    names [home_abc]) and the index of [home_full] grows from no entry to
    one. *)
Theorem add_candidate_again_grows_other_home :
  let r' := snd (add_candidate init second_report 0 0 one_event) in
  is_Some (ev one_event !! "evt_x") /\
  ev r' = ev one_event /\
  home_id <$> ev r' !! "evt_x" = Some "home_abc" /\
  length (index "home_full" one_event) = 0%nat /\
  length (index "home_full" r') = 1%nat /\
  length (index "home_abc" r') = 1%nat.
Proof.
  split_and!.
  - by eexists.
  - apply (add_candidate_existing init second_report 0 0 one_event). by eexists.
  - by vm_compute.
  - by vm_compute.
  - by vm_compute.
  - by vm_compute.
Qed.

(** C7 at its failing input.  [home_full] holds 2000 entries and [evt_x]
    has a record, stored for [home_abc]; adding a candidate with that event
    id and [home_full] as home takes the update path, which does not trim:
    the index of [home_full] holds 2001 entries afterwards. *)
Theorem add_candidate_again_overfills_home :
  let r' := snd (add_candidate init second_report 0 0 crowded) in
  max_candidates_per_home init = 2000%Z /\
  length (index "home_full" crowded) = 2000%nat /\
  length (index "home_abc" crowded) = 1%nat /\
  size (ev crowded) = 2001%nat /\
  is_Some (ev crowded !! "evt_x") /\
  length (index "home_full" r') = 2001%nat.
Proof.
  split_and!.
  - done.
  - by vm_compute.
  - by vm_compute.
  - by vm_compute.
  - eexists. vm_compute. reflexivity.
  - by vm_compute.
Qed.

End CapFacts.
(** ** The scheduler *)

Section SchedulerFacts.
Import CandidateStore Scheduler Scenarios.

Lemma py_min_le_r (a b : Q) : (Py.min a b <= b)%Q.
Proof.
  unfold Py.min, Py.Qltb. destruct (Qle_bool a b) eqn:E; simpl.
  - by apply Qle_bool_iff.
  - apply Qle_refl.
Qed.

(** With the reduction 0.4 and a capacity that is not negative, the
    integer part of [capacity * (1 - 0.4)] is the floor of six tenths. *)
Lemma int_of_throttled_capacity (c : Z) :
  (0 <= c)%Z -> Py.int (inject_Z c * (1 - (4 # 10))) = (c * 6 / 10)%Z.
Proof.
  intros Hc. unfold Py.int. simpl.
  rewrite Z.quot_div_nonneg by lia. done.
Qed.

(** On binary64 numbers the product is rounded, and its integer part is
    still that floor, for every capacity up to 4096. *)
Lemma binary64_throttled_is_floor (c : Z) :
  (0 <= c <= 4096)%Z -> Binary64.throttled c = (c * 6 / 10)%Z.
Proof.
  intros Hc.
  assert (H : forallb (fun c => (Binary64.throttled c =? c * 6 / 10)%Z)
                      (map Z.of_nat (seq 0 4097)) = true) by (by vm_compute).
  apply Z.eqb_eq. apply (proj1 (forallb_forall _ _) H).
  apply in_map_iff. exists (Z.to_nat c). split; [lia |]. apply in_seq. lia.
Qed.

Lemma throttle_bucket_capacity (self : ProcessingScheduler) (b : TokenBucket) :
  (Z.min (min_best_effort_k self) (capacity b) <= capacity (throttle_bucket self b)
   <= capacity b)%Z.
Proof.
  unfold throttle_bucket.
  destruct (_ <? _)%Z eqn:E; simpl; [apply Z.ltb_lt in E |]; lia.
Qed.

Lemma apply_autothrottle_with_buckets (now : Q)
    (buckets : gmap ProcessingTier TokenBucket) :
  _apply_autothrottle (with_buckets buckets (init now)) =
  with_buckets (throttle_bucket (init now) <$> buckets) (init now).
Proof. reflexivity. Qed.

Lemma iter_autothrottle_capacity (now : Q) (n : nat)
    (buckets : gmap ProcessingTier TokenBucket) (tier : ProcessingTier)
    (b : TokenBucket) :
  buckets !! tier = Some b ->
  exists b',
    token_buckets (Nat.iter n _apply_autothrottle (with_buckets buckets (init now)))
      !! tier = Some b' /\
    (Z.min 5 (capacity b) <= capacity b' <= capacity b)%Z.
Proof.
  intros Hb.
  assert (exists bs b',
    Nat.iter n _apply_autothrottle (with_buckets buckets (init now))
      = with_buckets bs (init now) /\
    bs !! tier = Some b' /\
    (Z.min 5 (capacity b) <= capacity b' <= capacity b)%Z) as (bs & b' & -> & Hb' & Hc).
  { induction n as [|n (bs & b' & IH & Hb' & Hc)]; simpl.
    - exists buckets, b. split; [done | split; [done | lia]].
    - rewrite IH, apply_autothrottle_with_buckets.
      exists (throttle_bucket (init now) <$> bs), (throttle_bucket (init now) b').
      split; [done | split; [by rewrite lookup_fmap, Hb' |]].
      pose proof (throttle_bucket_capacity (init now) b') as Ht.
      change (min_best_effort_k (init now)) with 5%Z in Ht. lia. }
  exists b'. done.
Qed.

(** C5, as the code has it.  With the default configuration, one
    autothrottle replaces a capacity by max(5, floor(capacity * 0.6)) only
    when that is less than the capacity, and then clamps the tokens to the
    new capacity; a bucket whose capacity is already at or below that value
    is left as it is.  After any number of throttles a capacity lies
    between min(5, its first value) and its first value, and one throttle
    of the default buckets gives STANDARD = 2, PREMIUM = 5, ENTERPRISE = 19. *)
Theorem apply_autothrottle_reduces_only (now : Q)
    (buckets : gmap ProcessingTier TokenBucket) :
  let self := with_buckets buckets (init now) in
  (forall tier b, buckets !! tier = Some b -> (0 <= capacity b)%Z ->
     let target := Z.max 5 (capacity b * 6 / 10) in
     exists b', token_buckets (_apply_autothrottle self) !! tier = Some b' /\
       capacity b' = (if (target <? capacity b)%Z then target else capacity b) /\
       tokens b' = (if (target <? capacity b)%Z
                    then Py.min (tokens b) (inject_Z target) else tokens b) /\
       ((target <? capacity b)%Z = true -> (tokens b' <= inject_Z (capacity b'))%Q)) /\
  (forall n tier b, buckets !! tier = Some b ->
     exists b', token_buckets (Nat.iter n _apply_autothrottle self) !! tier = Some b' /\
       (Z.min 5 (capacity b) <= capacity b' <= capacity b)%Z) /\
  capacity <$> token_buckets (_apply_autothrottle (init now)) !! STANDARD = Some 2%Z /\
  capacity <$> token_buckets (_apply_autothrottle (init now)) !! PREMIUM = Some 5%Z /\
  capacity <$> token_buckets (_apply_autothrottle (init now)) !! ENTERPRISE = Some 19%Z.
Proof.
  intros self. split_and!.
  - intros tier b Hb Hc target.
    exists (throttle_bucket (init now) b). split.
    { unfold self. rewrite apply_autothrottle_with_buckets. simpl.
      by rewrite lookup_fmap, Hb. }
    unfold throttle_bucket.
    change (throttle_reduction (init now)) with (4 # 10)%Q.
    change (min_best_effort_k (init now)) with 5%Z.
    rewrite int_of_throttled_capacity by done. fold target.
    destruct (target <? capacity b)%Z; simpl; split_and!; try done.
    intros _. apply py_min_le_r.
  - intros n tier b Hb. by apply iter_autothrottle_capacity.
  - by vm_compute.
  - by vm_compute.
  - by vm_compute.
Qed.

(** The instance of the theorem at the default buckets and the PREMIUM
    tier, whose capacity 7 falls to 5. *)
Lemma apply_autothrottle_reduces_only_witness :
  exists b', token_buckets (_apply_autothrottle (init 0)) !! PREMIUM = Some b' /\
             capacity b' = 5%Z /\ (tokens b' <= 5)%Q.
Proof.
  destruct (apply_autothrottle_reduces_only 0 (token_buckets (init 0))) as [H _].
  destruct (H PREMIUM
              {| capacity := 7; tokens := 7; refill_rate := 7 / 60; last_refill := 0 |})
    as (b' & Hb' & Hcap & _ & Htok).
  - by vm_compute.
  - by vm_compute.
  - exists b'. split; [exact Hb' |]. split; [exact Hcap |].
    rewrite Hcap in Htok. apply Htok. by vm_compute.
Defined.

(** C5, as stated, fails on the default STANDARD bucket: its capacity 2
    is below the floor 5 and one autothrottle leaves it at 2, where the
    claim has max(5, floor(2 * 0.6)) = 5. *)
Lemma autothrottle_leaves_standard_below_floor :
  capacity <$> token_buckets (_apply_autothrottle (init 0)) !! STANDARD = Some 2%Z /\
  capacity <$> token_buckets (_apply_autothrottle (init 0)) !! STANDARD
    <> Some (Z.max 5 (2 * 6 / 10))%Z /\
  (2 < min_best_effort_k (init 0))%Z.
Proof. by vm_compute. Qed.

(** *** Life-safety preemption *)

(** The three conditions, with the explainer compared in lower case. *)
Definition LifeSafety (c : EventCandidate) : Prop :=
  In (mode c) ["emergency"; "alarm"] \/
  (exists explainer indicator,
     lite_explainer c = Some explainer /\
     In indicator life_safety_indicators /\
     Py.contains indicator (Py.lower explainer) = true) \/
  (In (location c) ["front_door"; "back_door"] /\ priority c = CRITICAL).

Lemma is_life_safety_event_iff (c : EventCandidate) :
  _is_life_safety_event c = true <-> LifeSafety c.
Proof.
  unfold _is_life_safety_event, LifeSafety.
  assert (Hprio : (priority_value CRITICAL <=? priority_value (priority c))%Z = true
                  <-> priority c = CRITICAL).
  { destruct (priority c); simpl; split; intros; done. }
  assert (Hexp :
    match lite_explainer c with
    | Some explainer =>
        if String.eqb explainer "" then false
        else existsb (fun indicator => Py.contains indicator (Py.lower explainer))
                     life_safety_indicators
    | None => false
    end = true <->
    exists explainer indicator,
      lite_explainer c = Some explainer /\
      In indicator life_safety_indicators /\
      Py.contains indicator (Py.lower explainer) = true).
  { destruct (lite_explainer c) as [e|].
    - destruct (String.eqb e "") eqn:E.
      + apply String.eqb_eq in E. subst e. split; [done |].
        intros (e & ind & [= <-] & Hin & Hc). simpl in Hin.
        destruct Hin as [<-|[<-|[<-|[<-|[<-|[<-|[<-|[<-|[]]]]]]]]]; by vm_compute in Hc.
      + rewrite existsb_exists. split.
        * intros (ind & Hin & Hc). by exists e, ind.
        * intros (e' & ind & [= <-] & Hin & Hc). by exists ind.
    - split; [done | by intros (? & ? & ? & _)]. }
  destruct (match lite_explainer c with Some _ => _ | None => _ end) eqn:E1.
  { split; [intros _ | done]. right; left. by apply Hexp. }
  destruct (Py.mem (location c) _ && _) eqn:E2.
  { split; [intros _ | done]. right; right.
    apply andb_true_iff in E2 as [Hl Hp].
    split; [by apply mem_iff_In | by apply Hprio]. }
  destruct (Py.mem (mode c) _) eqn:E3.
  { split; [intros _ | done]. left. by apply mem_iff_In. }
  split; [done |]. intros [Hm | [He | [Hl Hp]]].
  - apply mem_iff_In in Hm. congruence.
  - apply Hexp in He. congruence.
  - apply mem_iff_In in Hl. apply Hprio in Hp.
    rewrite Hl, Hp in E2. done.
Qed.

(** C3, as the code has it.  A candidate whose mode is emergency or alarm,
    or whose explainer, put in lower case, contains one of the eight
    indicator substrings, or which is at the front or back door with
    priority CRITICAL, is scheduled: the call returns true, the session it
    pushes to the head of [deep_processing_emergency] holds that one event
    with K = 12 and a deadline of 2000 ms, the event is in flight, its
    record and its entry in the index of its home are gone, and the token
    buckets are neither read nor changed.  For any other candidate the call
    returns false and the state is unchanged. *)
Theorem schedule_life_safety_event_preempts
    (c : EventCandidate) (now : Q) (self : ProcessingScheduler) :
  let out := schedule_life_safety_event c now self in
  (LifeSafety c ->
     fst out = true /\
     (exists session,
        queues (snd out) !! "deep_processing_emergency"
          = Some (session :: default [] (queues self !! "deep_processing_emergency")) /\
        Queue.event_ids session = [event_id c] /\
        Queue.K session = Py.VInt 12 /\
        Queue.deadline_ms session = Py.VInt 2000 /\
        Queue.home_id session = home_id c) /\
     event_id c ∈ processing_jobs (snd out) /\
     get_candidate (event_id c) (redis (snd out)) = None /\
     ~ In (event_id c) (map fst (index (home_id c) (redis (snd out)))) /\
     token_buckets (snd out) = token_buckets self /\
     (forall buckets,
        schedule_life_safety_event c now (with_buckets buckets self)
        = (true, with_buckets buckets (snd out)))) /\
  (~ LifeSafety c -> out = (false, self)).
Proof.
  intros out. subst out. unfold schedule_life_safety_event.
  pose proof (remove_candidate_removes (event_id c) (home_id c) (redis self)) as [Hev Hidx].
  unfold remove_candidate in *. cbn [fst snd] in Hev, Hidx.
  destruct (_is_life_safety_event c) eqn:E;
    cbn [negb fst snd token_buckets queues processing_jobs redis].
  - split; [intros _ | intros Hn; by apply is_life_safety_event_iff in E].
    split_and!; try done.
    + eexists. split; [apply lookup_insert_eq | done].
    + set_solver.
    + unfold get_candidate. by rewrite Hev.
  - split; [| done]. intros H. apply is_life_safety_event_iff in H. congruence.
Qed.

(** The theorem at an event in emergency mode, on a fresh scheduler. *)
Lemma schedule_life_safety_event_preempts_witness :
  fst (schedule_life_safety_event emergency_event 0 (init 0)) = true.
Proof.
  refine (proj1 (proj1 (schedule_life_safety_event_preempts emergency_event 0 (init 0)) _)).
  left. simpl. by left.
Defined.

(** C3, as stated, fails on an explainer written in capitals: no mode,
    substring or door condition of the claim holds for it, and the call
    schedules it all the same. *)
Lemma capital_explainer_is_preempted :
  ~ In (mode smoke_in_capitals) ["emergency"; "alarm"] /\
  existsb (fun indicator => Py.contains indicator "SMOKE detected")
          life_safety_indicators = false /\
  lite_explainer smoke_in_capitals = Some "SMOKE detected" /\
  ~ In (location smoke_in_capitals) ["front_door"; "back_door"] /\
  fst (schedule_life_safety_event smoke_in_capitals 0 (init 0)) = true /\
  snd (schedule_life_safety_event smoke_in_capitals 0 (init 0)) <> init 0.
Proof.
  split_and!.
  - intros [H|[H|[]]]; discriminate H.
  - by vm_compute.
  - done.
  - intros [H|[H|[]]]; discriminate H.
  - by vm_compute.
  - intros H.
    assert (Hq : queues (snd (schedule_life_safety_event smoke_in_capitals 0 (init 0)))
                 !! "deep_processing_emergency"
                 = queues (init 0) !! "deep_processing_emergency") by (by rewrite H).
    by vm_compute in Hq.
Qed.

End SchedulerFacts.

(** ** The session worker *)

Section WorkerFacts.
Import Py DeepWorker Scenarios.

Variable ticks : nat -> Q.
Variable worker_id : string.
Variable session_event : nat -> string -> ProcessingSession -> outcome EventResult.

Local Abbreviation notify := (_notify_scheduler_completion ticks worker_id).
Local Abbreviation run_events := (process_events ticks session_event).
Local Abbreviation body := (process_session_body ticks worker_id session_event).
Local Abbreviation handler := (process_session_handler ticks worker_id).

(** The keys and lists of [w'] are those of [w]: only the clock was read. *)
Definition same_store (w w' : World) : Prop :=
  session_results w' = session_results w /\
  scheduler_completions w' = scheduler_completions w /\
  digest_queue w' = digest_queue w /\
  total_sessions_processed w' = total_sessions_processed w.

Lemma notifications_effect (ids : list string) (ok : bool) (w : World) :
  exists w',
    for_each ids (fun event_id => notify event_id ok) w = (Ok tt, w') /\
    session_results w' = session_results w /\
    digest_queue w' = digest_queue w /\
    total_sessions_processed w' = total_sessions_processed w /\
    map completion_key (scheduler_completions w')
    = rev (map (fun e => (e, worker_id, ok)) ids)
      ++ map completion_key (scheduler_completions w).
Proof.
  revert w. induction ids as [|e ids IH]; intros w.
  - exists w. by split_and!.
  - cbn [for_each]. unfold bind at 1.
    unfold _notify_scheduler_completion at 1.
    unfold try_except, bind, read_clock, LPUSH_completion. cbn [fst snd].
    match goal with |- context [for_each ids _ ?w1] =>
      destruct (IH w1) as (w' & Hrun & Hres & Hdig & Htot & Hcomp) end.
    exists w'. split; [exact Hrun |]. cbn in Hres, Hdig, Htot, Hcomp.
    split_and!; [done | done | done |].
    rewrite Hcomp. cbn [map rev]. by rewrite <- app_assoc.
Qed.

Lemma handle_session_success_effect (session : ProcessingSession)
    (result : SessionResult) (w : World) :
  exists w',
    _handle_session_success ticks worker_id session result w = (Ok tt, w') /\
    session_results w'
    = <[Queue.session_id session := (result, 86400%Z)]> (session_results w) /\
    total_sessions_processed w' = total_sessions_processed w /\
    map completion_key (scheduler_completions w')
    = rev (map (fun e => (e, worker_id, true)) (Queue.event_ids session))
      ++ map completion_key (scheduler_completions w).
Proof.
  unfold _handle_session_success, try_except.
  unfold bind at 1. unfold SETEX at 1. unfold bind at 1.
  match goal with |- context [for_each _ _ ?w1] =>
    destruct (notifications_effect (Queue.event_ids session) true w1)
      as (w2 & Hrun & Hres & Hdig & Htot & Hcomp) end.
  rewrite Hrun. unfold bind, read_clock, LPUSH_digest.
  eexists. split; [reflexivity |]. cbn in *. by split_and!.
Qed.

Lemma handle_session_failure_effect (session : ProcessingSession)
    (result : SessionResult) (w : World) :
  exists w',
    _handle_session_failure ticks worker_id session result w = (Ok tt, w') /\
    session_results w'
    = <[Queue.session_id session := (result, 86400%Z)]> (session_results w) /\
    total_sessions_processed w' = total_sessions_processed w /\
    map completion_key (scheduler_completions w')
    = rev (map (fun e => (e, worker_id, false)) (Queue.event_ids session))
      ++ map completion_key (scheduler_completions w).
Proof.
  unfold _handle_session_failure, try_except.
  unfold bind at 1. unfold SETEX at 1.
  match goal with |- context [for_each _ _ ?w1] =>
    destruct (notifications_effect (Queue.event_ids session) false w1)
      as (w2 & Hrun & Hres & Hdig & Htot & Hcomp) end.
  rewrite Hrun.
  eexists. split; [reflexivity |]. cbn in *. by split_and!.
Qed.

(** The loop never raises, touches no key or list, and starts the number of
    events [started] counts. *)
Lemma process_events_effect (session : ProcessingSession)
    (start_time deadline_seconds : Q) (todo : list string) (p : Progress) (w : World) :
  exists p' w',
    run_events session start_time deadline_seconds todo p w = (Ok p', w') /\
    same_store w w' /\
    length (p_events p')
    = (length (p_events p)
       + started ticks start_time (deadline_seconds * 1000 * (8 # 10)) (reads w)
                 (length todo))%nat /\
    (p_events p' = p_events p -> p' = p).
Proof.
  revert p w. induction todo as [|event_id rest IH]; intros p w.
  - exists p, w. cbn. split_and!; try done; lia.
  - cbn [process_events length started].
    unfold bind at 1. unfold read_clock at 1. cbn [fst snd reads].
    destruct (Qltb (deadline_seconds * 1000 * (8 # 10))
                   ((ticks (reads w) - start_time) * 1000)) eqn:Elate.
    + eexists p, _. split; [reflexivity |]. cbn. split_and!; try done; lia.
    + unfold bind at 1. unfold try_except at 1. unfold bind at 1.
      unfold _process_session_event at 1. cbn [reads].
      destruct (session_event (S (reads w)) event_id session) as [event_result|e].
      * unfold ret at 1.
        match goal with |- context [process_events _ _ _ _ _ rest ?p1 ?w1] =>
          destruct (IH p1 w1) as (p' & w' & Hrun & Hsame & Hlen & Hid) end.
        exists p', w'. split; [exact Hrun |].
        destruct Hsame as (? & ? & ? & ?). cbn in *.
        split_and!; try done.
        -- rewrite Hlen, length_app. cbn. lia.
        -- intros Heq. apply (f_equal length) in Heq.
           rewrite Hlen, length_app in Heq. cbn in Heq. lia.
      * unfold ret at 1.
        match goal with |- context [process_events _ _ _ _ _ rest ?p1 ?w1] =>
          destruct (IH p1 w1) as (p' & w' & Hrun & Hsame & Hlen & Hid) end.
        exists p', w'. split; [exact Hrun |].
        destruct Hsame as (? & ? & ? & ?). cbn in *.
        split_and!; try done.
        -- rewrite Hlen, length_app. cbn. lia.
        -- intros Heq. apply (f_equal length) in Heq.
           rewrite Hlen, length_app in Heq. cbn in Heq. lia.
Qed.

(** The divisor [max(1, processed_count)] is never zero: the division of
    the mean cannot raise. *)
Lemma truediv_guarded (x : Q) (n : nat) :
  truediv x (inject_Z (Z.max 1 (Z.of_nat n)))
  = Ok (x / inject_Z (Z.max 1 (Z.of_nat n)))%Q.
Proof.
  unfold truediv. destruct (Qeq_bool _ 0) eqn:E; [| done].
  apply Qeq_bool_iff in E. unfold Qeq in E. cbn in E. lia.
Qed.

(** The [try] block raises only while it reads the session: nothing has
    been written by then. *)
Lemma body_raises_early (session : ProcessingSession) (start_time : Q)
    (w w2 : World) (e : string) :
  body session start_time w = (Raise e, w2) ->
  w2 = w /\
  (div_1000 (Queue.deadline_ms session) = Raise e \/
   slice_to_value (Queue.K session) (Queue.event_ids session) = Raise e).
Proof.
  unfold process_session_body. unfold bind at 1. unfold lift at 1.
  destruct (div_1000 (Queue.deadline_ms session)) as [ds|e1].
  2:{ intros [= <- <-]. by split; [| left]. }
  unfold bind at 1. unfold lift at 1.
  destruct (slice_to_value (Queue.K session) (Queue.event_ids session)) as [todo|e2].
  2:{ intros [= <- <-]. by split; [| right]. }
  unfold bind at 1.
  destruct (process_events_effect session start_time ds todo
              {| p_events := []; p_total_risk := 0; p_threats := [] |} w)
    as (p' & w1 & -> & _).
  unfold bind at 1. unfold lift at 1. rewrite truediv_guarded.
  unfold bind at 1. unfold read_clock at 1. unfold bind at 1. unfold read_clock at 1.
  unfold bind at 1.
  match goal with |- context [_handle_session_success _ _ _ ?res ?w0] =>
    destruct (handle_session_success_effect session res w0) as (w3 & -> & _) end.
  unfold bind, count_session, ret. intros [=].
Qed.

(** A session whose deadline and [K] can be read runs to a successful
    result. *)
Lemma body_succeeds (session : ProcessingSession) (start_time deadline_seconds : Q)
    (todo : list string) (w : World) :
  div_1000 (Queue.deadline_ms session) = Ok deadline_seconds ->
  slice_to_value (Queue.K session) (Queue.event_ids session) = Ok todo ->
  exists res w' f,
    body session start_time w = (Ok res, w') /\
    success res = true /\ error_message res = None /\ findings res = Some f /\
    length (events_processed f)
    = started ticks start_time (deadline_seconds * 1000 * (8 # 10)) (reads w)
              (length todo) /\
    (events_processed f = [] -> (risk_score f == 0)%Q) /\
    session_results w' !! Queue.session_id session = Some (res, 86400%Z) /\
    map completion_key (scheduler_completions w')
    = rev (map (fun e => (e, worker_id, true)) (Queue.event_ids session))
      ++ map completion_key (scheduler_completions w).
Proof.
  intros Hd Hk. unfold process_session_body.
  unfold bind at 1. unfold lift at 1. rewrite Hd.
  unfold bind at 1. unfold lift at 1. rewrite Hk.
  unfold bind at 1.
  destruct (process_events_effect session start_time deadline_seconds todo
              {| p_events := []; p_total_risk := 0; p_threats := [] |} w)
    as (p' & w1 & -> & (Hres1 & Hcomp1 & Hdig1 & Htot1) & Hlen & Hid).
  unfold bind at 1. unfold lift at 1. rewrite truediv_guarded.
  unfold bind at 1. unfold read_clock at 1. unfold bind at 1. unfold read_clock at 1.
  unfold bind at 1.
  match goal with |- context [_handle_session_success _ _ _ ?res ?w0] =>
    destruct (handle_session_success_effect session res w0)
      as (w3 & -> & Hres3 & Htot3 & Hcomp3) end.
  unfold bind, count_session, ret.
  eexists _, _, _. split; [reflexivity |]. cbn in *.
  split_and!; try done.
  - intros Hnil. rewrite (Hid Hnil). cbn. reflexivity.
  - rewrite Hres3. apply lookup_insert_eq.
  - by rewrite Hcomp3, Hcomp1.
Qed.

(** C9.  Every call of [_process_session] returns a result, and whichever
    way the session went (all events processed, cut at the deadline, or an
    exception in the [try] block) it has pushed one completion record for
    each element of [event_ids], carrying the event id, the worker id and
    the success flag of the result, and has stored the result under
    [session_result:<id>] for 24 hours; when the [try] block raises, the
    stored result has success = false and the text of the exception as its
    error message, and otherwise success = true. *)
Theorem process_session_notifies_every_event (session : ProcessingSession) (w : World) :
  exists res w',
    _process_session ticks worker_id session_event session w = (Ok res, w') /\
    map completion_key (scheduler_completions w')
    = rev (map (fun e => (e, worker_id, success res)) (Queue.event_ids session))
      ++ map completion_key (scheduler_completions w) /\
    session_results w' !! Queue.session_id session = Some (res, 86400%Z) /\
    (forall e w2,
       body session (ticks (reads w)) (snd (read_clock ticks w)) = (Raise e, w2) ->
       success res = false /\ error_message res = Some e) /\
    (forall res0 w2,
       body session (ticks (reads w)) (snd (read_clock ticks w)) = (Ok res0, w2) ->
       res = res0 /\ success res = true).
Proof.
  unfold _process_session. unfold bind at 1. unfold read_clock at 1.
  unfold try_except. cbn [snd read_clock].
  set (w1 := {| session_results := session_results w;
                scheduler_completions := scheduler_completions w;
                digest_queue := digest_queue w;
                total_sessions_processed := total_sessions_processed w;
                reads := S (reads w) |}).
  destruct (body session (ticks (reads w)) w1) as [[res|e] w2] eqn:Ebody.
  - assert (exists ds todo,
              div_1000 (Queue.deadline_ms session) = Ok ds /\
              slice_to_value (Queue.K session) (Queue.event_ids session) = Ok todo)
      as (ds & todo & Hd & Hk).
    { revert Ebody. unfold process_session_body, bind, lift.
      destruct (div_1000 _); [| done]. destruct (slice_to_value _ _); [| done]. eauto. }
    destruct (body_succeeds session (ticks (reads w)) ds todo w1 Hd Hk)
      as (res' & w' & f & Hrun & Hs & He & Hf & _ & _ & Hstored & Hcomp).
    rewrite Ebody in Hrun. injection Hrun as <- <-.
    exists res, w2. split; [done |]. rewrite Hs. split_and!; try done.
    intros res0 w3 [= <- <-]. done.
  - apply body_raises_early in Ebody as [-> _].
    unfold process_session_handler.
    unfold bind at 1. unfold read_clock at 1. unfold bind at 1. unfold read_clock at 1.
    unfold bind at 1.
    match goal with |- context [_handle_session_failure _ _ _ ?res ?w0] =>
      destruct (handle_session_failure_effect session res w0)
        as (w3 & -> & Hres3 & Htot3 & Hcomp3) end.
    unfold ret. eexists _, _. split; [reflexivity |]. cbn in *.
    split_and!; try done.
    + rewrite Hres3. apply lookup_insert_eq.
    + intros e' w4 [= <- <-]. done.
Qed.

Lemma started_spec (start_time threshold_ms : Q) (next m : nat) :
  let n := started ticks start_time threshold_ms next m in
  (n <= m)%nat /\
  (forall i, (i < n)%nat ->
     ~ (threshold_ms < (ticks (next + i) - start_time) * 1000)%Q) /\
  ((n < m)%nat -> (threshold_ms < (ticks (next + n) - start_time) * 1000)%Q).
Proof.
  revert next. induction m as [|m IH]; intros next; cbn [started].
  - split_and!; [done | intros i Hi; lia | lia].
  - destruct (Qltb threshold_ms ((ticks next - start_time) * 1000)) eqn:E.
    + split_and!; [lia | intros i Hi; lia |].
      intros _. rewrite Nat.add_0_r. by apply Qltb_iff.
    + destruct (IH (S next)) as (Hle & Hbefore & Hstop). cbv zeta.
      split_and!; [lia | |].
      * intros [|i] Hi.
        -- rewrite Nat.add_0_r. rewrite <- Qltb_iff. by rewrite E.
        -- replace (next + S i)%nat with (S next + i)%nat by lia.
           apply Hbefore. lia.
      * intros Hlt.
        replace (next + S (started ticks start_time threshold_ms (S next) m))%nat
          with (S next + started ticks start_time threshold_ms (S next) m)%nat by lia.
        apply Hstop. lia.
Qed.

(** C4, as the code has it.  In a session whose deadline and [K] can be
    read, the worker starts the events of [event_ids[:K]] in order and
    stops at the first check that finds the elapsed time strictly above
    0.8 * deadline_ms: every event it started passed its check, and if it
    left events unstarted the check of the first of them was above the
    threshold.  The result has success = true and no error message,
    whatever the number of events processed, zero included. *)
Theorem process_session_stops_after_deadline (session : ProcessingSession) (w : World)
    (deadline_seconds : Q) (todo : list string) :
  div_1000 (Queue.deadline_ms session) = Ok deadline_seconds ->
  slice_to_value (Queue.K session) (Queue.event_ids session) = Ok todo ->
  exists res w' f,
    _process_session ticks worker_id session_event session w = (Ok res, w') /\
    success res = true /\ error_message res = None /\ findings res = Some f /\
    let threshold_ms := (deadline_seconds * 1000 * (8 # 10))%Q in
    let elapsed_ms i := ((ticks (S (reads w) + i) - ticks (reads w)) * 1000)%Q in
    let n := length (events_processed f) in
    (n <= length todo)%nat /\
    (forall i, (i < n)%nat -> ~ (threshold_ms < elapsed_ms i)%Q) /\
    ((n < length todo)%nat -> (threshold_ms < elapsed_ms n)%Q).
Proof.
  intros Hd Hk.
  unfold _process_session. unfold bind at 1. unfold read_clock at 1.
  unfold try_except.
  match goal with |- context [process_session_body _ _ _ _ _ ?w1] =>
    destruct (body_succeeds session (ticks (reads w)) deadline_seconds todo w1 Hd Hk)
      as (res & w' & f & -> & Hs & He & Hf & Hlen & _) end.
  exists res, w', f. do 4 (split; [done |]).
  cbv zeta. rewrite Hlen. cbn [reads]. apply started_spec.
Qed.

(** C10.  The mean risk of a session never divides by zero.
    [_process_session] always returns a result, and the result is a
    failure only when the deadline or [K] could not be read: its error
    message is then the text of that exception, never the one of a
    division by zero.  In a session whose deadline and [K] can be read the
    result says success and has findings, and findings that list no
    processed event have risk score 0.0, the sum 0.0 divided by
    max(1, 0).  That is the case when [event_ids] is empty, when [K] is 0,
    and when the first check already finds the elapsed time above the
    threshold. *)
Theorem empty_session_has_zero_risk (session : ProcessingSession) (w : World) :
  exists res w',
    _process_session ticks worker_id session_event session w = (Ok res, w') /\
    error_message res <> Some "float division by zero" /\
    (success res = false ->
     exists e, error_message res = Some e /\
       (div_1000 (Queue.deadline_ms session) = Raise e \/
        slice_to_value (Queue.K session) (Queue.event_ids session) = Raise e)) /\
    (forall ds todo,
       div_1000 (Queue.deadline_ms session) = Ok ds ->
       slice_to_value (Queue.K session) (Queue.event_ids session) = Ok todo ->
       exists f,
         success res = true /\ findings res = Some f /\
         (events_processed f = [] -> (risk_score f == 0)%Q) /\
         (Queue.event_ids session = [] \/ Queue.K session = VInt 0 \/
          (ds * 1000 * (8 # 10) < (ticks (S (reads w)) - ticks (reads w)) * 1000)%Q ->
          events_processed f = [] /\ (risk_score f == 0)%Q)).
Proof.
  unfold _process_session. unfold bind at 1. unfold read_clock at 1.
  unfold try_except. cbn [reads].
  set (w1 := {| session_results := session_results w;
                scheduler_completions := scheduler_completions w;
                digest_queue := digest_queue w;
                total_sessions_processed := total_sessions_processed w;
                reads := S (reads w) |}).
  destruct (body session (ticks (reads w)) w1) as [[res|e] w2] eqn:Ebody.
  - exists res, w2. split; [done |].
    assert (exists ds todo,
              div_1000 (Queue.deadline_ms session) = Ok ds /\
              slice_to_value (Queue.K session) (Queue.event_ids session) = Ok todo)
      as (ds & todo & Hd & Hk).
    { revert Ebody. unfold process_session_body, bind, lift.
      destruct (div_1000 _); [| done]. destruct (slice_to_value _ _); [| done]. eauto. }
    destruct (body_succeeds session (ticks (reads w)) ds todo w1 Hd Hk)
      as (res' & w'' & f & Hrun' & Hs & He & Hf & Hlen & Hzero & _).
    rewrite Ebody in Hrun'. injection Hrun' as <- <-.
    split; [by rewrite He |]. split; [by rewrite Hs |].
    intros ds' todo' Hd' Hk'.
    rewrite Hd in Hd'. injection Hd' as <-. rewrite Hk in Hk'. injection Hk' as <-.
    exists f. split_and!; [done | done | exact Hzero |].
    intros Hcase.
    assert (events_processed f = []) as Hnil; [| by split; [| apply Hzero]].
    apply length_zero_iff_nil. rewrite Hlen.
    destruct Hcase as [Hids | [HK | Hlate]].
    + rewrite Hids in Hk.
      destruct (Queue.K session); try done; injection Hk as <-; try done.
      unfold slice_to. by destruct (0 <=? z)%Z; rewrite firstn_nil.
    + rewrite HK in Hk. injection Hk as <-. done.
    + destruct todo as [|e todo]; [done |]. cbn [length started reads w1].
      apply Qltb_iff in Hlate. by rewrite Hlate.
  - apply body_raises_early in Ebody as [-> Hread].
    unfold process_session_handler.
    unfold bind at 1. unfold read_clock at 1. unfold bind at 1. unfold read_clock at 1.
    unfold bind at 1.
    match goal with |- context [_handle_session_failure _ _ _ ?r0 ?w0] =>
      destruct (handle_session_failure_effect session r0 w0) as (w3 & -> & _) end.
    unfold ret. eexists _, _. split; [reflexivity |]. cbn [error_message success].
    split_and!.
    + intros [= ->]. destruct Hread as [Hread | Hread].
      * by destruct (Queue.deadline_ms session).
      * by destruct (Queue.K session).
    + intros _. by exists e.
    + intros ds todo Hd Hk. destruct Hread as [Hread | Hread]; congruence.
Qed.

End WorkerFacts.

Section WorkerScenarios.
Import Py DeepWorker Scenarios.

(** The theorem on a session whose deadline is missing: the division
    raises, and the stored result carries the text of the exception. *)
Lemma process_session_notifies_every_event_witness :
  exists res,
    session_results
      (snd (_process_session late_clock "worker_1" person_seen
              (one_event_session (VInt 1) VNone) fresh_world)) !! "session_1"
    = Some (res, 86400%Z) /\
    success res = false /\
    error_message res = Some "unsupported operand type(s) for /: 'NoneType' and 'float'".
Proof.
  destruct (process_session_notifies_every_event late_clock "worker_1" person_seen
              (one_event_session (VInt 1) VNone) fresh_world)
    as (res & w' & Hrun & _ & Hstored & Hraise & _).
  exists res. rewrite Hrun. split; [exact Hstored |].
  eapply Hraise. vm_compute. reflexivity.
Defined.

(** The theorem on a session of one event, deadline 1000 ms, whose first
    check comes at 900 ms: no event is started, and the result says
    success. *)
Lemma process_session_stops_after_deadline_witness :
  exists res f,
    fst (_process_session late_clock "worker_1" person_seen
           (one_event_session (VInt 1) (VInt 1000)) fresh_world) = Ok res /\
    success res = true /\ findings res = Some f /\
    (length (events_processed f) <= 1)%nat.
Proof.
  destruct (process_session_stops_after_deadline late_clock "worker_1" person_seen
              (one_event_session (VInt 1) (VInt 1000)) fresh_world
              (inject_Z 1000 / 1000)%Q ["evt_1"])
    as (res & w' & f & Hrun & Hs & _ & Hf & Hn & _).
  - reflexivity.
  - reflexivity.
  - exists res, f. rewrite Hrun. split_and!; [reflexivity | exact Hs | exact Hf | exact Hn].
Defined.

(** The theorem on a session with K = 0. *)
Lemma empty_session_has_zero_risk_witness :
  exists res f,
    fst (_process_session late_clock "worker_1" person_seen
           (one_event_session (VInt 0) (VInt 1000)) fresh_world) = Ok res /\
    success res = true /\ error_message res <> Some "float division by zero" /\
    findings res = Some f /\ events_processed f = [] /\ (risk_score f == 0)%Q.
Proof.
  destruct (empty_session_has_zero_risk late_clock "worker_1" person_seen
              (one_event_session (VInt 0) (VInt 1000)) fresh_world)
    as (res & w' & Hrun & Hne & _ & H).
  destruct (H (inject_Z 1000 / 1000)%Q [] eq_refl eq_refl)
    as (f & Hs & Hf & _ & Hempty).
  destruct Hempty as [Hnil Hzero]; [right; left; reflexivity |].
  exists res, f. rewrite Hrun.
  split_and!; [reflexivity | exact Hs | exact Hne | exact Hf | exact Hnil | exact Hzero].
Defined.

(** C4, as stated, fails on a session cut before its first event: with a
    deadline of 1000 ms and the first check at 900 ms no event is
    processed, and the result has success = true and no error message,
    where the claim has success = false and [deadline-exceeded]. *)
Lemma deadline_cut_before_first_event_succeeds :
  exists res f,
    fst (_process_session late_clock "worker_1" person_seen
           (one_event_session (VInt 1) (VInt 1000)) fresh_world) = Ok res /\
    findings res = Some f /\
    events_processed f = [] /\
    success res = true /\
    error_message res = None /\
    error_message res <> Some "deadline-exceeded".
Proof. eexists _, _. vm_compute. by split_and!. Qed.

(** The check is strict: at exactly 0.8 of the deadline (800 ms of 1000)
    the event is still started. *)
Example deadline_check_is_strict :
  exists res f,
    fst (_process_session boundary_clock "worker_1" person_seen
           (one_event_session (VInt 1) (VInt 1000)) fresh_world) = Ok res /\
    findings res = Some f /\
    map r_event_id (events_processed f) = ["evt_1"].
Proof. eexists _, _. vm_compute. by split_and!. Qed.

End WorkerScenarios.

(* ================================================================== *)
(** * Further properties of the candidate store *)
(* ================================================================== *)

Section ScoreFacts.
Import CandidateStore.

Lemma py_max_0_mono (x y : Q) : (x <= y)%Q -> (Py.max 0 x <= Py.max 0 y)%Q.
Proof.
  intros Hxy. unfold Py.max.
  destruct (Py.Qltb 0 x) eqn:Ex; destruct (Py.Qltb 0 y) eqn:Ey; try lra.
  - apply Qltb_iff in Ex. apply not_true_iff_false in Ey.
    rewrite Qltb_iff in Ey. lra.
  - apply Qltb_iff in Ey. lra.
Qed.

Lemma py_max_0_nonpos (x : Q) : (x <= 0)%Q -> Py.max 0 x = 0%Q.
Proof.
  intros Hx. unfold Py.max. destruct (Py.Qltb 0 x) eqn:E; [| done].
  apply Qltb_iff in E. lra.
Qed.

Lemma tier_multiplier_pos (t : ProcessingTier) :
  (0 < 1 + inject_Z (tier_value t) * (2 # 10))%Q.
Proof. by destruct t. Qed.

(** X1.  The priority score of a candidate never grows with time: the
    only term of [calculate_score] that reads the clock is the recency
    bonus, which falls from 120 points to zero over the first hour after
    the event and stays at zero from then on, so between two reads of the
    clock the score can only fall, and a candidate older than one hour
    keeps its score. *)
Theorem calculate_score_decays (c : EventCandidate) (now1 now2 : Q) :
  (now1 <= now2)%Q ->
  (calculate_score c now2 <= calculate_score c now1)%Q /\
  ((timestamp c + 3600 <= now1)%Q ->
   (calculate_score c now2 == calculate_score c now1)%Q).
Proof.
  intros Hle. unfold calculate_score.
  set (base := ((if vehicle_detected c then _ else _) + _)%Q).
  set (m := (1 + inject_Z (tier_value (processing_tier c)) * (2 # 10))%Q).
  assert (0 < m)%Q as Hm by apply tier_multiplier_pos.
  set (age1 := (60 - (now1 - timestamp c) / 60)%Q).
  set (age2 := (60 - (now2 - timestamp c) / 60)%Q).
  assert (age2 <= age1)%Q as Hage.
  { unfold age1, age2, Qdiv. change (/ 60)%Q with (1 # 60)%Q. lra. }
  split.
  - pose proof (py_max_0_mono _ _ Hage) as Hmax.
    apply Qmult_le_compat_r; [| lra]. lra.
  - intros Hold.
    rewrite (py_max_0_nonpos age1)
      by (unfold age1, Qdiv; change (/ 60)%Q with (1 # 60)%Q; lra).
    rewrite (py_max_0_nonpos age2)
      by (unfold age2, Qdiv; change (/ 60)%Q with (1 # 60)%Q; lra).
    reflexivity.
Qed.

Lemma calculate_score_decays_witness :
  (calculate_score Scenarios.tied_a 7200 <= calculate_score Scenarios.tied_a 60)%Q /\
  (calculate_score Scenarios.tied_a 7200 == calculate_score Scenarios.tied_a 3600)%Q.
Proof.
  split.
  - apply (calculate_score_decays Scenarios.tied_a 60 7200). done.
  - apply (calculate_score_decays Scenarios.tied_a 3600 7200); done.
Defined.

End ScoreFacts.

Section StoreRoundTrips.
Import CandidateStore Invariants Scenarios.

Variable self : CandidateStore.

Lemma cleanup_noop (home : string) (r : Redis) :
  (ZCARD home r <= max_candidates_per_home self)%Z ->
  _cleanup_old_candidates self home r = r.
Proof.
  intros Hle. unfold _cleanup_old_candidates.
  destruct (Z.ltb_spec (max_candidates_per_home self) (ZCARD home r)); [lia | done].
Qed.

Lemma zdel_zinsert_same (m : string) (s : Q) (z : zset) :
  zdel [m] (zinsert (m, s) z) = zdel [m] z.
Proof.
  induction z as [|a z IH]; cbn [zinsert].
  - unfold zdel. simpl. by rewrite String.eqb_refl.
  - destruct (entry_leb (m, s) a).
    + rewrite (zdel_one_cons m (m, s)). cbn [fst]. by rewrite String.eqb_refl.
    + rewrite !zdel_one_cons, IH. done.
Qed.

Lemma zadd_own_entry (m : string) (s : Q) (z : zset) : In (m, s) (zadd m s z).
Proof. apply zadd_In. by left. Qed.

(** The new-record path when the home is below its cap: nothing is
    trimmed. *)
Lemma add_candidate_new_below_cap (c : EventCandidate) (now : Q) (unix_now : Z)
    (r : Redis) :
  ev r !! event_id c = None ->
  (Z.of_nat (length (index (home_id c) r)) < max_candidates_per_home self)%Z ->
  let r' := snd (add_candidate self c now unix_now r) in
  ev r' = <[event_id c := c]> (ev r) /\
  (forall h, index h r' =
             if decide (home_id c = h)
             then zadd (event_id c) (calculate_score c now) (index h r)
             else index h r).
Proof.
  intros Hnew Hlen.
  destruct (add_candidate_new self c now unix_now r Hnew) as (r0 & -> & Hev & Hidx).
  cbn [snd]. rewrite cleanup_noop; [done |].
  unfold ZCARD. rewrite Hidx. destruct (decide (home_id c = home_id c)); [| done].
  pose proof (zadd_length_le (event_id c) (calculate_score c now) (index (home_id c) r)).
  lia.
Qed.

(** X2.  Round trip of a write and a read.  After [add_candidate] stores
    an event that had no record, in a home below its cap,
    [get_candidate] returns that candidate as the hash decodes it (an
    absent confidence reads as 0.0, an explainer spelling None as
    absent), the other records read as before, and the index of the home
    holds the event at the score computed by the call.  The candidate is
    one whose identifiers, URL, location and mode are not the text None,
    which the reader would take for absent values. *)
Theorem get_candidate_after_add (c : EventCandidate) (now : Q) (unix_now : Z)
    (r : Redis) :
  Keyed.no_None_text c ->
  ev r !! event_id c = None ->
  (Z.of_nat (length (index (home_id c) r)) < max_candidates_per_home self)%Z ->
  let r' := snd (add_candidate self c now unix_now r) in
  get_candidate (event_id c) r' = Some (decode c) /\
  (forall id, id <> event_id c -> get_candidate id r' = get_candidate id r) /\
  In (event_id c, calculate_score c now) (index (home_id c) r').
Proof.
  intros _ Hnew Hlen r'.
  destruct (add_candidate_new_below_cap c now unix_now r Hnew Hlen) as [Hev Hidx].
  fold r' in Hev, Hidx. unfold get_candidate. rewrite Hev. split_and!.
  - by rewrite lookup_insert_eq.
  - intros id Hid. by rewrite lookup_insert_ne.
  - rewrite Hidx. destruct (decide (home_id c = home_id c)); [| done].
    apply zadd_own_entry.
Qed.

(** X3.  [remove_candidate] undoes [add_candidate]: when an event that
    the store does not know (no record, no entry in the index of its
    home) is added to a home below its cap and then removed, every
    record and every index is as before the two calls. *)
Theorem remove_candidate_undoes_add (c : EventCandidate) (now : Q) (unix_now : Z)
    (r : Redis) :
  ev r !! event_id c = None ->
  ~ In (event_id c) (members (index (home_id c) r)) ->
  (Z.of_nat (length (index (home_id c) r)) < max_candidates_per_home self)%Z ->
  let r1 := snd (add_candidate self c now unix_now r) in
  let r2 := snd (remove_candidate (event_id c) (home_id c) r1) in
  ev r2 = ev r /\ (forall h, index h r2 = index h r).
Proof.
  intros Hnew Hnot Hlen r1 r2.
  destruct (add_candidate_new_below_cap c now unix_now r Hnew Hlen) as [Hev Hidx].
  fold r1 in Hev, Hidx. unfold r2, remove_candidate. cbn [snd]. split.
  - cbn [DEL_ev ev]. rewrite ev_ZREM, Hev. by apply delete_insert_id.
  - intros h.
    change (index h (DEL_ev (event_id c) (ZREM (home_id c) [event_id c] r1)))
      with (index h (ZREM (home_id c) [event_id c] r1)).
    rewrite index_ZREM, Hidx.
    destruct (decide (home_id c = h)) as [<-|]; [| done].
    unfold zadd. rewrite zdel_zinsert_same.
    rewrite (zdel_absent _ (index (home_id c) r)) by done.
    by apply zdel_absent.
Qed.

(** X4.  [update_candidate_score] touches one index only.  It answers
    false exactly when the event has no record, and then changes
    nothing; otherwise it leaves every record and the index of every
    other home as they are and writes the event, at the score of its
    stored record, into the index of the home it was given, whether or
    not the record names that home. *)
Theorem update_candidate_score_effect (id home : string) (now : Q) (r : Redis) :
  let ok := fst (update_candidate_score id home now r) in
  let r' := snd (update_candidate_score id home now r) in
  (ok = false <-> ev r !! id = None) /\
  (ok = false -> r' = r) /\
  ev r' = ev r /\
  (forall h, h <> home -> index h r' = index h r) /\
  (forall c, ev r !! id = Some c ->
     index home r' = zadd id (calculate_score (decode c) now) (index home r) /\
     In (id, calculate_score (decode c) now) (index home r')).
Proof.
  unfold update_candidate_score, get_candidate.
  destruct (ev r !! id) as [c|] eqn:E; cbn [fmap option_fmap option_map fst snd].
  - split_and!; try done.
    + intros h Hh. rewrite index_ZADD. by destruct (decide (home = h)).
    + intros c0 [= <-]. rewrite index_ZADD.
      destruct (decide (home = home)); [| done]. split; [done |].
      apply zadd_own_entry.
  - by split_and!.
Qed.

End StoreRoundTrips.

Section StoreRoundTripExamples.
Import CandidateStore Invariants Scenarios Examples.

Lemma get_candidate_after_add_witness :
  get_candidate "evt_a" (snd (add_candidate init tied_a 0 0 empty_redis))
  = Some (decode tied_a).
Proof.
  destruct (get_candidate_after_add init tied_a 0 0 empty_redis) as (H & _ & _);
    [| reflexivity | | exact H].
  - repeat constructor; by vm_compute.
  - vm_compute. reflexivity.
Defined.

Lemma remove_candidate_undoes_add_witness :
  ev (snd (remove_candidate "evt_a" "home_abc"
             (snd (add_candidate init tied_a 0 0 one_event)))) = ev one_event.
Proof.
  destruct (remove_candidate_undoes_add init tied_a 0 0 one_event) as (H & _);
    [reflexivity | | | exact H].
  - vm_compute. intuition congruence.
  - vm_compute. reflexivity.
Defined.

(** The cap on a new event: the first event of an empty store. *)
Lemma add_candidate_new_within_cap_witness :
  (Z.of_nat (length (index "home_abc" (snd (add_candidate init tied_a 0 0 empty_redis))))
   <= 2000)%Z.
Proof.
  apply (add_candidate_new_within_cap init tied_a 0 0 empty_redis "home_abc");
    [reflexivity | reflexivity | done | done].
Defined.

(** Eviction in a store capped at one candidate per home: the event of
    higher priority takes the place of [evt_x]. *)
Lemma add_candidate_evicts_lowest_witness :
  index "home_abc" (snd (add_candidate small_store urgent_a 0 0 one_event))
  = [("evt_a", calculate_score urgent_a 0)] /\
  ev (snd (add_candidate small_store urgent_a 0 0 one_event)) !! "evt_x" = None.
Proof.
  destruct (add_candidate_evicts_lowest small_store urgent_a 0 0 one_event
              ("evt_x", calculate_score first_report 0) []) as (H1 & _ & H3).
  - reflexivity.
  - vm_compute. reflexivity.
  - vm_compute. reflexivity.
  - reflexivity.
  - vm_compute. intuition congruence.
  - vm_compute. reflexivity.
  - split; [exact H1 | exact H3].
Defined.

End StoreRoundTripExamples.

Section ListingFacts.
Import CandidateStore CandidateApi Invariants Scenarios.

Lemma map_fst_imap_keyed {A} (f : nat -> A -> Q) (l : list A) :
  map fst (imap (fun i c => (c, f i c)) l) = l.
Proof.
  revert f. induction l as [|a l IH]; intros f; [done |].
  cbn [imap map fst]. f_equal. apply (IH (fun i c => f (S i) c)).
Qed.

Lemma slice_to_In {A} (k : Z) (l : list A) (x : A) :
  In x (Py.slice_to k l) -> In x l.
Proof.
  unfold Py.slice_to. intros H. apply list_elem_of_In in H. apply list_elem_of_In.
  destruct (0 <=? k)%Z; by eapply subseteq_take.
Qed.

Lemma slice_to_length {A} (k : Z) (l : list A) :
  (0 <= k)%Z -> (length (Py.slice_to k l) <= Z.to_nat k)%nat.
Proof.
  intros Hk. unfold Py.slice_to.
  destruct (Z.leb_spec 0 k); [| lia]. rewrite length_firstn. lia.
Qed.

(** What the two listings have in common: every element passed the
    filter and came from the top candidates of one of the homes. *)
Lemma listing_In (keep : EventCandidate -> bool) (limit : Z) (homes : list string)
    (clock : nat -> Q) (r : Redis) (c : EventCandidate) :
  In c (Py.slice_to limit
          (map fst (sort_desc
             (imap (fun i c => (c, calculate_score c (clock i)))
                (flat_map (fun home => List.filter keep (get_top_candidates home limit r))
                          homes))))) ->
  keep c = true /\
  exists home, In home homes /\ In c (get_top_candidates home limit r).
Proof.
  intros Hin. apply slice_to_In in Hin.
  eapply Permutation_in in Hin.
  2:{ apply Permutation_map. apply sort_desc_Permutation. }
  rewrite map_fst_imap_keyed in Hin.
  apply in_flat_map in Hin as (home & Hhome & Hc).
  apply filter_In in Hc as [Hc Hkeep]. eauto.
Qed.

Lemma get_top_candidates_In (home : string) (limit : Z) (r : Redis)
    (c : EventCandidate) :
  In c (get_top_candidates home limit r) ->
  exists id, In id (members (index home r)) /\ get_candidate id r = Some c.
Proof.
  unfold get_top_candidates, ZREVRANGE_withscores. intros Hin.
  apply list_elem_of_In, list_elem_of_omap in Hin as (e & He & Hget).
  exists (fst e). split; [| done].
  apply list_elem_of_In, range_In, in_rev in He.
  unfold members. apply in_map_iff. by exists e.
Qed.

Lemma omap_length_le {A B} (f : A -> option B) (l : list A) :
  (length (omap f l) <= length l)%nat.
Proof.
  induction l as [|a l IH]; [done |]. cbn [omap list_omap].
  destruct (f a); cbn [length]; lia.
Qed.

Lemma get_top_candidates_length (home : string) (limit : Z) (r : Redis) :
  (1 <= limit)%Z -> (length (get_top_candidates home limit r) <= Z.to_nat limit)%nat.
Proof.
  intros Hl. unfold get_top_candidates, ZREVRANGE_withscores.
  etransitivity; [apply omap_length_le |].
  rewrite range_prefix by lia. rewrite length_firstn. lia.
Qed.

(** X5.  The limit of [get_top_candidates].  A limit of at least one
    bounds the length of the answer.  A limit of zero does not give an
    empty answer: the range sent to Redis is then 0 .. -1, the whole
    sorted set, and the answer lists every indexed event that has a
    record, highest score first. *)
Theorem get_top_candidates_limit (home : string) (r : Redis) :
  (forall limit, (1 <= limit)%Z ->
     (length (get_top_candidates home limit r) <= Z.to_nat limit)%nat) /\
  get_top_candidates home 0 r
  = omap (fun e : zentry => get_candidate (fst e) r) (rev (index home r)).
Proof.
  split; [intros limit; apply get_top_candidates_length |].
  unfold get_top_candidates, ZREVRANGE_withscores. f_equal.
  unfold range. cbn [Z.ltb Z.compare Z.sub Z.add Z.opp Z.pos_sub].
  set (l := rev (index home r)).
  change (0 <? 0)%Z with false. change (0 - 1 <? 0)%Z with true. cbv iota.
  destruct (Z.ltb_spec (Z.min (Z.of_nat (length l) + (0 - 1)) (Z.of_nat (length l) - 1)) 0).
  - destruct l; [done | cbn [length] in *; lia].
  - rewrite drop_0. apply firstn_all2. lia.
Qed.

(** X6.  [get_candidates_by_tier] returns only candidates of the tier
    asked for, each the decoded record of an event indexed under one of
    the homes, and at most [limit] of them when [limit] is not
    negative. *)
Theorem get_candidates_by_tier_sound (tier : ProcessingTier) (limit : Z)
    (homes : list string) (clock : nat -> Q) (r : Redis) :
  let result := get_candidates_by_tier tier limit homes clock r in
  (forall c, In c result ->
     processing_tier c = tier /\
     exists home id, In home homes /\ In id (members (index home r)) /\
                     get_candidate id r = Some c) /\
  ((0 <= limit)%Z -> (length result <= Z.to_nat limit)%nat).
Proof.
  split.
  - intros c Hin. apply listing_In in Hin as (Hkeep & home & Hhome & Hc).
    apply bool_decide_eq_true in Hkeep. split; [done |].
    apply get_top_candidates_In in Hc as (id & Hid & Hget). eauto.
  - apply slice_to_length.
Qed.

(** X7.  [get_pending_candidates] returns only candidates whose stored
    record has no lite result ([lite_processed] false), each the decoded
    record of an event indexed under one of the homes, at most [limit]
    of them when [limit] is not negative, in descending order of the
    scores computed when the list was sorted (each the score of its
    candidate at one reading of the clock). *)
Theorem get_pending_candidates_sound (limit : Z) (homes : list string)
    (clock : nat -> Q) (r : Redis) :
  let result := get_pending_candidates limit homes clock r in
  (forall c, In c result ->
     lite_processed c = false /\
     exists home id, In home homes /\ In id (members (index home r)) /\
                     get_candidate id r = Some c) /\
  ((0 <= limit)%Z -> (length result <= Z.to_nat limit)%nat) /\
  exists keyed : list (EventCandidate * Q),
    result = Py.slice_to limit (map fst keyed) /\
    StronglySorted (fun a b => (snd b <= snd a)%Q) keyed /\
    Forall (fun p => exists i, snd p = calculate_score (fst p) (clock i)) keyed.
Proof.
  split_and!.
  - intros c Hin. apply listing_In in Hin as (Hkeep & home & Hhome & Hc).
    apply negb_true_iff in Hkeep. split; [done |].
    apply get_top_candidates_In in Hc as (id & Hid & Hget). eauto.
  - apply slice_to_length.
  - eexists. split; [reflexivity |]. split; [apply sort_desc_sorted |].
    eapply Permutation_Forall;
      [symmetry; apply sort_desc_Permutation |].
    apply (imap_keyed_Forall (fun i c => calculate_score c (clock i))).
Qed.

End ListingFacts.

(* ================================================================== *)
(** * The API helpers and the hooks *)
(* ================================================================== *)

Section ApiFacts.
Import CandidateStore CandidateApi Integration Invariants Keyed.

Variable md5_hexdigest : string -> string.
Variable fromisoformat : string -> Py.outcome Q.

Local Abbreviation create :=
  (create_event_candidate_from_api md5_hexdigest fromisoformat).

(** X10.  [create_event_candidate_from_api] returns a candidate exactly
    when the event data has the keys event_id, user_id and image_url and
    its timestamp is a [datetime] object.  With the timestamp as text it
    always raises: the text is parsed for the candidate's own time
    stamp, but [calculate_time_factor] is handed the text itself and
    reads its [hour].  [on_new_event] then raises too, before it reaches
    the store. *)
Theorem create_event_candidate_needs_datetime (event_data : EventData)
    (lite_results : option LiteResults) :
  ((exists c, create event_data lite_results = Py.Ok c) <->
   is_Some (ed_event_id event_data) /\ is_Some (ed_user_id event_data) /\
   is_Some (ed_image_url event_data) /\
   exists epoch hour, ed_timestamp event_data = Some (DateTime epoch hour)) /\
  (forall s, ed_timestamp event_data = Some (Text s) ->
     (exists e, create event_data lite_results = Py.Raise e) /\
     forall store now unix_now r,
       exists e, on_new_event store md5_hexdigest fromisoformat event_data
                   now unix_now r = Py.Raise e).
Proof.
  unfold on_new_event, create_event_candidate_from_api.
  destruct event_data as [eid uid hid ts url loc md prio motion]. cbn.
  destruct uid as [uid|]; cbn.
  2:{ split; [| intros s ->; split; eauto].
      split; [by intros [c [=]] | by intros (_ & [? [=]] & _)]. }
  destruct eid as [eid|]; cbn.
  2:{ split; [| intros s ->; split; eauto].
      split; [by intros [c [=]] | by intros ([? [=]] & _)]. }
  destruct ts as [[s|epoch hour]|]; cbn.
  - split.
    + split.
      * destruct (fromisoformat s); cbn; [| by intros [c [=]]].
        destruct url; cbn; by intros [c [=]].
      * by intros (_ & _ & _ & epoch & hour & [=]).
    + intros s' _.
      destruct (fromisoformat s); cbn; [| split; eauto].
      destruct url; cbn; split; eauto.
  - split; [| by intros s [=]].
    destruct url as [url|]; cbn.
    + split; [intros _ | eauto]. split_and!; eauto.
    + split; [by intros [c [=]] | by intros (_ & _ & [? [=]] & _)].
  - split; [| by intros s [=]].
    split; [by intros [c [=]] | by intros (_ & _ & _ & epoch & hour & [=])].
Qed.

Lemma calculate_time_factor_bounds (hour : Z) :
  (1 <= calculate_time_factor hour <= 15 # 10)%Q.
Proof.
  unfold calculate_time_factor.
  destruct ((8 <=? hour)%Z && (hour <=? 18)%Z); [by split |].
  destruct ((22 <=? hour)%Z || (hour <=? 6)%Z); by split.
Qed.

Lemma get_location_importance_bounds (location : string) :
  (8 # 10 <= get_location_importance location <= 15 # 10)%Q.
Proof.
  unfold get_location_importance, Py.get.
  destruct (importance_map !! Py.lower location) as [v|] eqn:E; [| by split].
  cbn [default]. unfold importance_map in E.
  apply elem_of_list_to_map_2 in E.
  repeat (apply elem_of_cons in E as [[= _ ->]|E]; [by split |]).
  by apply elem_of_nil in E.
Qed.

Lemma lower_ascii_idem (c : ascii) : Py.lower_ascii (Py.lower_ascii c) = Py.lower_ascii c.
Proof.
  unfold Py.lower_ascii.
  destruct (Nat.leb 65 (nat_of_ascii c) && Nat.leb (nat_of_ascii c) 90) eqn:E.
  - apply andb_true_iff in E as [H1 H2].
    apply Nat.leb_le in H1, H2.
    rewrite nat_ascii_embedding by lia.
    replace (Nat.leb (nat_of_ascii c + 32) 90) with false
      by (symmetry; apply Nat.leb_gt; lia).
    by rewrite andb_false_r.
  - by rewrite E.
Qed.

Lemma lower_idem (s : string) : Py.lower (Py.lower s) = Py.lower s.
Proof.
  induction s as [|c s IH]; [done |]. cbn [Py.lower].
  by rewrite lower_ascii_idem, IH.
Qed.

(** X11.  What [create_event_candidate_from_api] builds.  Every candidate
    it returns is of tier STANDARD and never of priority LOW: the
    priority is CRITICAL exactly when the event data carries a priority
    of 3 or more, otherwise HIGH exactly when the lite results report a
    person, otherwise NORMAL.  The candidate is marked lite-processed
    exactly when lite results were passed, its time-of-day factor lies
    in [1.0, 1.5] and its location importance in [0.8, 1.5], and the
    importance does not depend on the case of the location. *)
Theorem create_event_candidate_shape (event_data : EventData)
    (lite_results : option LiteResults) (c : EventCandidate) :
  create event_data lite_results = Py.Ok c ->
  processing_tier c = STANDARD /\
  priority c <> LOW /\
  (priority c = CRITICAL <-> (3 <= default 1 (ed_priority event_data))%Z) /\
  (priority c = HIGH <->
   (default 1 (ed_priority event_data) < 3)%Z /\ person_detected c = true) /\
  (lite_processed c = true <-> is_Some lite_results) /\
  (1 <= time_of_day_factor c <= 15 # 10)%Q /\
  (8 # 10 <= location_importance c <= 15 # 10)%Q /\
  location_importance c = get_location_importance (Py.lower (location c)).
Proof.
  unfold create_event_candidate_from_api.
  destruct (ed_user_id event_data); cbn; [| done].
  destruct (ed_event_id event_data); cbn; [| done].
  destruct (ed_timestamp event_data) as [[iso|epoch hour]|]; cbn; [| | done].
  { destruct (fromisoformat iso); cbn; [| done]. by destruct (ed_image_url event_data). }
  destruct (ed_image_url event_data); cbn; [| done].
  intros [= <-]. cbn.
  pose proof (calculate_time_factor_bounds hour) as Htime.
  pose proof (get_location_importance_bounds
                (default "unknown" (ed_location event_data))) as Hloc.
  split; [done |].
  repeat apply conj; try done.
  - destruct (3 <=? _)%Z; [done |]. by destruct (Py.get _ "person" false).
  - destruct (Z.leb_spec 3%Z (default 1%Z (ed_priority event_data))); [done |].
    destruct (Py.get _ "person" false); intros [=].
  - destruct (Z.leb_spec 3%Z (default 1%Z (ed_priority event_data))); [done | lia].
  - destruct (Z.leb_spec 3%Z (default 1%Z (ed_priority event_data))); [intros [=] |].
    destruct (Py.get _ "person" false); [done | intros [=]].
  - destruct (Z.leb_spec 3%Z (default 1%Z (ed_priority event_data))); [lia |].
    by intros [_ ->].
  - apply bool_decide_eq_true.
  - apply bool_decide_eq_true.
  - apply Htime.
  - apply Htime.
  - apply Hloc.
  - apply Hloc.
  - unfold get_location_importance. by rewrite lower_idem.
Qed.

End ApiFacts.

Section HookFacts.
Import CandidateStore CandidateApi Integration Invariants Keyed.

Variable self : CandidateStore.

Lemma records_keyed_empty : records_keyed empty_redis.
Proof. intros id c. cbn. by rewrite lookup_empty. Qed.

Lemma add_candidate_keyed (c : EventCandidate) (now : Q) (unix_now : Z) (r : Redis) :
  (0 <= max_candidates_per_home self)%Z ->
  records_keyed r -> records_keyed (snd (add_candidate self c now unix_now r)).
Proof.
  intros Hcap Hk id c0. destruct (ev r !! event_id c) as [c1|] eqn:E.
  - destruct (add_candidate_existing self c now unix_now r) as (_ & Hev & _);
      [by eexists |].
    rewrite Hev. apply Hk.
  - destruct (add_candidate_new self c now unix_now r E) as (r0 & -> & Hev & _).
    cbn [snd]. rewrite cleanup_ev by done.
    destruct (Py.mem id _); [done |]. rewrite Hev.
    destruct (decide (event_id c = id)) as [<-|Hne].
    + rewrite lookup_insert_eq. by intros [= <-].
    + rewrite lookup_insert_ne by done. apply Hk.
Qed.

Lemma remove_candidate_keyed (id home : string) (r : Redis) :
  records_keyed r -> records_keyed (snd (remove_candidate id home r)).
Proof.
  intros Hk i c. unfold remove_candidate. cbn [snd DEL_ev ev].
  rewrite ev_ZREM. intros H. apply lookup_delete_Some in H as [_ H]. by apply Hk.
Qed.

(** What [on_lite_results] hands to [add_candidate] names the event it
    was read under. *)
Lemma on_lite_results_unfold (id : string) (lite : LiteResults) (now : Q)
    (unix_now : Z) (r : Redis) (c : EventCandidate) :
  ev r !! id = Some c ->
  exists c', on_lite_results self id lite now unix_now r
             = snd (add_candidate self c' now unix_now r) /\
             event_id c' = event_id c /\ home_id c' = home_id c.
Proof.
  intros E. unfold on_lite_results, get_candidate. rewrite E. cbn.
  eexists. split; [reflexivity |]. done.
Qed.

(** X12.  [on_lite_results] never stores the lite results.  The hook
    reads the candidate, sets the lite fields on the object it read and
    hands it to [add_candidate], which finds the record in place and
    only rewrites the score: every stored record, and so every answer of
    [get_candidate], is the same after the call as before, only the index of
    the record's home can change, and for an unknown event nothing
    changes at all. *)
Theorem on_lite_results_keeps_records (id : string) (lite : LiteResults)
    (now : Q) (unix_now : Z) (r : Redis) :
  records_keyed r ->
  let r' := on_lite_results self id lite now unix_now r in
  ev r' = ev r /\
  (forall i, get_candidate i r' = get_candidate i r) /\
  (forall c h, ev r !! id = Some c -> h <> home_id c -> index h r' = index h r) /\
  (ev r !! id = None -> r' = r).
Proof.
  intros Hk r'.
  assert (ev r' = ev r) as Hev.
  { unfold r'. destruct (ev r !! id) as [c|] eqn:E.
    - destruct (on_lite_results_unfold id lite now unix_now r c E) as (c' & -> & Hid & _).
      destruct (add_candidate_existing self c' now unix_now r) as (_ & H & _); [| done].
      rewrite Hid, (Hk _ _ E). by eexists.
    - unfold on_lite_results, get_candidate. by rewrite E. }
  split_and!; [done | | |].
  - intros i. unfold get_candidate. by rewrite Hev.
  - intros c h E Hh. unfold r'.
    destruct (on_lite_results_unfold id lite now unix_now r c E) as (c' & -> & Hid & Hhome).
    destruct (add_candidate_existing self c' now unix_now r) as (_ & _ & H).
    { rewrite Hid, (Hk _ _ E). by eexists. }
    rewrite H, Hhome. by destruct (decide (home_id c = h)).
  - intros E. unfold r', on_lite_results, get_candidate. by rewrite E.
Qed.

(** X13.  The operations keep the store consistent.  If every index is a
    well-formed sorted set (ascending, no member twice) and every record
    is stored under its own event id, the same holds after
    [add_candidate], [remove_candidate], [update_candidate_score] and
    [on_lite_results], whatever their arguments. *)
Theorem store_invariants_preserved (c : EventCandidate) (id home : string)
    (lite : LiteResults) (now : Q) (unix_now : Z) (r : Redis) :
  (0 <= max_candidates_per_home self)%Z ->
  store_ok r -> records_keyed r ->
  let consistent r' := store_ok r' /\ records_keyed r' in
  consistent (snd (add_candidate self c now unix_now r)) /\
  consistent (snd (remove_candidate id home r)) /\
  consistent (snd (update_candidate_score id home now r)) /\
  consistent (on_lite_results self id lite now unix_now r).
Proof.
  intros Hcap Hok Hk. cbv zeta. split_and!.
  - by apply add_candidate_ok.
  - by apply add_candidate_keyed.
  - by apply remove_candidate_ok.
  - by apply remove_candidate_keyed.
  - by apply update_candidate_score_ok.
  - intros i c0. unfold update_candidate_score. destruct (get_candidate id r); [| apply Hk].
    cbn [snd ZADD ev]. apply Hk.
  - destruct (ev r !! id) as [c0|] eqn:E.
    + destruct (on_lite_results_unfold id lite now unix_now r c0 E) as (c' & -> & _).
      by apply add_candidate_ok.
    + unfold on_lite_results, get_candidate. by rewrite E.
  - destruct (ev r !! id) as [c0|] eqn:E.
    + destruct (on_lite_results_unfold id lite now unix_now r c0 E) as (c' & -> & _).
      by apply add_candidate_keyed.
    + unfold on_lite_results, get_candidate. by rewrite E.
Qed.

End HookFacts.

Section ApiExamples.
Import CandidateStore CandidateApi Integration Invariants Keyed Scenarios Examples.

(** The event data with its time stamp as a [datetime] object at noon:
    the candidate is of tier STANDARD and its location, spelt
    [Front_Door], weighs 1.5. *)
Lemma create_event_candidate_shape_witness :
  exists c,
    create_event_candidate_from_api md5_stub iso_stub (api_event (DateTime 0 12))
      (Some person_result) = Py.Ok c /\
    processing_tier c = STANDARD /\ priority c = HIGH /\
    (location_importance c == 15 # 10)%Q.
Proof.
  eexists. split; [reflexivity |].
  destruct (create_event_candidate_shape md5_stub iso_stub (api_event (DateTime 0 12))
              (Some person_result) _ eq_refl) as (Ht & _ & _ & Hh & _).
  split; [exact Ht |]. split; [| reflexivity].
  apply Hh. split; [reflexivity | reflexivity].
Defined.

Lemma one_event_keyed : records_keyed one_event.
Proof.
  apply (add_candidate_keyed init first_report 0 0 empty_redis); [done |].
  apply records_keyed_empty.
Qed.

(** Lite results for the one event of the store: its record still says
    that it has none. *)
Lemma on_lite_results_keeps_records_witness :
  (lite_processed <$> get_candidate "evt_x"
     (on_lite_results init "evt_x" person_result 60 60 one_event)) = Some false.
Proof.
  destruct (on_lite_results_keeps_records init "evt_x" person_result 60 60 one_event
              one_event_keyed) as (_ & H & _).
  rewrite H. reflexivity.
Defined.

(** A second event added to the store of one event: the index of the
    home is still a well-formed sorted set, and the record of the new
    event names it. *)
Lemma store_invariants_preserved_witness :
  zset_ok (index "home_abc" (snd (add_candidate init tied_a 0 0 one_event))) /\
  event_id <$> ev (snd (add_candidate init tied_a 0 0 one_event)) !! "evt_a"
  = Some "evt_a".
Proof.
  destruct (store_invariants_preserved init tied_a "evt_x" "home_abc" person_result
              0 0 one_event) as ((Hok & Hkeyed) & _).
  - done.
  - apply (add_candidate_ok init first_report 0 0 empty_redis); [done |].
    apply empty_redis_ok.
  - apply one_event_keyed.
  - split; [apply Hok |].
    destruct (ev (snd (add_candidate init tied_a 0 0 one_event)) !! "evt_a")
      as [c|] eqn:E; [| by vm_compute in E].
    cbn. f_equal. by apply Hkeyed.
Defined.

End ApiExamples.

(* ================================================================== *)
(** * Further properties of the token buckets *)
(* ================================================================== *)

Section TokenBucketFacts.
Import CandidateStore Scheduler.

Lemma py_min_cases (a b : Q) :
  (Py.min a b <= a)%Q /\ (Py.min a b <= b)%Q /\ (Py.min a b = a \/ Py.min a b = b).
Proof.
  unfold Py.min. destruct (Py.Qltb b a) eqn:E.
  - apply Qltb_iff in E. split_and!; [lra | lra | by right].
  - apply not_true_iff_false in E. rewrite Qltb_iff in E.
    split_and!; [lra | lra | by left].
Qed.

Lemma Qltb_false_iff (x y : Q) : Py.Qltb x y = false <-> (y <= x)%Q.
Proof.
  rewrite <- not_true_iff_false, Qltb_iff. split; [apply Qnot_lt_le | apply Qle_not_lt].
Qed.


(** X15.  In binary64 the wait [time_until_tokens] reports is not
    always enough.  For every limit per minute from 1 to 120, take the
    bucket [_initialize_token_buckets] creates and empty it at time 0: a
    [consume] of one token is refused at once and the reported wait is
    positive, but the [consume] made exactly that wait later is refused
    for the limits 17, 34, 53, 57, 59, 68, 91, 106, 111, 114 and 118,
    where the refill rounds below one token, and granted for the others;
    in exact arithmetic it is granted for every one of them. *)
Theorem binary64_wait_can_fall_short (limit_per_minute : Z) :
  (1 <= limit_per_minute <= 120)%Z ->
  let b := BucketBinary64.emptied limit_per_minute in
  let exact := BucketBinary64.emptied_exact limit_per_minute in
  fst (BucketBinary64.consume 1 0 b) = false /\
  exists wait,
    BucketBinary64.time_until_tokens 1 b = Py.Ok wait /\
    (0 <? wait)%float = true /\
    (fst (BucketBinary64.consume 1 wait b) = false
     <-> In limit_per_minute BucketBinary64.short_limits) /\
    fst (consume 1 (0 + time_until_tokens 1 exact) exact) = true.
Proof.
  intros Hrange.
  assert (forallb BucketBinary64.wait_checked (map Z.of_nat (seq 1 120)) = true)
    as Hall by (vm_compute; reflexivity).
  assert (BucketBinary64.wait_checked limit_per_minute = true) as Hchecked.
  { apply (proj1 (forallb_forall _ _) Hall). apply in_map_iff.
    exists (Z.to_nat limit_per_minute). split; [lia |]. apply in_seq. lia. }
  clear Hall. unfold BucketBinary64.wait_checked in Hchecked. cbv zeta.
  destruct (BucketBinary64.time_until_tokens 1 _) as [wait|]; [| done].
  repeat (apply andb_prop in Hchecked as [Hchecked ?]).
  apply negb_true_iff in Hchecked. split; [done |].
  exists wait. split_and!; [done | done | | done].
  match goal with H : Bool.eqb _ _ = true |- _ => apply Bool.eqb_prop in H; rename H into Hiff end.
  rewrite <- negb_true_iff, Hiff. rewrite existsb_exists. split.
  - intros (x & Hin & Heq). apply Z.eqb_eq in Heq. by subst.
  - intros Hin. exists limit_per_minute. split; [done | apply Z.eqb_refl].
Qed.

(** The dictionary of buckets while [_initialize_token_buckets] runs: a
    tier that the rest of the limits does not name keeps what it has. *)
Lemma initialize_untouched (limits : list (ProcessingTier * Z)) (now : Q)
    (buckets : gmap ProcessingTier TokenBucket) (tier : ProcessingTier) :
  ~ In tier (map fst limits) ->
  fold_left
    (fun buckets '(tier, limit_per_minute) =>
       if (0 <? limit_per_minute)%Z then
         <[tier := {| capacity := limit_per_minute;
                      tokens := inject_Z limit_per_minute;
                      refill_rate := (inject_Z limit_per_minute / 60)%Q;
                      last_refill := now |}]> buckets
       else buckets)
    limits buckets !! tier = buckets !! tier.
Proof.
  revert buckets. induction limits as [|[t l] limits IH]; intros buckets Hn; [done |].
  cbn [fold_left]. rewrite IH.
  - destruct (0 <? l)%Z; [| done]. apply lookup_insert_ne.
    intros ->. apply Hn. by left.
  - intros H. apply Hn. by right.
Qed.

(** X16.  [_initialize_token_buckets] gives a bucket to the tiers with a
    positive limit and to no other: a tier whose limit per minute is
    positive starts with a full bucket of that capacity, refilled at
    limit / 60 tokens per second from the time of the call, and a tier
    with a limit of zero or less, or with no limit at all, has no bucket
    (the configuration is a dictionary: no tier is listed twice). *)
Theorem initialize_token_buckets_spec (limits : list (ProcessingTier * Z)) (now : Q)
    (tier : ProcessingTier) :
  NoDup (map fst limits) ->
  (forall limit, In (tier, limit) limits ->
     _initialize_token_buckets limits now !! tier =
     if (0 <? limit)%Z
     then Some {| capacity := limit; tokens := inject_Z limit;
                  refill_rate := (inject_Z limit / 60)%Q; last_refill := now |}
     else None) /\
  (~ In tier (map fst limits) -> _initialize_token_buckets limits now !! tier = None).
Proof.
  intros Hnd. unfold _initialize_token_buckets. split.
  - assert (forall (buckets : gmap ProcessingTier TokenBucket) limit, In (tier, limit) limits ->
              fold_left
                (fun buckets '(tier, limit_per_minute) =>
                   if (0 <? limit_per_minute)%Z then
                     <[tier := {| capacity := limit_per_minute;
                                  tokens := inject_Z limit_per_minute;
                                  refill_rate := (inject_Z limit_per_minute / 60)%Q;
                                  last_refill := now |}]> buckets
                   else buckets)
                limits buckets !! tier =
              if (0 <? limit)%Z
              then Some {| capacity := limit; tokens := inject_Z limit;
                           refill_rate := (inject_Z limit / 60)%Q; last_refill := now |}
              else buckets !! tier) as H.
    { induction limits as [|[t l] limits IH]; intros buckets limit Hin; [done |].
      cbn [map fst] in Hnd. apply NoDup_cons in Hnd as [Hnot Hnd].
      cbn [fold_left]. destruct Hin as [[= -> ->]|Hin].
      - rewrite initialize_untouched by (by rewrite <- list_elem_of_In).
        destruct (0 <? limit)%Z; [by rewrite lookup_insert_eq | done].
      - rewrite (IH Hnd _ limit Hin).
        destruct (0 <? limit)%Z; [done |].
        destruct (0 <? l)%Z; [| done]. apply lookup_insert_ne.
        intros ->. apply Hnot, list_elem_of_In, in_map_iff. by exists (tier, limit). }
    intros limit Hin. rewrite (H ∅ limit Hin).
    destruct (0 <? limit)%Z; [done | apply lookup_empty].
  - intros Hn. by rewrite initialize_untouched.
Qed.

End TokenBucketFacts.

Section TokenBucketExamples.
Import CandidateStore Scheduler Examples.


(** The theorem on a limit of 17 per minute: the token is refused after
    the reported wait. *)
Lemma binary64_wait_can_fall_short_witness :
  exists wait,
    BucketBinary64.time_until_tokens 1 (BucketBinary64.emptied 17) = Py.Ok wait /\
    fst (BucketBinary64.consume 1 wait (BucketBinary64.emptied 17)) = false.
Proof.
  destruct (binary64_wait_can_fall_short 17) as (_ & wait & Hwait & _ & Hshort & _);
    [lia |].
  exists wait. split; [exact Hwait |]. apply Hshort. vm_compute. tauto.
Defined.

(** The default limits: no bucket for LITE_ONLY, whose limit is 0, and a
    bucket of capacity 7 for PREMIUM. *)
Lemma initialize_token_buckets_spec_witness :
  _initialize_token_buckets (tier_limits (init 0)) 0 !! LITE_ONLY = None /\
  capacity <$> _initialize_token_buckets (tier_limits (init 0)) 0 !! PREMIUM
  = Some 7%Z.
Proof.
  assert (NoDup (map fst (tier_limits (init 0)))) as Hnd.
  { apply (bool_decide_unpack (NoDup _)). vm_compute. exact I. }
  split.
  - apply (proj1 (initialize_token_buckets_spec (tier_limits (init 0)) 0 LITE_ONLY Hnd)
             0%Z).
    cbn. tauto.
  - rewrite (proj1 (initialize_token_buckets_spec (tier_limits (init 0)) 0 PREMIUM Hnd)
               7%Z); [reflexivity |].
    cbn. tauto.
Defined.

End TokenBucketExamples.

(* ================================================================== *)
(** * The scheduling round *)
(* ================================================================== *)

Section RoundFacts.
Import CandidateStore Scheduler Rounds.

Lemma same_but_buckets_refl (s : State) : same_but_buckets s s.
Proof. unfold same_but_buckets. split_and!; try done. by destruct (scheduler s). Qed.

Lemma same_but_buckets_trans (s1 s2 s3 : State) :
  same_but_buckets s1 s2 -> same_but_buckets s2 s3 -> same_but_buckets s1 s3.
Proof.
  intros (Hj1 & Hp1 & Hs1) (Hj2 & Hp2 & Hs2). unfold same_but_buckets.
  split_and!; [congruence | congruence |].
  rewrite <- Hs1, <- Hs2. by destruct (scheduler s3).
Qed.

Lemma same_but_buckets_set (tier : ProcessingTier) (b : TokenBucket) (s : State) :
  same_but_buckets s (set_bucket tier b s).
Proof.
  unfold same_but_buckets, set_bucket, with_scheduler, with_buckets. cbn.
  split_and!; try done. by destruct (scheduler s).
Qed.

Lemma same_but_buckets_throttle (s : State) :
  same_but_buckets s (with_scheduler (_apply_autothrottle (scheduler s)) s).
Proof.
  unfold same_but_buckets, _apply_autothrottle, with_scheduler, with_buckets. cbn.
  split_and!; try done. by destruct (scheduler s).
Qed.

(** What [same_but_buckets] keeps. *)
Lemma same_but_buckets_fields (s s' : State) :
  same_but_buckets s s' ->
  processing_jobs (scheduler s') = processing_jobs (scheduler s) /\
  queues (scheduler s') = queues (scheduler s) /\
  redis (scheduler s') = redis (scheduler s) /\
  autothrottle_threshold (scheduler s') = autothrottle_threshold (scheduler s) /\
  min_best_effort_k (scheduler s') = min_best_effort_k (scheduler s) /\
  throttle_reduction (scheduler s') = throttle_reduction (scheduler s).
Proof. intros (_ & _ & <-). by destruct (scheduler s'). Qed.

Lemma buckets_related_trans (R1 R2 R3 : TokenBucket -> TokenBucket -> Prop)
    (s1 s2 s3 : State) :
  (forall a b c, R1 a b -> R2 b c -> R3 a c) ->
  buckets_related R1 s1 s2 -> buckets_related R2 s2 s3 -> buckets_related R3 s1 s3.
Proof.
  intros HR H12 H23 tier. specialize (H12 tier). specialize (H23 tier).
  destruct (token_buckets (scheduler s1) !! tier),
           (token_buckets (scheduler s2) !! tier),
           (token_buckets (scheduler s3) !! tier); try done. eauto.
Qed.

Lemma buckets_related_refl (s : State) : buckets_related same_limits s s.
Proof. intros tier. by destruct (token_buckets (scheduler s) !! tier). Qed.

Lemma consume_same_limits (n : Z) (now : Q) (b : TokenBucket) :
  same_limits b (snd (consume n now b)).
Proof. unfold consume. by destruct (negb _). Qed.

(** The buckets after [set_bucket], when the tier had a bucket of the same
    limits. *)
Lemma buckets_related_set (tier : ProcessingTier) (b0 b : TokenBucket) (s : State) :
  token_buckets (scheduler s) !! tier = Some b0 -> same_limits b0 b ->
  buckets_related same_limits s (set_bucket tier b s).
Proof.
  intros Hb Hsame t. cbn. destruct (decide (tier = t)) as [<-|Hne].
  - by rewrite Hb, lookup_insert_eq.
  - rewrite lookup_insert_ne by done.
    by destruct (token_buckets (scheduler s) !! t).
Qed.

Lemma same_limits_trans (a b c : TokenBucket) :
  same_limits a b -> same_limits b c -> same_limits a c.
Proof. intros [? ?] [? ?]. split; congruence. Qed.

(** The candidates of a pass are objects [get_candidate] rebuilt, so no
    enqueue succeeds: the loop only draws on the bucket and counts. *)
Lemma schedule_candidates_effect (tier : ProcessingTier) (time_time utcnow : nat -> Q)
    (candidates : list EventCandidate) (l : Loop) :
  token_buckets (scheduler (l_state l)) !! tier = Some (l_bucket l) ->
  let l' := schedule_candidates tier time_time utcnow candidates l in
  token_buckets (scheduler (l_state l')) !! tier = Some (l_bucket l') /\
  l_scheduled l' = l_scheduled l /\
  same_but_buckets (l_state l) (l_state l') /\
  buckets_related same_limits (l_state l) (l_state l') /\
  (l_rate_limited l' + l_reads l <= l_rate_limited l + l_reads l')%nat /\
  (l_reads l' <= l_reads l + length candidates)%nat.
Proof.
  revert l. induction candidates as [|c rest IH]; intros l Hb; cbn [schedule_candidates].
  - split_and!; try done; [apply same_but_buckets_refl | apply buckets_related_refl | lia].
  - destruct (bool_decide _).
    { destruct (IH l Hb) as (? & ? & ? & ? & ? & ?). split_and!; try done.
      cbn [length]. lia. }
    destruct (consume 1 (time_time (l_reads l)) (l_bucket l)) as [ok bucket] eqn:Ec.
    assert (same_limits (l_bucket l) bucket) as Hlim.
    { pose proof (consume_same_limits 1 (time_time (l_reads l)) (l_bucket l)) as H.
      by rewrite Ec in H. }
    assert (token_buckets (scheduler (set_bucket tier bucket (l_state l))) !! tier
            = Some bucket) as Hb' by apply lookup_insert_eq.
    pose proof (same_but_buckets_set tier bucket (l_state l)) as Hs.
    pose proof (buckets_related_set tier _ bucket (l_state l) Hb Hlim) as Hr.
    destruct ok; cbn [negb].
    + cbn [_enqueue_for_processing priority_dot_value l_scheduled].
      destruct (Nat.leb max_batch_size (l_scheduled l)) eqn:Efull.
      * cbn [l_state l_bucket l_scheduled l_rate_limited l_reads].
        split_and!; try done.
        -- lia.
        -- cbn [length]. lia.
      * match goal with |- context [schedule_candidates _ _ _ rest ?l1] =>
          destruct (IH l1 Hb') as (H1 & H2 & H3 & H4 & H5 & H6) end.
        cbn [l_state l_bucket l_scheduled l_rate_limited l_reads] in *.
        split_and!; try done.
        -- by eapply same_but_buckets_trans.
        -- eapply buckets_related_trans; [apply same_limits_trans | exact Hr | exact H4].
        -- lia.
        -- cbn [length]. lia.
    + match goal with |- context [schedule_candidates _ _ _ rest ?l1] =>
        destruct (IH l1 Hb') as (H1 & H2 & H3 & H4 & H5 & H6) end.
      cbn [l_state l_bucket l_scheduled l_rate_limited l_reads] in *.
      split_and!; try done.
      * by eapply same_but_buckets_trans.
      * eapply buckets_related_trans; [apply same_limits_trans | exact Hr | exact H4].
      * lia.
      * cbn [length]. lia.
Qed.

Lemma schedule_tier_effect (tier : ProcessingTier) (homes : list string)
    (sort_clock time_time utcnow : nat -> Q) (s : State) :
  let stats := fst (_schedule_tier tier homes sort_clock time_time utcnow s) in
  let s' := snd (_schedule_tier tier homes sort_clock time_time utcnow s) in
  scheduled stats = 0%nat /\
  same_but_buckets s s' /\
  buckets_related same_limits s s' /\
  (rate_limited stats <= candidates_found stats)%nat /\
  (token_buckets (scheduler s) !! tier = None -> s' = s).
Proof.
  unfold _schedule_tier.
  destruct (token_buckets (scheduler s) !! tier) as [bucket|] eqn:Eb.
  2:{ cbn. split_and!; try done;
        [apply same_but_buckets_refl | apply buckets_related_refl]. }
  destruct (get_candidates_by_tier _ _ _ _ _) as [|c cs] eqn:Ecs.
  { cbn. split_and!; try done;
      [apply same_but_buckets_refl | apply buckets_related_refl]. }
  cbn [fst snd scheduled rate_limited candidates_found].
  match goal with |- context [schedule_candidates _ _ _ ?l0 ?l1] =>
    destruct (schedule_candidates_effect tier time_time utcnow l0 l1 Eb)
      as (H1 & H2 & H3 & H4 & H5 & H6) end.
  cbn [l_state l_bucket l_scheduled l_rate_limited l_reads] in *.
  split_and!; try done. lia.
Qed.

(** X17.  A pass of [_schedule_tier] schedules nothing.  Its candidates
    come from [get_candidates_by_tier], that is, from [get_candidate],
    which rebuilds each candidate with its priority as a plain [int];
    [_enqueue_for_processing] reads [candidate.priority.value], which an
    [int] does not have, so it fails before it sends a command and
    answers false.  Whatever the store holds, the pass reports zero
    scheduled events and leaves the job lists, the processing markers,
    the set of events in flight and the store as they were; it only
    draws on the bucket of its tier, whose capacity and refill rate stay
    the same, the buckets of the other tiers keep their limits too, and
    with no bucket for the tier nothing changes at all. *)
Theorem schedule_tier_schedules_nothing (tier : ProcessingTier) (homes : list string)
    (sort_clock time_time utcnow : nat -> Q) (s : State) :
  let stats := fst (_schedule_tier tier homes sort_clock time_time utcnow s) in
  let s' := snd (_schedule_tier tier homes sort_clock time_time utcnow s) in
  scheduled stats = 0%nat /\
  (rate_limited stats <= candidates_found stats)%nat /\
  job_queues s' = job_queues s /\
  processing s' = processing s /\
  processing_jobs (scheduler s') = processing_jobs (scheduler s) /\
  queues (scheduler s') = queues (scheduler s) /\
  redis (scheduler s') = redis (scheduler s) /\
  buckets_related same_limits s s' /\
  (token_buckets (scheduler s) !! tier = None -> s' = s).
Proof.
  destruct (schedule_tier_effect tier homes sort_clock time_time utcnow s)
    as (H1 & H2 & H3 & H4 & H5).
  destruct (same_but_buckets_fields _ _ H2) as (? & ? & ? & _).
  destruct H2 as (? & ? & _). cbv zeta. by split_and!.
Qed.

(** X18.  [force_schedule_event] never schedules.  For an event without a
    record it answers false; for an event with a record the candidate it
    enqueues is the object [get_candidate] rebuilt, whose priority is a
    plain [int], so [_enqueue_for_processing] fails on
    [candidate.priority.value] and answers false.  In both cases the
    answer is false and nothing has changed: no job message, no marker,
    the event not in flight and its record still in the store. *)
Theorem force_schedule_event_never_schedules (id : string) (tier : ProcessingTier)
    (utcnow : Q) (s : State) :
  force_schedule_event id tier utcnow s = (false, s).
Proof.
  unfold force_schedule_event. by destruct (get_candidate id (redis (scheduler s))).
Qed.

Section Round.
Variable homes : ProcessingTier -> list string.
Variable sort_clock time_time utcnow : ProcessingTier -> nat -> Q.

Lemma throttle_not_raised (s : State) :
  buckets_related not_raised s (with_scheduler (_apply_autothrottle (scheduler s)) s).
Proof.
  intros tier. cbn. rewrite lookup_fmap.
  destruct (token_buckets (scheduler s) !! tier) as [b|]; [| done]. cbn.
  split; [apply throttle_bucket_capacity |].
  unfold throttle_bucket. by destruct (_ <? _)%Z.
Qed.

Lemma same_limits_not_raised (a b : TokenBucket) : same_limits a b -> not_raised a b.
Proof. intros [? ?]. split; [lia | done]. Qed.

Lemma not_raised_same (a b c : TokenBucket) :
  not_raised a b -> same_limits b c -> not_raised a c.
Proof. intros [? ?] [? ?]. split; [lia | congruence]. Qed.

(** X19.  A scheduling round enqueues nothing and never raises a
    capacity.  [schedule_round] reports zero scheduled events and leaves
    the job lists, the processing markers, the set of events in flight
    and the store as they were, for the reason given for
    [_schedule_tier].  It throttles exactly when the backlog (the length
    of the three tier lists plus the number of events in flight) is
    strictly above the threshold; after the round every tier has a bucket
    exactly if it had one before, with the same refill rate and a
    capacity that is at most the one before, and equal to it when the
    round did not throttle. *)
Theorem schedule_round_enqueues_nothing (s : State) :
  let stats := fst (schedule_round homes sort_clock time_time utcnow s) in
  let s' := snd (schedule_round homes sort_clock time_time utcnow s) in
  scheduled_events stats = 0%nat /\
  job_queues s' = job_queues s /\
  processing s' = processing s /\
  processing_jobs (scheduler s') = processing_jobs (scheduler s) /\
  queues (scheduler s') = queues (scheduler s) /\
  redis (scheduler s') = redis (scheduler s) /\
  (autothrottled stats = true <->
   (autothrottle_threshold (scheduler s) < _get_deep_processing_backlog s)%Z) /\
  buckets_related not_raised s s' /\
  (autothrottled stats = false -> buckets_related same_limits s s').
Proof.
  unfold schedule_round.
  set (throttle := (autothrottle_threshold (scheduler s) <? _get_deep_processing_backlog s)%Z).
  set (s0 := if throttle then with_scheduler (_apply_autothrottle (scheduler s)) s else s).
  assert (same_but_buckets s s0) as Hs0.
  { unfold s0. destruct throttle;
      [apply same_but_buckets_throttle | apply same_but_buckets_refl]. }
  assert (buckets_related not_raised s s0) as Hr0.
  { unfold s0. destruct throttle; [apply throttle_not_raised |].
    intros tier. destruct (token_buckets (scheduler s) !! tier); [| done].
    split; [lia | done]. }
  assert (throttle = false -> buckets_related same_limits s s0) as Hr0'.
  { intros E. unfold s0. rewrite E. apply buckets_related_refl. }
  clearbody s0. change deep_tiers with [STANDARD; PREMIUM; ENTERPRISE].
  cbn [fold_left].
  destruct (_schedule_tier STANDARD _ _ _ _ s0) as [st1 s1] eqn:E1.
  destruct (_schedule_tier PREMIUM _ _ _ _ s1) as [st2 s2] eqn:E2.
  destruct (_schedule_tier ENTERPRISE _ _ _ _ s2) as [st3 s3] eqn:E3.
  pose proof (schedule_tier_effect STANDARD (homes STANDARD) (sort_clock STANDARD)
                (time_time STANDARD) (utcnow STANDARD) s0) as (A1 & B1 & C1 & _).
  pose proof (schedule_tier_effect PREMIUM (homes PREMIUM) (sort_clock PREMIUM)
                (time_time PREMIUM) (utcnow PREMIUM) s1) as (A2 & B2 & C2 & _).
  pose proof (schedule_tier_effect ENTERPRISE (homes ENTERPRISE) (sort_clock ENTERPRISE)
                (time_time ENTERPRISE) (utcnow ENTERPRISE) s2) as (A3 & B3 & C3 & _).
  rewrite E1 in A1, B1, C1. rewrite E2 in A2, B2, C2. rewrite E3 in A3, B3, C3.
  cbn [fst snd] in *.
  assert (same_but_buckets s s3) as Hs3.
  { eapply same_but_buckets_trans; [exact Hs0 |].
    eapply same_but_buckets_trans; [exact B1 |].
    eapply same_but_buckets_trans; [exact B2 | exact B3]. }
  assert (buckets_related same_limits s0 s3) as Hr3.
  { eapply buckets_related_trans; [apply same_limits_trans | exact C1 |].
    eapply buckets_related_trans; [apply same_limits_trans | exact C2 | exact C3]. }
  destruct (same_but_buckets_fields _ _ Hs3) as (? & ? & ? & _).
  destruct Hs3 as (? & ? & _).
  cbn [scheduled_events autothrottled].
  split_and!; try done.
  - lia.
  - unfold throttle. apply Z.ltb_lt.
  - eapply buckets_related_trans; [apply not_raised_same | exact Hr0 | exact Hr3].
  - intros E. eapply buckets_related_trans; [apply same_limits_trans | by apply Hr0' | exact Hr3].
Qed.

End Round.

End RoundFacts.

Section RoundExamples.
Import CandidateStore Scheduler Rounds Scenarios Examples.

(** A pass over the STANDARD tier on a scheduler whose store holds one
    STANDARD event: the event is found, a token is drawn for it, and it
    is neither enqueued nor removed from the store. *)
Lemma schedule_tier_schedules_nothing_witness :
  let pass :=
    _schedule_tier STANDARD ["home_abc"] (fun _ => 0%Q) (fun _ => 0%Q) (fun _ => 0%Q)
                   scheduler_with_one_event in
  candidates_found (fst pass) = 1%nat /\
  scheduled (fst pass) = 0%nat /\
  rate_limited (fst pass) = 0%nat /\
  job_queues (snd pass) = ∅ /\
  (exists b, token_buckets (scheduler (snd pass)) !! STANDARD = Some b /\
             (tokens b == 1)%Q /\ capacity b = 2%Z) /\
  is_Some (get_candidate "evt_x" (redis (scheduler (snd pass)))).
Proof.
  cbv zeta.
  destruct (schedule_tier_schedules_nothing STANDARD ["home_abc"] (fun _ => 0%Q)
              (fun _ => 0%Q) (fun _ => 0%Q) scheduler_with_one_event)
    as (Hs & _ & Hj & _ & _ & _ & Hr & _).
  split; [by vm_compute |]. split; [exact Hs |]. split; [by vm_compute |].
  split; [exact Hj |]. split.
  - eexists. split; [by vm_compute |]. split; by vm_compute.
  - rewrite Hr. eexists. by vm_compute.
Defined.

(** Forcing the one event of the store: the answer is false. *)
Example force_schedule_event_on_stored_event :
  fst (force_schedule_event "evt_x" PREMIUM 0 scheduler_with_one_event) = false /\
  is_Some (get_candidate "evt_x" (redis (scheduler scheduler_with_one_event))).
Proof. split; [by vm_compute | eexists; by vm_compute]. Qed.

End RoundExamples.

(* ================================================================== *)
(** * Further properties of the session worker *)
(* ================================================================== *)

Section SessionFindings.
Import Py DeepWorker SessionTrace.

Variable ticks : nat -> Q.
Variable worker_id : string.
Variable session_event : nat -> string -> ProcessingSession -> outcome EventResult.

Local Abbreviation run_events := (process_events ticks session_event).
Local Abbreviation body := (process_session_body ticks worker_id session_event).
Local Abbreviation handler := (process_session_handler ticks worker_id).
Local Abbreviation run := (_process_session ticks worker_id session_event).

Lemma sum_risk_cons (e : EventResult) (l : list EventResult) :
  sum_risk (e :: l) = (risk_of e + sum_risk l)%Q.
Proof. reflexivity. Qed.

(** The loop appends one entry for each event it starts, the indicators
    of that entry, and its risk. *)
Lemma process_events_trace (session : ProcessingSession)
    (start_time deadline_seconds : Q) (todo : list string) (p : Progress) (w : World) :
  exists p' w' (new : list (string * EventResult)),
    run_events session start_time deadline_seconds todo p w = (Ok p', w') /\
    p_events p' = p_events p ++ map snd new /\
    p_threats p' = p_threats p ++ flat_map (fun x => threats_of (fst x) (snd x)) new /\
    (p_total_risk p' == p_total_risk p + sum_risk (map snd new))%Q /\
    (forall x, In x new -> In (fst x) todo /\ produced session_event session x).
Proof.
  revert p w. induction todo as [|event_id rest IH]; intros p w.
  - exists p, w, []. cbn. rewrite !app_nil_r. split_and!; try done. lra.
  - cbn [process_events].
    unfold bind at 1. unfold read_clock at 1. cbn [fst snd reads].
    destruct (Qltb (deadline_seconds * 1000 * (8 # 10))
                   ((ticks (reads w) - start_time) * 1000)).
    + eexists p, _, []. split; [reflexivity |]. cbn. rewrite !app_nil_r.
      split_and!; try done. lra.
    + unfold bind at 1. unfold try_except at 1. unfold bind at 1.
      unfold _process_session_event at 1. cbn [reads].
      destruct (session_event (S (reads w)) event_id session) as [e|err] eqn:Eev.
      * unfold ret at 1.
        match goal with |- context [process_events _ _ _ _ _ rest ?p1 ?w1] =>
          destruct (IH p1 w1) as (p' & w' & new & Hrun & Hev & Hth & Hrisk & Hnew) end.
        exists p', w', ((event_id, e) :: new). split; [exact Hrun |].
        cbn [record_event p_events p_threats p_total_risk] in Hev, Hth, Hrisk.
        split_and!.
        -- rewrite Hev. cbn [map snd]. by rewrite <- app_assoc.
        -- rewrite Hth. cbn [flat_map fst snd]. by rewrite <- app_assoc.
        -- rewrite Hrisk. cbn [map snd]. rewrite sum_risk_cons. unfold risk_of. lra.
        -- intros x [<-|Hx].
           ++ split; [by left |]. left. by exists (S (reads w)).
           ++ destruct (Hnew x Hx). split; [by right | done].
      * unfold ret at 1.
        match goal with |- context [process_events _ _ _ _ _ rest ?p1 ?w1] =>
          destruct (IH p1 w1) as (p' & w' & new & Hrun & Hev & Hth & Hrisk & Hnew) end.
        exists p', w', ((event_id, failure_entry event_id err) :: new).
        split; [exact Hrun |].
        cbn [record_failure p_events p_threats p_total_risk] in Hev, Hth, Hrisk.
        split_and!.
        -- rewrite Hev. cbn [map snd]. by rewrite <- app_assoc.
        -- rewrite Hth. by cbn.
        -- rewrite Hrisk. cbn [map snd]. rewrite sum_risk_cons. cbn. lra.
        -- intros x [<-|Hx].
           ++ split; [by left |]. right. by exists (S (reads w)), err.
           ++ destruct (Hnew x Hx). split; [by right | done].
Qed.

(** [_handle_session_success] pushes one digest record. *)
Lemma handle_session_success_digest (session : ProcessingSession)
    (result : SessionResult) (w : World) :
  exists w' t,
    _handle_session_success ticks worker_id session result w = (Ok tt, w') /\
    digest_queue w'
    = {| g_session_id := Queue.session_id session;
         g_home_id := Queue.home_id session;
         g_tier := Queue.tier session;
         g_findings := findings result;
         g_processing_duration_ms := processing_duration_ms result;
         g_completed_at := t |} :: digest_queue w /\
    total_sessions_processed w' = total_sessions_processed w.
Proof.
  unfold _handle_session_success, try_except.
  unfold bind at 1. unfold SETEX at 1. unfold bind at 1.
  match goal with |- context [for_each _ _ ?w1] =>
    destruct (notifications_effect ticks worker_id (Queue.event_ids session) true w1)
      as (w2 & Hrun & Hres & Hdig & Htot & Hcomp) end.
  rewrite Hrun. unfold bind, read_clock, LPUSH_digest.
  eexists _, _. split; [reflexivity |]. cbn in *. by rewrite Hdig, Htot.
Qed.

(** [_handle_session_failure] pushes none. *)
Lemma handle_session_failure_digest (session : ProcessingSession)
    (result : SessionResult) (w : World) :
  exists w',
    _handle_session_failure ticks worker_id session result w = (Ok tt, w') /\
    digest_queue w' = digest_queue w /\
    total_sessions_processed w' = total_sessions_processed w.
Proof.
  unfold _handle_session_failure, try_except.
  unfold bind at 1. unfold SETEX at 1.
  match goal with |- context [for_each _ _ ?w1] =>
    destruct (notifications_effect ticks worker_id (Queue.event_ids session) false w1)
      as (w2 & Hrun & Hres & Hdig & Htot & Hcomp) end.
  rewrite Hrun. eexists. split; [reflexivity |]. cbn in *. by rewrite Hdig, Htot.
Qed.

(** The findings of a session whose deadline and [K] can be read, in
    terms of the trace of its loop, and what the session leaves in the
    digest list and in the counter. *)
Lemma body_trace (session : ProcessingSession) (start_time deadline_seconds : Q)
    (todo : list string) (w : World) :
  div_1000 (Queue.deadline_ms session) = Ok deadline_seconds ->
  slice_to_value (Queue.K session) (Queue.event_ids session) = Ok todo ->
  exists res w' f (new : list (string * EventResult)) t,
    body session start_time w = (Ok res, w') /\
    success res = true /\ findings res = Some f /\
    events_processed f = map snd new /\
    threat_indicators f = flat_map (fun x => threats_of (fst x) (snd x)) new /\
    (risk_score f * inject_Z (Z.max 1 (Z.of_nat (length new)))
     == sum_risk (map snd new))%Q /\
    (forall x, In x new -> In (fst x) todo /\ produced session_event session x) /\
    digest_queue w'
    = {| g_session_id := Queue.session_id session;
         g_home_id := Queue.home_id session;
         g_tier := Queue.tier session;
         g_findings := findings res;
         g_processing_duration_ms := processing_duration_ms res;
         g_completed_at := t |} :: digest_queue w /\
    total_sessions_processed w' = S (total_sessions_processed w).
Proof.
  intros Hd Hk. unfold process_session_body.
  unfold bind at 1. unfold lift at 1. rewrite Hd.
  unfold bind at 1. unfold lift at 1. rewrite Hk.
  unfold bind at 1.
  destruct (process_events_trace session start_time deadline_seconds todo
              {| p_events := []; p_total_risk := 0; p_threats := [] |} w)
    as (p' & w1 & new & Hrun & Hev & Hth & Hrisk & Hnew).
  destruct (process_events_effect ticks session_event session start_time
              deadline_seconds todo
              {| p_events := []; p_total_risk := 0; p_threats := [] |} w)
    as (p'' & w1' & Hrun' & (Hres1 & Hcomp1 & Hdig1 & Htot1) & _).
  rewrite Hrun in Hrun'. injection Hrun' as <- <-.
  rewrite Hrun.
  unfold bind at 1. unfold lift at 1. rewrite truediv_guarded.
  unfold bind at 1. unfold read_clock at 1. unfold bind at 1. unfold read_clock at 1.
  unfold bind at 1.
  match goal with |- context [_handle_session_success _ _ _ ?res ?w0] =>
    destruct (handle_session_success_digest session res w0)
      as (w3 & t & -> & Hdig3 & Htot3) end.
  unfold bind, count_session, ret.
  eexists _, _, _, new, t. split; [reflexivity |].
  cbn in Hev, Hth, Hrisk, Hdig3, Htot3 |- *.
  split_and!; try done.
  - cbn [risk_score]. rewrite Hev, length_map.
    assert (0 < inject_Z (Z.max 1 (Z.of_nat (length new))))%Q as Hpos.
    { change 0%Q with (inject_Z 0). rewrite <- Zlt_Qlt. lia. }
    transitivity (p_total_risk p'); [field; lra | lra].
  - by rewrite Hdig3, Hdig1.
  - by rewrite Htot3, Htot1.
Qed.

(** The session in full: either the deadline and [K] were read and the
    [try] block ran, or the handler ran. *)
Lemma process_session_cases (session : ProcessingSession) (w : World) :
  (exists ds todo res w' f (new : list (string * EventResult)) t,
     div_1000 (Queue.deadline_ms session) = Ok ds /\
     slice_to_value (Queue.K session) (Queue.event_ids session) = Ok todo /\
     run session w = (Ok res, w') /\
     success res = true /\ findings res = Some f /\
     events_processed f = map snd new /\
     threat_indicators f = flat_map (fun x => threats_of (fst x) (snd x)) new /\
     (risk_score f * inject_Z (Z.max 1 (Z.of_nat (length new)))
      == sum_risk (map snd new))%Q /\
     (forall x, In x new -> In (fst x) todo /\ produced session_event session x) /\
     digest_queue w'
     = {| g_session_id := Queue.session_id session;
          g_home_id := Queue.home_id session;
          g_tier := Queue.tier session;
          g_findings := findings res;
          g_processing_duration_ms := processing_duration_ms res;
          g_completed_at := t |} :: digest_queue w /\
     total_sessions_processed w' = S (total_sessions_processed w)) \/
  (exists res w',
     run session w = (Ok res, w') /\
     success res = false /\ findings res = None /\
     digest_queue w' = digest_queue w /\
     total_sessions_processed w' = total_sessions_processed w).
Proof.
  set (w1 := {| session_results := session_results w;
                scheduler_completions := scheduler_completions w;
                digest_queue := digest_queue w;
                total_sessions_processed := total_sessions_processed w;
                reads := S (reads w) |}).
  assert (run session w =
          match body session (ticks (reads w)) w1 with
          | (Ok a, w') => (Ok a, w')
          | (Raise e, w') => handler session (ticks (reads w)) e w'
          end) as Hrun_eq by reflexivity.
  destruct (body session (ticks (reads w)) w1) as [[res|e] w2] eqn:Ebody.
  - left.
    assert (exists ds todo,
              div_1000 (Queue.deadline_ms session) = Ok ds /\
              slice_to_value (Queue.K session) (Queue.event_ids session) = Ok todo)
      as (ds & todo & Hd & Hk).
    { revert Ebody. unfold process_session_body, bind, lift.
      destruct (div_1000 _); [| done]. destruct (slice_to_value _ _); [| done]. eauto. }
    destruct (body_trace session (ticks (reads w)) ds todo w1 Hd Hk)
      as (res' & w' & f & new & t & Hrun & H1 & H2 & H3 & H4 & H5 & H6 & H7 & H8).
    rewrite Ebody in Hrun. injection Hrun as <- <-.
    exists ds, todo, res, w2, f, new, t.
    do 3 (split; [assumption |]).
    do 7 (split; [assumption |]). assumption.
  - right.
    apply (body_raises_early ticks worker_id session_event) in Ebody as [-> _].
    rewrite Hrun_eq. unfold process_session_handler.
    unfold bind at 1. unfold read_clock at 1. unfold bind at 1. unfold read_clock at 1.
    unfold bind at 1.
    match goal with |- context [_handle_session_failure _ _ _ ?r0 ?w0] =>
      destruct (handle_session_failure_digest session r0 w0)
        as (w3 & -> & Hdig & Htot) end.
    unfold ret. eexists _, _. split; [reflexivity |]. by cbn in *.
Qed.

(** X20.  The risk score of a session is the mean over the entries of
    [events_processed]: multiplied by max(1, number of entries) it is the
    sum of their risk scores.  An entry written for an event whose
    processing raised has no risk score and brings nothing to the sum but
    is counted in the number of entries, so a failed event lowers the
    mean. *)
Theorem session_risk_is_mean (session : ProcessingSession) (w : World) :
  exists res w',
    run session w = (Ok res, w') /\
    forall f, findings res = Some f ->
      (risk_score f * inject_Z (Z.max 1 (Z.of_nat (length (events_processed f))))
       == sum_risk (events_processed f))%Q.
Proof.
  destruct (process_session_cases session w)
    as [(ds & todo & res & w' & f & new & t & _ & _ & Hrun & _ & Hf & Hev & _ & Hrisk & _)
       |(res & w' & Hrun & _ & Hf & _)].
  - exists res, w'. split; [done |]. intros f' Hf'.
    rewrite Hf in Hf'. injection Hf' as <-. by rewrite Hev, length_map.
  - exists res, w'. split; [done |]. intros f. by rewrite Hf.
Qed.

Lemma slice_to_value_In {A} (v : value) (l todo : list A) (x : A) :
  slice_to_value v l = Ok todo -> In x todo -> In x l.
Proof.
  destruct v; cbn; intros [= <-]; [done |]. apply slice_to_In.
Qed.

Lemma threats_of_In (event_id : string) (e : EventResult) (t : ThreatIndicator) :
  In t (threats_of event_id e) <->
  t_event_id t = event_id /\ In (t_type t) threat_classes /\
  exists d, In d (default [] (r_detections e)) /\
            d_class d = t_type t /\ d_confidence d = t_confidence t.
Proof.
  unfold threats_of. rewrite in_map_iff. split.
  - intros (d & <- & Hd). apply filter_In in Hd as [Hd Hc].
    cbn [t_event_id t_type t_confidence].
    split_and!; [done | by apply mem_iff_In |]. by exists d.
  - intros (Hid & Hc & d & Hd & Hcl & Hco). exists d. split.
    + destruct t. cbn in *. by subst.
    + apply filter_In. split; [done |]. rewrite Hcl. by apply mem_iff_In.
Qed.

(** X21.  The threat indicators of a session are exactly the detections
    of the classes person, vehicle, weapon and package in its processed
    events.  Every indicator carries one of these four classes, names an
    event of [event_ids], and repeats the class and the confidence of a
    detection of an entry of [events_processed]; and every detection of
    one of the four classes in an entry has its indicator.  A detection
    of any other class (car, knife, gun, ...) gives none. *)
Theorem threat_indicators_are_listed_detections (session : ProcessingSession)
    (w : World) :
  exists res w',
    run session w = (Ok res, w') /\
    forall f, findings res = Some f ->
      (forall t, In t (threat_indicators f) ->
         In (t_type t) threat_classes /\
         In (t_event_id t) (Queue.event_ids session) /\
         exists e d, In e (events_processed f) /\
                     In d (default [] (r_detections e)) /\
                     d_class d = t_type t /\ d_confidence d = t_confidence t) /\
      (forall e d, In e (events_processed f) ->
         In d (default [] (r_detections e)) ->
         In (d_class d) threat_classes ->
         exists t, In t (threat_indicators f) /\
                   t_type t = d_class d /\ t_confidence t = d_confidence d).
Proof.
  destruct (process_session_cases session w)
    as [(ds & todo & res & w' & f & new & t & _ & Hk & Hrun & _ & Hf & Hev & Hth & _
         & Hnew & _)
       |(res & w' & Hrun & _ & Hf & _)].
  2:{ exists res, w'. split; [done |]. intros f. by rewrite Hf. }
  exists res, w'. split; [done |]. intros f' Hf'.
  rewrite Hf in Hf'. injection Hf' as <-. rewrite Hev, Hth. split.
  - intros ti Hti. apply in_flat_map in Hti as (x & Hx & Hti).
    apply threats_of_In in Hti as (Hid & Hc & d & Hd & Hcl & Hco).
    split; [done |]. split.
    + rewrite Hid. destruct (Hnew x Hx) as [Hin _].
      by eapply slice_to_value_In.
    + exists (snd x), d. split_and!; try done. apply in_map_iff. by exists x.
  - intros e d He Hd Hc. apply in_map_iff in He as (x & <- & Hx).
    exists {| t_type := d_class d; t_confidence := d_confidence d;
              t_event_id := fst x |}.
    split; [| done]. apply in_flat_map. exists x. split; [done |].
    apply threats_of_In. cbn. split_and!; try done. by exists d.
Qed.

(** X22.  One digest record per successful session, none for a failed
    one.  When the result says success, the session has pushed exactly
    one record onto the digest list, carrying the session id, the home,
    the tier, the findings and the duration of the result, and the
    worker's count of sessions has grown by one; when the result says
    failure (the deadline or [K] could not be read) the digest list and
    the count are as before and the result has no findings. *)
Theorem digest_only_on_success (session : ProcessingSession) (w : World) :
  exists res w',
    run session w = (Ok res, w') /\
    (success res = true ->
     exists d, digest_queue w' = d :: digest_queue w /\
               g_session_id d = Queue.session_id session /\
               g_home_id d = Queue.home_id session /\
               g_tier d = Queue.tier session /\
               g_findings d = findings res /\ is_Some (findings res) /\
               g_processing_duration_ms d = processing_duration_ms res /\
               total_sessions_processed w' = S (total_sessions_processed w)) /\
    (success res = false ->
     digest_queue w' = digest_queue w /\ findings res = None /\
     total_sessions_processed w' = total_sessions_processed w).
Proof.
  destruct (process_session_cases session w)
    as [(ds & todo & res & w' & f & new & t & _ & _ & Hrun & Hs & Hf & _ & _ & _ & _
         & Hdig & Htot)
       |(res & w' & Hrun & Hs & Hf & Hdig & Htot)].
  - exists res, w'. split; [done |]. split; [| by rewrite Hs].
    intros _. eexists. split; [exact Hdig |]. cbn. by rewrite Hf.
  - exists res, w'. split; [done |]. split; [by rewrite Hs | done].
Qed.

(** The mean of risks that lie in [0, 1] lies in [0, 1]. *)
Lemma sum_risk_bounds (l : list EventResult) :
  (forall e, In e l -> (0 <= risk_of e <= 1)%Q) ->
  (0 <= sum_risk l <= inject_Z (Z.of_nat (length l)))%Q.
Proof.
  induction l as [|e l IH]; intros H.
  - split; by vm_compute.
  - rewrite sum_risk_cons. cbn [length].
    destruct (H e (or_introl eq_refl)) as [H0 H1].
    destruct IH as [IH0 IH1]; [intros x Hx; apply H; by right |].
    rewrite Nat2Z.inj_succ. unfold Z.succ.
    rewrite inject_Z_plus. change (inject_Z 1) with 1%Q. lra.
Qed.

(** When every result of the event processor has a risk score in [0, 1],
    so has the session. *)
Lemma session_risk_bounds (session : ProcessingSession) (w : World) :
  (forall n id e, session_event n id session = Ok e -> (0 <= risk_of e <= 1)%Q) ->
  exists res w',
    run session w = (Ok res, w') /\
    forall f, findings res = Some f ->
      (0 <= risk_score f <= 1)%Q /\
      forall e, In e (events_processed f) -> (0 <= risk_of e <= 1)%Q.
Proof.
  intros Hbound.
  destruct (process_session_cases session w)
    as [(ds & todo & res & w' & f & new & t & _ & _ & Hrun & _ & Hf & Hev & _ & Hrisk
         & Hnew & _)
       |(res & w' & Hrun & _ & Hf & _)].
  2:{ exists res, w'. split; [done |]. intros f. by rewrite Hf. }
  exists res, w'. split; [done |]. intros f' Hf'.
  rewrite Hf in Hf'. injection Hf' as <-.
  assert (forall e, In e (map snd new) -> (0 <= risk_of e <= 1)%Q) as Hall.
  { intros e He. apply in_map_iff in He as (x & <- & Hx).
    destruct (Hnew x Hx) as [_ [[n Hn]|(n & err & _ & ->)]].
    - by eapply Hbound.
    - cbn. lra. }
  split; [| by rewrite Hev].
  pose proof (sum_risk_bounds _ Hall) as [Hs0 Hs1]. rewrite length_map in Hs1.
  set (n := length new) in *.
  assert (1 <= inject_Z (Z.max 1 (Z.of_nat n)))%Q as Hm1.
  { change 1%Q with (inject_Z 1). rewrite <- Zle_Qle. lia. }
  assert (inject_Z (Z.of_nat n) <= inject_Z (Z.max 1 (Z.of_nat n)))%Q as Hm2.
  { rewrite <- Zle_Qle. lia. }
  set (m := inject_Z (Z.max 1 (Z.of_nat n))) in *.
  set (x := risk_score f) in *. set (sr := sum_risk (map snd new)) in *.
  split; nra.
Qed.

End SessionFindings.

Section EventFacts.
Import Py DeepWorker WorkerEvents SessionTrace.

Lemma py_min_1_le (x : Q) : (Py.min 1 x <= 1)%Q.
Proof. destruct (py_min_cases 1 x) as (H & _). exact H. Qed.

Lemma py_min_1_ge (x lo : Q) : (lo <= 1)%Q -> (lo <= x)%Q -> (lo <= Py.min 1 x)%Q.
Proof.
  intros H1 Hx. destruct (py_min_cases 1 x) as (_ & _ & [H|H]); rewrite H; lra.
Qed.

(** The loop of [_calculate_event_risk_score] never lowers the score
    when the confidences are not negative. *)
Lemma event_risk_fold_ge (detections : list Detection) (base : Q) :
  (forall d, In d detections -> (0 <= d_confidence d)%Q) ->
  (base <=
   fold_left
     (fun base_score detection =>
        let obj_class := d_class detection in
        let confidence := d_confidence detection in
        if String.eqb obj_class "person" then (base_score + (4 # 10) * confidence)%Q
        else if Py.mem obj_class ["car"; "truck"; "motorcycle"]
        then (base_score + (2 # 10) * confidence)%Q
        else if Py.mem obj_class ["weapon"; "knife"; "gun"]
        then (base_score + (8 # 10) * confidence)%Q
        else base_score)
     detections base)%Q.
Proof.
  revert base. induction detections as [|d ds IH]; intros base H; cbn [fold_left].
  - lra.
  - pose proof (H d (or_introl eq_refl)) as Hd.
    eapply Qle_trans; [| apply IH; intros x Hx; apply H; by right].
    cbv zeta. destruct (String.eqb _ _); [lra |].
    destruct (Py.mem _ _); [lra |]. destruct (Py.mem _ _); lra.
Qed.

Lemma calculate_event_risk_score_bounds (dr : DetectionResults) (location : string) :
  (_calculate_event_risk_score dr location <= 1)%Q /\
  ((forall d, In d (default [] (dr_detections dr)) -> (0 <= d_confidence d)%Q) ->
   (1 # 10 <= _calculate_event_risk_score dr location)%Q).
Proof.
  unfold _calculate_event_risk_score. split; [apply py_min_1_le |].
  intros H. apply py_min_1_ge; [lra |].
  pose proof (event_risk_fold_ge _ (1 # 10) H) as Hf. cbv zeta in Hf |- *.
  destruct (Py.mem location _); lra.
Qed.

Lemma stub_risk_bounds (hash : string -> Z) (event_id location : string) :
  exists x,
    r_risk_score (_process_session_event_stub hash event_id location) = Some x /\
    (0 <= x <= 795 # 1000)%Q.
Proof.
  unfold _process_session_event_stub. cbn [r_risk_score].
  eexists. split; [reflexivity |].
  pose proof (Z.mod_pos_bound (hash event_id) 100 eq_refl) as [Hlo Hhi].
  assert (0 <= inject_Z (hash event_id mod 100) <= 99)%Q as [Hq0 Hq1].
  { change 0%Q with (inject_Z 0). change 99%Q with (inject_Z 99).
    rewrite <- !Zle_Qle. lia. }
  set (h := inject_Z (hash event_id mod 100)) in *.
  assert (h / 200 == h * (1 # 200))%Q as Hdiv by (unfold Qdiv; reflexivity).
  assert (forall x, (0 <= x <= 795 # 1000)%Q -> (0 <= Py.min 1 x <= 795 # 1000)%Q) as Hmin.
  { intros x Hx. destruct (py_min_cases 1 x) as (H1 & H2 & [H|H]); rewrite H in *; lra. }
  destruct (Py.mem location ["front_door"; "back_door"]);
    [| destruct (Py.mem location ["driveway"; "garage"])]; cbn [length];
    apply Hmin.
  - change (inject_Z (Z.of_nat 1)) with 1%Q. rewrite Hdiv. split; lra.
  - change (inject_Z (Z.of_nat 1)) with 1%Q. rewrite Hdiv. split; lra.
  - change (inject_Z (Z.of_nat 0)) with 0%Q. rewrite Hdiv. split; lra.
Qed.

Section Processor.
Variable hash : string -> Z.
Variable models_initialized : bool.
Variable stored_event : string -> StoredEvent.
Variable _download_image : string -> string -> option string.
Variable run_detection : string -> outcome DetectionResults.

Local Abbreviation process :=
  (_process_session_event hash models_initialized stored_event _download_image
     run_detection).

(** The entry [_process_session_event] returns: its event, its risk score
    and when it reports failure. *)
Lemma process_session_event_entry (event_id : string) (session : ProcessingSession) :
  let r := process event_id session in
  r_event_id r = event_id /\
  exists x,
    r_risk_score r = Some x /\ (x <= 1)%Q /\
    (r_success r = false <->
     exists e, stored_event event_id = Unusable e) /\
    (forall e, stored_event event_id = Unusable e ->
       x = 0%Q /\ r_error r = Some e) /\
    (models_initialized = false -> r_success r = true ->
     (0 <= x <= 795 # 1000)%Q /\ (length (default [] (r_detections r)) <= 1)%nat) /\
    ((forall path dr d, run_detection path = Ok dr ->
        In d (default [] (dr_detections dr)) -> (0 <= d_confidence d)%Q) ->
     (0 <= x)%Q).
Proof.
  unfold _process_session_event.
  assert (forall location,
            let r := _process_session_event_stub hash event_id location in
            r_event_id r = event_id /\ r_success r = true /\
            (length (default [] (r_detections r)) <= 1)%nat) as Hstub.
  { intros location. unfold _process_session_event_stub.
    cbn [r_event_id r_success r_detections]. split_and!; try done.
    destruct (Py.mem location ["front_door"; "back_door"]); [cbn; lia |].
    destruct (Py.mem location ["driveway"; "garage"]); cbn; lia. }
  assert (forall event_data : EventJson,
    let r :=
      let stub :=
        _process_session_event_stub hash event_id
          (default "unknown" (e_location event_data)) in
      if models_initialized && truthy (e_image_url event_data) then
        let image_path :=
          _download_image (default "" (e_image_url event_data)) event_id in
        if truthy image_path then
          match run_detection (default "" image_path) with
          | Ok detection_results =>
              {| r_event_id := event_id; r_success := true;
                 r_detections := Some (default [] (dr_detections detection_results));
                 r_confidence := Some (default 0%Q (dr_confidence detection_results));
                 r_risk_score :=
                   Some (_calculate_event_risk_score detection_results
                           (default "" (e_location event_data)));
                 r_error := None |}
          | Raise _ => stub
          end
        else stub
      else stub in
    r_event_id r = event_id /\ r_success r = true /\
    exists x, r_risk_score r = Some x /\ (x <= 1)%Q /\
      (models_initialized = false ->
       (0 <= x <= 795 # 1000)%Q /\ (length (default [] (r_detections r)) <= 1)%nat) /\
      ((forall path dr d, run_detection path = Ok dr ->
          In d (default [] (dr_detections dr)) -> (0 <= d_confidence d)%Q) ->
       (0 <= x)%Q)) as Hdata.
  { intros event_data. cbv zeta.
    set (location := default "unknown" (e_location event_data)).
    destruct (Hstub location) as (S1 & S2 & S3).
    destruct (stub_risk_bounds hash event_id location) as (xs & Hxs & Hxs0 & Hxs1).
    assert (r_event_id (_process_session_event_stub hash event_id location) = event_id /\
            r_success (_process_session_event_stub hash event_id location) = true /\
            exists x, r_risk_score (_process_session_event_stub hash event_id location)
                      = Some x /\ (x <= 1)%Q /\
              (models_initialized = false ->
               (0 <= x <= 795 # 1000)%Q /\
               (length (default [] (r_detections
                   (_process_session_event_stub hash event_id location))) <= 1)%nat) /\
              ((forall path dr d, run_detection path = Ok dr ->
                  In d (default [] (dr_detections dr)) -> (0 <= d_confidence d)%Q) ->
               (0 <= x)%Q)) as Hs.
    { split_and!; try done. exists xs. split_and!; try done; lra. }
    destruct models_initialized; cbn [andb]; [| exact Hs].
    destruct (truthy (e_image_url event_data)); [| exact Hs].
    destruct (truthy (_download_image _ _)); [| exact Hs].
    destruct (run_detection _) as [dr|err] eqn:Edet; [| exact Hs].
    cbn. split_and!; try done.
    destruct (calculate_event_risk_score_bounds dr (default "" (e_location event_data)))
      as [Hle Hge].
    eexists. split; [reflexivity |]. split_and!; [done | done |].
    intros Hconf.
    assert (1 # 10 <= _calculate_event_risk_score dr (default "" (e_location event_data)))%Q
      by (apply Hge; intros d Hd; by eapply Hconf).
    lra. }
  destruct (stored_event event_id) as [|e|event_data] eqn:Estored.
  - destruct (Hdata {| e_image_url :=
                         Some ("https://api.insane.ai/events/" ++ event_id ++ "/image")%string;
                       e_location := Some "unknown" |})
      as (H1 & H2 & x & Hx & Hle & Hstubcase & Hpos).
    cbv beta zeta in *. split; [exact H1 |]. exists x.
    split; [exact Hx |]. split; [exact Hle |]. split.
    { rewrite H2. split; [done | by intros [? [=]]]. }
    split; [by intros ? [=] |]. split; [| exact Hpos].
    intros Hm _. by apply Hstubcase.
  - cbn. split; [done |]. exists 0%Q. split_and!; try done.
    + split; [by eexists | done].
    + by intros e' [= <-].
  - destruct (Hdata event_data) as (H1 & H2 & x & Hx & Hle & Hstubcase & Hpos).
    cbv beta zeta in *. split; [exact H1 |]. exists x.
    split; [exact Hx |]. split; [exact Hle |]. split.
    { rewrite H2. split; [done | by intros [? [=]]]. }
    split; [by intros ? [=] |]. split; [| exact Hpos].
    intros Hm _. by apply Hstubcase.
Qed.

(** X23.  What [_process_session_event] returns for an event.  The
    entry always names the event and always has a risk score, which is
    at most 1.  It reports failure only when the stored event data could
    not be read, and then the risk score is 0.0 and the error text is
    that of the exception.  Without models the entry is the stub's: a
    risk score between 0 and 0.795 and at most one detection.  With
    models the score comes from [_calculate_event_risk_score], which caps
    it at 1 but has no lower cap: it is at least 0.1 when the detector's
    confidences are not negative. *)
Theorem process_session_event_risk (event_id : string) (session : ProcessingSession) :
  let r := _process_session_event hash models_initialized stored_event
             _download_image run_detection event_id session in
  r_event_id r = event_id /\
  exists x,
    r_risk_score r = Some x /\ (x <= 1)%Q /\
    (r_success r = false <->
     exists e, stored_event event_id = Unusable e) /\
    (forall e, stored_event event_id = Unusable e ->
       x = 0%Q /\ r_error r = Some e) /\
    (models_initialized = false -> r_success r = true ->
     (0 <= x <= 795 # 1000)%Q /\ (length (default [] (r_detections r)) <= 1)%nat) /\
    ((forall path dr d, run_detection path = Ok dr ->
        In d (default [] (dr_detections dr)) -> (0 <= d_confidence d)%Q) ->
     (0 <= x)%Q).
Proof. exact (process_session_event_entry event_id session). Qed.

End Processor.

Section SessionWithProcessor.
Variable ticks : nat -> Q.
Variable worker_id : string.
Variable hash : string -> Z.
Variable models_initialized : bool.

Variable stored_event : nat -> string -> StoredEvent.
Variable _download_image : nat -> string -> string -> option string.
Variable run_detection : nat -> string -> outcome DetectionResults.

Local Abbreviation event_processor :=
  (processor hash models_initialized stored_event _download_image run_detection).

(** X24.  With [_process_session_event] as the event processor and a
    detector whose confidences are not negative, the risk score of every
    session result lies in [0, 1], and so does the risk score of each
    entry of [events_processed]; each entry names an event of
    [event_ids], and the session never records a raised exception for an
    event, since [_process_session_event] turns every failure into an
    entry of its own. *)
Theorem session_risk_in_unit_interval (session : ProcessingSession) (w : World) :
  (forall n path dr d, run_detection n path = Ok dr ->
     In d (default [] (dr_detections dr)) -> (0 <= d_confidence d)%Q) ->
  exists res w',
    _process_session ticks worker_id event_processor session w = (Ok res, w') /\
    forall f, findings res = Some f ->
      (0 <= risk_score f <= 1)%Q /\
      forall e, In e (events_processed f) ->
        (0 <= risk_of e <= 1)%Q /\ In (r_event_id e) (Queue.event_ids session) /\
        is_Some (r_risk_score e).
Proof.
  intros Hconf.
  assert (forall n id e, event_processor n id session = Ok e ->
            (0 <= risk_of e <= 1)%Q /\ r_event_id e = id /\ is_Some (r_risk_score e))
    as Hproc.
  { intros n id e [= <-].
    destruct (process_session_event_entry hash models_initialized (stored_event n)
                (_download_image n) (run_detection n) id session)
      as (Hid & x & Hx & Hle & _ & _ & _ & Hpos).
    cbv zeta in *. unfold risk_of. rewrite Hx. cbn.
    split_and!; [| done | done | by eexists].
    apply Hpos. intros path dr d. apply Hconf. }
  destruct (session_risk_bounds ticks worker_id event_processor session w)
    as (res & w' & Hrun & Hf).
  { intros n id e He. by apply Hproc in He as [? _]. }
  exists res, w'. split; [done |]. intros f Hfind.
  destruct (Hf f Hfind) as [Hr He]. split; [done |].
  intros e Hin. split; [by apply He |].
  destruct (process_session_cases ticks worker_id event_processor session w)
    as [(ds & todo & res2 & w2 & f2 & new & t & _ & Hk & Hrun2 & _ & Hf2 & Hev & _ & _
         & Hnew & _)
       |(res2 & w2 & Hrun2 & _ & Hf2 & _)].
  2:{ rewrite Hrun in Hrun2. injection Hrun2 as <- <-. by rewrite Hf2 in Hfind. }
  rewrite Hrun in Hrun2. injection Hrun2 as <- <-.
  rewrite Hfind in Hf2. injection Hf2 as <-.
  rewrite Hev in Hin. apply in_map_iff in Hin as (x & <- & Hx).
  destruct (Hnew x Hx) as [Htodo [[n Hn]|(n & err & Hn & _)]]; [| done].
  apply Hproc in Hn as (_ & -> & Hsome). split; [| done].
  by eapply slice_to_value_In.
Qed.

End SessionWithProcessor.

End EventFacts.

Section LifeSafetyEndToEnd.
Import Py CandidateStore Scheduler DeepWorker SessionTrace.

Variable ticks : nat -> Q.
Variable worker_id : string.
Variable session_event : nat -> string -> ProcessingSession -> outcome EventResult.

(** X25.  From pre-emption to completion.  The session that
    [schedule_life_safety_event] puts at the head of the emergency list
    for a life-safety candidate can always be read by the worker (its
    deadline and [K] are numbers): [_process_session] finishes it with
    success = true, whatever the clock and the event processor do, with
    at most one entry in [events_processed] (none when the first check
    already finds more than 1.6 s elapsed), and leaves exactly one completion
    record for the event, with success = true. *)
Theorem life_safety_session_is_processed (candidate : EventCandidate) (now : Q)
    (self : ProcessingScheduler) (w : World) :
  _is_life_safety_event candidate = true ->
  let self' := snd (schedule_life_safety_event candidate now self) in
  exists session rest res w' f,
    queues self' !! "deep_processing_emergency" = Some (session :: rest) /\
    Queue.event_ids session = [event_id candidate] /\
    _process_session ticks worker_id session_event session w = (Ok res, w') /\
    success res = true /\ error_message res = None /\
    findings res = Some f /\ (length (events_processed f) <= 1)%nat /\
    map completion_key (scheduler_completions w')
    = (event_id candidate, worker_id, true)
        :: map completion_key (scheduler_completions w).
Proof.
  intros Hls. unfold schedule_life_safety_event. rewrite Hls. cbn [negb snd queues].
  eexists _, _. unfold LPUSH.
  match goal with |- context [<[_ := ?s :: ?r]> _] => set (session := s); set (rest := r) end.
  assert (div_1000 (Queue.deadline_ms session) = Ok (inject_Z 2000 / 1000)%Q) as Hd
    by reflexivity.
  assert (slice_to_value (Queue.K session) (Queue.event_ids session)
          = Ok [event_id candidate]) as Hk by reflexivity.
  unfold _process_session. unfold bind at 1. unfold read_clock at 1.
  unfold try_except.
  match goal with |- context [process_session_body _ _ _ _ _ ?w1] =>
    destruct (body_succeeds ticks worker_id session_event session (ticks (reads w))
                _ _ w1 Hd Hk)
      as (res & w' & f & -> & Hs & He & Hf & Hlen & _ & _ & Hcomp) end.
  exists res, w', f. split; [apply lookup_insert_eq |].
  split; [reflexivity |]. split; [reflexivity |].
  split; [exact Hs |]. split; [exact He |]. split; [exact Hf |]. split.
  - rewrite Hlen.
    match goal with |- (started ?a ?b ?c ?d ?e <= _)%nat =>
      pose proof (started_spec a b c d e) as (Hle & _) end.
    exact Hle.
  - rewrite Hcomp. reflexivity.
Qed.

End LifeSafetyEndToEnd.

Section WorkerExamples.
Import Py CandidateStore Scheduler DeepWorker WorkerEvents SessionTrace Scenarios Examples.

(** A session of one event on a worker with models whose detector sees
    a person at confidence 0.8: the risk of the event, 0.1 + 0.4 * 0.8,
    is the risk of the session. *)
Lemma session_risk_in_unit_interval_witness :
  exists res f,
    fst (_process_session boundary_clock "worker_1"
           (processor hash_in_process_a true nothing_stored every_image sees_person)
           (one_event_session (VInt 1) (VInt 1000)) fresh_world) = Ok res /\
    findings res = Some f /\
    (0 <= risk_score f <= 1)%Q /\ (risk_score f == 42 # 100)%Q.
Proof.
  destruct (session_risk_in_unit_interval boundary_clock "worker_1" hash_in_process_a
              true nothing_stored every_image sees_person
              (one_event_session (VInt 1) (VInt 1000)) fresh_world)
    as (res & w' & Hrun & Hf).
  - intros n path dr d [= <-]. cbn. intros [<-|[]]. by vm_compute.
  - assert (exists f, findings res = Some f /\ (risk_score f == 42 # 100)%Q)
      as (f & Hfind & Hval).
    { revert Hrun. vm_compute. intros [= <- _]. eexists. split; reflexivity. }
    exists res, f. rewrite Hrun. split; [reflexivity |]. split; [exact Hfind |].
    split; [apply (Hf f Hfind) | exact Hval].
Defined.

(** The emergency candidate of the scenarios, scheduled on a fresh
    scheduler and processed by a worker whose clock stands at 0.8 s. *)
Lemma life_safety_session_is_processed_witness :
  exists session rest res,
    queues (snd (schedule_life_safety_event emergency_event 0 (init 0)))
      !! "deep_processing_emergency" = Some (session :: rest) /\
    fst (_process_session boundary_clock "worker_1" person_seen session fresh_world)
    = Ok res /\
    success res = true.
Proof.
  destruct (life_safety_session_is_processed boundary_clock "worker_1" person_seen
              emergency_event 0 (init 0) fresh_world)
    as (session & rest & res & w' & f & Hq & _ & Hrun & Hs & _); [reflexivity |].
  exists session, rest, res. rewrite Hrun. by split_and!.
Defined.

End WorkerExamples.

(* ================================================================== *)
(** * Further properties of the lite scorer *)
(* ================================================================== *)

Section ScorerFacts.
Import LiteScorer LiteStub CandidateStore Scheduler.

Lemma clamp_bounds (x : Q) : (0 <= Py.max 0 (Py.min 1 x) <= 1)%Q.
Proof.
  unfold Py.max. destruct (py_min_cases 1 x) as (H1 & _).
  destruct (Py.Qltb 0 (Py.min 1 x)) eqn:E; [| lra].
  apply Qltb_iff in E. lra.
Qed.

Lemma clamp_mono (x y : Q) :
  (x <= y)%Q -> (Py.max 0 (Py.min 1 x) <= Py.max 0 (Py.min 1 y))%Q.
Proof.
  intros Hxy. apply py_max_0_mono.
  destruct (py_min_cases 1 x) as (Hx1 & Hx2 & _).
  destruct (py_min_cases 1 y) as (_ & _ & [H|H]); rewrite H; lra.
Qed.

Lemma clamp_above (x : Q) : (1 <= x)%Q -> Py.max 0 (Py.min 1 x) = 1%Q.
Proof.
  intros Hx. unfold Py.min.
  replace (Py.Qltb x 1) with false by (symmetry; by apply Qltb_false_iff).
  reflexivity.
Qed.

Lemma clamp_zero : Py.max 0 (Py.min 1 0) = 0%Q.
Proof. reflexivity. Qed.

Lemma mode_factor_pos (mode : string) : (0 < Py.get mode_factors mode 1)%Q.
Proof.
  unfold Py.get. destruct (mode_factors !! mode) as [v|] eqn:E; [| done].
  cbn [default]. unfold mode_factors in E. apply elem_of_list_to_map_2 in E.
  repeat (apply elem_of_cons in E as [[= _ ->]|E]; [done |]).
  by apply elem_of_nil in E.
Qed.

Lemma bit_cases (b : bool) : bit b = 0%Q \/ bit b = 1%Q.
Proof. destruct b; [by right | by left]. Qed.

(** X26.  The score of [_calculate_exact_score] lies in [0, 1] and is
    returned as the confidence as well, for every mode string (an
    unknown mode is scored as guardian), and a pet never raises it: with
    every other input the same, the score with the pet channel set is at
    most the score with the pet channel clear. *)
Theorem pet_never_raises_score (hash : string -> Z) (channels : gmap string bool)
    (image_name mode : string) :
  let with_pet :=
    _calculate_exact_score hash (<["pet" := true]> channels) image_name mode in
  let without_pet :=
    _calculate_exact_score hash (<["pet" := false]> channels) image_name mode in
  (0 <= score with_pet <= 1)%Q /\ (0 <= score without_pet <= 1)%Q /\
  confidence with_pet = score with_pet /\
  confidence without_pet = score without_pet /\
  (score with_pet <= score without_pet)%Q.
Proof.
  unfold _calculate_exact_score.
  destruct (Py.get thresholds mode _) as [lo hi].
  cbn [score confidence].
  split; [apply clamp_bounds |]. split; [apply clamp_bounds |].
  split; [done |]. split; [done |].
  apply clamp_mono. unfold Py.get. rewrite !lookup_insert_eq.
  rewrite !lookup_insert_ne by done.
  change (bit (default false (Some true))) with 1%Q.
  change (bit (default false (Some false))) with 0%Q.
  pose proof (mode_factor_pos mode) as Hm. unfold Py.get in Hm.
  set (mf := default 1%Q (mode_factors !! mode)) in *.
  set (per := if Py.Qltb (mock_distance hash image_name) (15 # 10)
              then (125 # 100)%Q else 1%Q).
  set (night := if mock_is_night hash image_name then (115 # 100)%Q else 1%Q).
  assert (per = (125 # 100)%Q \/ per = 1%Q) as Hper
    by (unfold per; destruct (Py.Qltb _ _); eauto).
  assert (night = (115 # 100)%Q \/ night = 1%Q) as Hnight
    by (unfold night; destruct (mock_is_night _ _); eauto).
  clearbody per night mf.
  destruct (bit_cases (default false (channels !! "person"))) as [-> | ->];
  destruct (bit_cases (default false (channels !! "vehicle"))) as [-> | ->];
  destruct (bit_cases (default false (channels !! "linger"))) as [-> | ->];
  destruct Hper as [-> | ->]; destruct Hnight as [-> | ->]; lra.
Qed.

(** The channels the stub reads off a file name. *)
Lemma classify_stub_score (hash : string -> Z) (file_name : string) :
  let r := _classify_stub hash file_name in
  exists person vehicle pet linger,
    c_channels r = [("person", person); ("vehicle", vehicle); ("pet", pet);
                    ("linger", linger)] /\
    person = Py.contains "person" (Py.lower file_name)
             || Py.contains "human" (Py.lower file_name) /\
    c_score r =
    score (_calculate_exact_score hash
             (list_to_map [("person", person); ("vehicle", vehicle); ("pet", pet);
                           ("linger", linger)])
             (Py.lower file_name) "guardian") /\
    c_explainer r =
    (let detected :=
       map fst (List.filter (fun kv : string * bool =>
                               snd kv && negb (String.eqb (fst kv) "linger"))
                  [("person", person); ("vehicle", vehicle); ("pet", pet);
                   ("linger", linger)]) in
     let explainer : string :=
       match detected with
       | [] => "No objects detected"
       | _ => ("Detected: " ++ String.concat ", " detected)%string
       end in
     if linger then (explainer ++ " (lingering)")%string else explainer).
Proof.
  unfold _classify_stub. cbv zeta. eexists _, _, _, _.
  split; [reflexivity |]. split; [reflexivity |]. split; [reflexivity |].
  cbn [c_explainer]. f_equal.
Qed.

(** X27.  What the stub classifier answers.  [_classify_stub] always
    scores in guardian mode and returns the score as the confidence, a
    number in [0, 1].  A file name that contains person or human (in any
    case) and none of the pet words dog, cat, pet, animal scores 1.0,
    band high, whatever the hash of the name gives for distance, night
    and lingering.  An image whose name has no person, vehicle or linger
    word and on which the hash does not draw a linger scores 0.0, band
    low. *)
Theorem classify_stub_person_is_high (hash : string -> Z) (file_name : string) :
  let r := _classify_stub hash file_name in
  let name := Py.lower file_name in
  let pet := existsb (fun p => Py.contains p name) ["dog"; "cat"; "pet"; "animal"] in
  c_mode r = "guardian" /\ c_confidence r = c_score r /\
  (0 <= c_score r <= 1)%Q /\
  (Py.contains "person" name || Py.contains "human" name = true -> pet = false ->
   c_score r = 1%Q /\ c_threshold_met r = "high") /\
  (Py.contains "person" name || Py.contains "human" name = false ->
   existsb (fun v => Py.contains v name) ["car"; "truck"; "vehicle"; "bike"] = false ->
   Py.contains "linger" name || (hash name mod 10 <? 2)%Z = false ->
   c_score r = 0%Q /\ c_threshold_met r = "low").
Proof.
  unfold _classify_stub. cbv zeta.
  cbn [c_mode c_confidence c_score c_threshold_met].
  set (name := Py.lower file_name).
  set (person := Py.contains "person" name || Py.contains "human" name).
  set (vehicle := existsb _ ["car"; "truck"; "vehicle"; "bike"]).
  set (pet := existsb _ ["dog"; "cat"; "pet"; "animal"]).
  set (linger := Py.contains "linger" name || (hash name mod 10 <? 2)%Z).
  unfold _calculate_exact_score.
  change (Py.get thresholds "guardian" (30 # 100, 60 # 100)%Q)
    with (30 # 100, 60 # 100)%Q.
  change (Py.get mode_factors "guardian" 1%Q) with 1%Q.
  cbn [score confidence threshold_met mode].
  assert (forall k b, In k ["person"; "vehicle"; "pet"; "linger"] ->
            Py.get (list_to_map [("person", person); ("vehicle", vehicle);
                                 ("pet", pet); ("linger", linger)] : gmap string bool)
                   k b
            = match k with
              | "person" => person | "vehicle" => vehicle
              | "pet" => pet | _ => linger
              end%string) as Hget.
  { intros k b Hk. unfold Py.get. cbn [list_to_map foldr uncurry fst snd].
    cbn in Hk. destruct Hk as [<-|[<-|[<-|[<-|[]]]]];
      repeat (rewrite lookup_insert_ne by done); by rewrite lookup_insert_eq. }
  rewrite !Hget by (cbn; tauto).
  set (per := if Py.Qltb (mock_distance hash name) (15 # 10)
              then (125 # 100)%Q else 1%Q).
  set (night := if mock_is_night hash name then (115 # 100)%Q else 1%Q).
  assert (per = (125 # 100)%Q \/ per = 1%Q) as Hper
    by (unfold per; destruct (Py.Qltb _ _); eauto).
  assert (night = (115 # 100)%Q \/ night = 1%Q) as Hnight
    by (unfold night; destruct (mock_is_night _ _); eauto).
  clearbody per night.
  split; [done |]. split; [done |]. split; [apply clamp_bounds |]. split.
  - intros -> ->. cbn [bit].
    rewrite clamp_above.
    + done.
    + destruct (bit_cases vehicle) as [-> | ->]; destruct (bit_cases linger) as [-> | ->];
        destruct Hper as [-> | ->]; destruct Hnight as [-> | ->]; lra.
  - intros -> -> ->. cbn [bit].
    assert ((1 * 0 + (70 # 100) * 0 + (15 # 100) * 0) * (1 - (60 # 100) * bit pet)
            * per * night * 1 == 0)%Q as H0 by ring.
    assert (Py.max 0 (Py.min 1 ((1 * 0 + (70 # 100) * 0 + (15 # 100) * 0)
                                * (1 - (60 # 100) * bit pet) * per * night * 1)) = 0%Q)
      as ->.
    { destruct (bit_cases pet) as [-> | ->];
        destruct Hper as [-> | ->]; destruct Hnight as [-> | ->]; reflexivity. }
    done.
Qed.

(** X28.  The explainer of the stub classifier never pre-empts.  Whatever
    the file name and the hash, the text [_classify_stub] writes contains
    none of the life-safety indicators, so a candidate that carries it is
    a life-safety event only through its location and priority (a door at
    priority CRITICAL) or its mode (emergency or alarm). *)
Theorem classify_stub_explainer_never_preempts (hash : string -> Z)
    (file_name : string) (candidate : EventCandidate) :
  lite_explainer candidate = Some (c_explainer (_classify_stub hash file_name)) ->
  _is_life_safety_event candidate
  = (Py.mem (location candidate) ["front_door"; "back_door"]
     && (priority_value CRITICAL <=? priority_value (priority candidate))%Z)
    || Py.mem (mode candidate) ["emergency"; "alarm"].
Proof.
  intros He. unfold _is_life_safety_event. rewrite He.
  destruct (classify_stub_score hash file_name)
    as (person & vehicle & pet & linger & _ & _ & _ & ->).
  replace (if String.eqb _ "" then false else existsb _ life_safety_indicators)
    with false.
  - destruct (Py.mem (location candidate) _ && _); [done |].
    by destruct (Py.mem (mode candidate) _).
  - destruct person, vehicle, pet, linger; by vm_compute.
Qed.

End ScorerFacts.

Section ScorerExamples.
Import LiteScorer LiteStub CandidateStore Scheduler Scenarios Examples.

(** A camera frame named after a person: score 1.0, band high. *)
Lemma classify_stub_person_is_high_witness :
  c_score (_classify_stub hash_in_process_b "Front_Person_01.jpg") = 1%Q /\
  c_threshold_met (_classify_stub hash_in_process_b "Front_Person_01.jpg") = "high".
Proof.
  apply (classify_stub_person_is_high hash_in_process_b "Front_Person_01.jpg");
    by vm_compute.
Defined.

(** A candidate in the garage, at normal priority and in guardian mode,
    that carries the stub's explainer for a frame with a person. *)
Lemma classify_stub_explainer_never_preempts_witness :
  _is_life_safety_event
    (candidate "evt_1" "home_abc" NORMAL "garage" "guardian"
       (Some (c_explainer (_classify_stub hash_in_process_b "Front_Person_01.jpg"))))
  = false.
Proof.
  rewrite (classify_stub_explainer_never_preempts hash_in_process_b
             "Front_Person_01.jpg"); reflexivity.
Defined.

(** Two hashes of the same residue modulo 100: the same result. *)
Lemma calculate_exact_score_hash_residue_witness :
  _calculate_exact_score hash_in_process_b vehicle_with_pet "driveway_cam.jpg" "guardian"
  = _calculate_exact_score (fun _ => 121%Z) vehicle_with_pet "driveway_cam.jpg"
      "guardian".
Proof.
  apply (calculate_exact_score_hash_residue hash_in_process_b (fun _ => 121%Z)).
  reflexivity.
Defined.

End ScorerExamples.
